(** * A shallow embedding of merklebtree/btree.go (cbergoon/merkletree)

    The Go package keeps a B-tree of [*Node]s linked by child slices and
    [Parent] back-pointers, each node caching a SHA-256 [Hash] of its contents'
    digests followed by its children's cached hashes.

    Modelling choices:
    - a [Node] is a rose tree; the only pointers the code follows are
      [Children] slots and [Parent] links, and the code keeps the nodes a tree,
      so a [*Node] is modelled by its address: the list of child indices from
      the node up to the root (innermost index first).  [node.Parent] is then
      the tail of the address and [node == tree.Root] is the empty address;
    - the [Tree] record is the state of a state monad [M] whose failures are Go
      panics (nil dereference, index out of range, and the explicit [panic]s);
      a panic carries the state it left behind;
    - SHA-256 and [Content.CalculateHash] are parameters of the section:
      [Sum256] is the combining hash, [ContentHash] may fail ([None]);
    - [Item] is the test suite's item: an integer key, compared by
      [Comparator] exactly as the tests' [Item2.Comparator], and a payload. *)

From Stdlib Require Import String Ascii ZArith List Lia Bool Sorting.Sorted Sorting.Permutation.
Set Warnings "-register-all".
Import ListNotations.
Local Open Scope Z_scope.

Module MerkleBTree.

(** Byte sequences ([[]byte]); each element is an 8-bit value. *)
Definition bytes := list Z.

(** The tests' [Item2 { Key int; Value int }]. *)
Record Item := mkItem { Key : Z; Value : Z }.

(** [func (a Item2) Comparator(b Content) int]. *)
Definition Comparator (a b : Item) : Z :=
  if Key b <? Key a then 1 else if Key a <? Key b then -1 else 0.

(** [type Node struct { Parent; Hash; Contents; Children }]; [Parent] is
    implicit in the address of the node. *)
Inductive Node := mkNode { Hash : bytes; Contents : list Item; Children : list Node }.

(** [type Tree struct { Root *Node; size int; m int }]. *)
Record Tree := mkTree { Root : option Node; size : Z; m : Z }.

Definition with_hash (h : bytes) (n : Node) : Node := mkNode h (Contents n) (Children n).
Definition with_contents (cs : list Item) (n : Node) : Node := mkNode (Hash n) cs (Children n).
Definition with_children (ks : list Node) (n : Node) : Node := mkNode (Hash n) (Contents n) ks.

Definition with_root (r : option Node) (t : Tree) : Tree := mkTree r (size t) (m t).
Definition with_size (s : Z) (t : Tree) : Tree := mkTree (Root t) s (m t).

(** ** Go slice operations, [None] where Go panics *)

Definition len {A} (l : list A) : Z := Z.of_nat (length l).

(** [l[i]] *)
Definition index {A} (l : list A) (i : Z) : option A :=
  if i <? 0 then None else nth_error l (Z.to_nat i).

(** [l[i] = x] *)
Fixpoint set_nth {A} (l : list A) (i : nat) (x : A) : option (list A) :=
  match l, i with
  | [], _ => None
  | _ :: l', O => Some (x :: l')
  | y :: l', S i' => option_map (cons y) (set_nth l' i' x)
  end.
Definition set_index {A} (l : list A) (i : Z) (x : A) : option (list A) :=
  if i <? 0 then None else set_nth l (Z.to_nat i) x.

(** [l = append(l, nil); copy(l[i+1:], l[i:]); l[i] = x] *)
Definition insert_index {A} (l : list A) (i : Z) (x : A) : option (list A) :=
  if (i <? 0) || (len l <? i) then None
  else Some (firstn (Z.to_nat i) l ++ x :: skipn (Z.to_nat i) l).

(** [copy(l[i:], l[i+1:]); l[len(l)-1] = nil; l = l[:len(l)-1]] *)
Definition remove_index {A} (l : list A) (i : Z) : option (list A) :=
  if (i <? 0) || (len l <=? i) then None
  else Some (firstn (Z.to_nat i) l ++ skipn (S (Z.to_nat i)) l).

(** [l[:i]] and [l[i:]] *)
Definition slice_to {A} (l : list A) (i : Z) : option (list A) :=
  if (i <? 0) || (len l <? i) then None else Some (firstn (Z.to_nat i) l).
Definition slice_from {A} (l : list A) (i : Z) : option (list A) :=
  if (i <? 0) || (len l <? i) then None else Some (skipn (Z.to_nat i) l).

(** ** Addresses of nodes *)

(** The address of a node: child indices from the node up to the root. *)
Definition addr := list nat.

Fixpoint node_at (r : Node) (a : addr) : option Node :=
  match a with
  | [] => Some r
  | i :: p => match node_at r p with
              | Some n => nth_error (Children n) i
              | None => None
              end
  end.

Fixpoint update_nth {A} (l : list A) (i : nat) (f : A -> A) : list A :=
  match l, i with
  | [], _ => []
  | x :: l', O => f x :: l'
  | x :: l', S i' => x :: update_nth l' i' f
  end.

(** Apply [f] to the node at address [a]. *)
Fixpoint update_at (r : Node) (a : addr) (f : Node -> Node) : Node :=
  match a with
  | [] => f r
  | i :: p => update_at r p (fun n => with_children (update_nth (Children n) i f) n)
  end.

(** ** The state monad of a [*Tree] method *)

Inductive result (A : Type) :=
| Ok (a : A) (t : Tree)
| Panic (msg : string) (t : Tree).
Arguments Ok {A}. Arguments Panic {A}.

Definition M (A : Type) := Tree -> result A.

Definition ret {A} (a : A) : M A := fun t => Ok a t.
Definition bind {A B} (c : M A) (k : A -> M B) : M B :=
  fun t => match c t with Ok a t' => k a t' | Panic e t' => Panic e t' end.
Definition panic {A} (msg : string) : M A := fun t => Panic msg t.
Definition lift {A} (msg : string) (o : option A) : M A :=
  match o with Some a => ret a | None => panic msg end.
Definition get_tree : M Tree := fun t => Ok t t.
Definition put_tree (t' : Tree) : M unit := fun _ => Ok tt t'.

Notation "x <- c ;; k" := (bind c (fun x => k)) (at level 61, c at next level, right associativity).
Notation "c ;; k" := (bind c (fun _ => k)) (at level 61, right associativity).

(** Dereference the node at an address. *)
Definition getNode (a : addr) : M Node :=
  fun t => match Root t with
           | None => Panic "nil pointer dereference"%string t
           | Some r => match node_at r a with
                       | Some n => Ok n t
                       | None => Panic "nil pointer dereference"%string t
                       end
           end.

(** Write through the pointer of the node at an address. *)
Definition modifyNode (a : addr) (f : Node -> Node) : M unit :=
  fun t => match Root t with
           | None => Panic "nil pointer dereference"%string t
           | Some r => match node_at r a with
                       | Some _ => Ok tt (with_root (Some (update_at r a f)) t)
                       | None => Panic "nil pointer dereference"%string t
                       end
           end.

Definition setContents (a : addr) (cs : list Item) : M unit := modifyNode a (with_contents cs).
Definition setChildren (a : addr) (ks : list Node) : M unit := modifyNode a (with_children ks).

Definition out_of_range : string := "index out of range"%string.

Section Model.

(** [Content.CalculateHash] of the stored items; [None] is a returned error. *)
Variable ContentHash : Item -> option bytes.
(** [sha256.New(); h.Write(bytes); h.Sum(nil)]. *)
Variable Sum256 : bytes -> bytes.

(** ** Capacities, lines 222-252 *)

Definition isLeaf (node : Node) : bool := match Children node with [] => true | _ => false end.
Definition maxChildren (m : Z) : Z := m.
Definition minChildren (m : Z) : Z := (m + 1) / 2.
Definition maxContents (m : Z) : Z := maxChildren m - 1.
Definition minContents (m : Z) : Z := minChildren m - 1.
Definition middle (m : Z) : Z := (m - 1) / 2.
Definition isFull (m : Z) (node : Node) : bool := len (Contents node) =? maxContents m.
Definition shouldSplit (m : Z) (node : Node) : bool := maxContents m <? len (Contents node).

(** ** [NewWith], lines 93-99: [None] is the panic. *)
Definition NewWith (order : Z) : option Tree :=
  if order <? 3 then None else Some (mkTree None 0 order).

(** ** [search], lines 255-271: binary search within one node.
    Each round shrinks [high - low], so [S (length contents)] rounds suffice. *)
Fixpoint search_loop (fuel : nat) (contents : list Item) (item : Item) (low high : Z)
  : Z * bool :=
  match fuel with
  | O => (low, false)
  | S fuel' =>
    if low <=? high then
      let mid := (high + low) / 2 in
      let compare := Comparator item (nth (Z.to_nat mid) contents item) in
      if 0 <? compare then search_loop fuel' contents item (mid + 1) high
      else if compare <? 0 then search_loop fuel' contents item low (mid - 1)
      else (mid, true)
    else (low, false)
  end.

Definition search (node : Node) (item : Item) : Z * bool :=
  search_loop (S (length (Contents node))) (Contents node) item 0 (len (Contents node) - 1).

(** ** Digests, lines 44-80 *)

Fixpoint content_bytes (cs : list Item) : option bytes :=
  match cs with
  | [] => Some []
  | c :: cs' => match ContentHash c with
                | None => None
                | Some h => option_map (app h) (content_bytes cs')
                end
  end.

(** The digest [CalculateHash] assigns to a node, from its contents and its
    children's cached hashes. *)
Definition node_hash (node : Node) : option bytes :=
  match content_bytes (Contents node) with
  | None => None
  | Some bs => Some (Sum256 (bs ++ concat (map Hash (Children node))))
  end.

(** [CalculateHash] on a node not (yet) in the tree. *)
Definition calc_local (node : Node) : Node :=
  match node_hash node with Some h => with_hash h node | None => node end.

(** [func (tree *Tree) CalculateHash(node *Node) ([]byte, error)] *)
Definition CalculateHash (a : addr) : M (option bytes) :=
  node <- getNode a;;
  match node_hash node with
  | None => ret None
  | Some h => modifyNode a (with_hash h);; ret (Some h)
  end.

(** [ReCalculateMerkleRoot]: rehash from the node up to the root, stopping at
    the first error. *)
Fixpoint ReCalculateMerkleRoot (a : addr) : M (option bytes) :=
  match a with
  | [] => CalculateHash []
  | _ :: parent =>
    r <- CalculateHash a;;
    match r with
    | None => ret None
    | Some _ => ReCalculateMerkleRoot parent
    end
  end.


(** [node.Contents[i] = x] *)
Definition setContentAt (a : addr) (i : Z) (x : Item) : M unit :=
  node <- getNode a;;
  cs <- lift out_of_range (set_index (Contents node) i x);;
  setContents a cs.

(** ** Splitting, lines 367-444 *)

(** The body of [splitNonRoot] up to its final [tree.split(parent)], which
    [split] performs. *)
Definition splitNonRoot (node_a parent : addr) : M unit :=
  t <- get_tree;;
  let middle := middle (m t) in
  node <- getNode node_a;;
  lc <- lift out_of_range (slice_to (Contents node) middle);;
  rc <- lift out_of_range (slice_from (Contents node) (middle + 1));;
  lr <- (if isLeaf node then ret ([], [])
         else lk <- lift out_of_range (slice_to (Children node) (middle + 1));;
              rk <- lift out_of_range (slice_from (Children node) (middle + 1));;
              ret (lk, rk));;
  let left := mkNode [] lc (fst lr) in
  let right := mkNode [] rc (snd lr) in
  sep <- lift out_of_range (index (Contents node) middle);;
  pnode <- getNode parent;;
  let insertPosition := fst (search pnode sep) in
  pcs <- lift out_of_range (insert_index (Contents pnode) insertPosition sep);;
  setContents parent pcs;;
  pnode <- getNode parent;;
  pks <- lift out_of_range (set_index (Children pnode) insertPosition left);;
  setChildren parent pks;;
  pnode <- getNode parent;;
  pks <- lift out_of_range (insert_index (Children pnode) (insertPosition + 1) right);;
  setChildren parent pks;;
  CalculateHash (Z.to_nat insertPosition :: parent);;
  CalculateHash (Z.to_nat (insertPosition + 1) :: parent);;
  CalculateHash parent;;
  ret tt.

Definition splitRoot : M unit :=
  t <- get_tree;;
  let middle := middle (m t) in
  root <- getNode [];;
  lc <- lift out_of_range (slice_to (Contents root) middle);;
  rc <- lift out_of_range (slice_from (Contents root) (middle + 1));;
  lr <- (if isLeaf root then ret ([], [])
         else lk <- lift out_of_range (slice_to (Children root) (middle + 1));;
              rk <- lift out_of_range (slice_from (Children root) (middle + 1));;
              ret (lk, rk));;
  let left := calc_local (mkNode [] lc (fst lr)) in
  let right := calc_local (mkNode [] rc (snd lr)) in
  sep <- lift out_of_range (index (Contents root) middle);;
  t <- get_tree;;
  put_tree (with_root (Some (mkNode [] [sep] [left; right])) t);;
  CalculateHash [];;
  ret tt.

Fixpoint split (a : addr) : M unit :=
  t <- get_tree;;
  node <- getNode a;;
  if negb (shouldSplit (m t) node) then (ReCalculateMerkleRoot a;; ret tt)
  else match a with
       | [] => splitRoot
       | _ :: parent => splitNonRoot a parent;; split parent
       end.

(** ** Insertion, lines 104-123 and 335-365 *)

Definition insertIntoLeaf (a : addr) (content : Item) : M bool :=
  node <- getNode a;;
  let '(insertPosition, found) := search node content in
  if found then (setContentAt a insertPosition content;; ReCalculateMerkleRoot a;; ret false)
  else (cs <- lift out_of_range (insert_index (Contents node) insertPosition content);;
        setContents a cs;;
        split a;;
        ret true).

(** [insert] / [insertIntoInternal]: [node] is the node at address [a]; the
    descent mutates nothing before it stops. *)
Fixpoint insert (node : Node) (a : addr) (content : Item) {struct node} : M bool :=
  match node with
  | mkNode _ _ [] => insertIntoLeaf a content
  | mkNode _ cs kids =>
    let '(insertPosition, found) := search node content in
    if found then (setContentAt a insertPosition content;; ReCalculateMerkleRoot a;; ret false)
    else
      let i := Z.to_nat insertPosition in
      (fix child (ks : list Node) (j : nat) : M bool :=
         match ks, j with
         | [], _ => panic out_of_range
         | k :: _, O => insert k (i :: a) content
         | _ :: ks', S j' => child ks' j'
         end) kids i
  end.

Definition Put (item : Item) : M unit :=
  t <- get_tree;;
  match Root t with
  | None =>
    put_tree (mkTree (Some (mkNode [] [item] [])) (size t + 1) (m t));;
    r <- ReCalculateMerkleRoot [];;
    match r with
    | None => panic "digest error"%string
    | Some _ => ret tt
    end
  | Some root =>
    inserted <- insert root [] item;;
    if inserted then (t <- get_tree;; put_tree (with_size (size t + 1) t)) else ret tt
  end.

(** ** Lookup, lines 128-134 and 318-333 *)

Fixpoint searchFrom (node : Node) (a : addr) (item : Item) {struct node}
  : M (option (addr * Z)) :=
  let '(index, found) := search node item in
  if found then ret (Some (a, index))
  else match node with
       | mkNode _ _ [] => ret None
       | mkNode _ _ kids =>
         let i := Z.to_nat index in
         (fix child (ks : list Node) (j : nat) : M (option (addr * Z)) :=
            match ks, j with
            | [], _ => panic out_of_range
            | k :: _, O => searchFrom k (i :: a) item
            | _ :: ks', S j' => child ks' j'
            end) kids i
       end.

(** [searchRecursively(tree.Root, item)]: [None] is [(nil, -1, false)]. *)
Definition searchRecursively (item : Item) : M (option (addr * Z)) :=
  t <- get_tree;;
  if size t =? 0 then ret None
  else match Root t with
       | None => panic "nil pointer dereference"%string
       | Some root => searchFrom root [] item
       end.

Definition Get (item : Item) : M (Item * bool) :=
  r <- searchRecursively item;;
  match r with
  | Some (a, i) => node <- getNode a;;
                   c <- lift out_of_range (index (Contents node) i);;
                   ret (c, true)
  | None => ret (item, false)
  end.


(** ** Deletion, lines 452-634 *)

(** [tree.right(node)], lines 465-476, from the node at address [a]. *)
Fixpoint rightFrom (node : Node) (a : addr) {struct node} : M addr :=
  match node with
  | mkNode _ _ [] => ret a
  | mkNode _ _ kids =>
    (fix last (ks : list Node) (i : nat) : M addr :=
       match ks with
       | [] => panic out_of_range
       | [k] => rightFrom k (i :: a)
       | _ :: ks' => last ks' (S i)
       end) kids O
  end.

Definition right (a : addr) : M (option addr) :=
  t <- get_tree;;
  if size t =? 0 then ret None
  else (node <- getNode a;; r <- rightFrom node a;; ret (Some r)).

(** [tree.left(node)], lines 452-463, from the node at address [a]. *)
Fixpoint leftFrom (node : Node) (a : addr) {struct node} : M addr :=
  match node with
  | mkNode _ _ [] => ret a
  | mkNode _ _ (k :: _) => leftFrom k (O :: a)
  end.

Definition left (a : addr) : M (option addr) :=
  t <- get_tree;;
  if size t =? 0 then ret None
  else (node <- getNode a;; r <- leftFrom node a;; ret (Some r)).

Definition deleteContent (a : addr) (i : Z) : M unit :=
  node <- getNode a;;
  cs <- lift out_of_range (remove_index (Contents node) i);;
  setContents a cs.

Definition deleteChild (a : addr) (i : Z) : M unit :=
  node <- getNode a;;
  if len (Children node) <=? i then ret tt
  else (ks <- lift out_of_range (remove_index (Children node) i);; setChildren a ks).

(** The slot of a node that was child [i] of its parent once [deleteChild]
    removed child [j]; [None] if the node itself was removed, after which Go
    goes on with a node no longer in the tree and the model stops. *)
Definition reloc (i : nat) (j : Z) : option nat :=
  if Z.of_nat i <? j then Some i
  else if Z.of_nat i =? j then None
  else Some (Nat.pred i).

Definition detached : string := "node detached from the tree".

(** Rotate right, lines 543-555: [node] at [a], its left sibling at
    [lsi :: parent]. *)
Definition rotateRight (a parent : addr) (lsi : Z) : M unit :=
  let ls := Z.to_nat lsi :: parent in
  pnode <- getNode parent;;
  sep <- lift out_of_range (index (Contents pnode) lsi);;
  node <- getNode a;;
  setContents a (sep :: Contents node);;
  lsn <- getNode ls;;
  last <- lift out_of_range (index (Contents lsn) (len (Contents lsn) - 1));;
  setContentAt parent lsi last;;
  lsn <- getNode ls;;
  deleteContent ls (len (Contents lsn) - 1);;
  lsn <- getNode ls;;
  (if isLeaf lsn then ret tt
   else (c <- lift out_of_range (index (Children lsn) (len (Children lsn) - 1));;
         node <- getNode a;;
         setChildren a (c :: Children node);;
         lsn <- getNode ls;;
         deleteChild ls (len (Children lsn) - 1)));;
  CalculateHash a;;
  CalculateHash ls;;
  ret tt.

(** Rotate left, lines 561-573: right sibling at [rsi :: parent]. *)
Definition rotateLeft (a parent : addr) (rsi : Z) : M unit :=
  let rs := Z.to_nat rsi :: parent in
  pnode <- getNode parent;;
  sep <- lift out_of_range (index (Contents pnode) (rsi - 1));;
  node <- getNode a;;
  setContents a (Contents node ++ [sep]);;
  rsn <- getNode rs;;
  first <- lift out_of_range (index (Contents rsn) 0);;
  setContentAt parent (rsi - 1) first;;
  deleteContent rs 0;;
  rsn <- getNode rs;;
  (if isLeaf rsn then ret tt
   else (c <- lift out_of_range (index (Children rsn) 0);;
         node <- getNode a;;
         setChildren a (Children node ++ [c]);;
         deleteChild rs 0));;
  CalculateHash a;;
  CalculateHash rs;;
  ret tt.

(** Merge with the right sibling, lines 577-585: returns the node's slot
    afterwards and the separator that left the parent. *)
Definition mergeRight (i : nat) (parent : addr) (rsi : Z) : M (nat * Item) :=
  let a := i :: parent in
  pnode <- getNode parent;;
  sep <- lift out_of_range (index (Contents pnode) (rsi - 1));;
  node <- getNode a;;
  setContents a (Contents node ++ [sep]);;
  rsn <- getNode (Z.to_nat rsi :: parent);;
  node <- getNode a;;
  setContents a (Contents node ++ Contents rsn);;
  pnode <- getNode parent;;
  deleted <- lift out_of_range (index (Contents pnode) (rsi - 1));;
  deleteContent parent (rsi - 1);;
  pnode <- getNode parent;;
  from <- lift out_of_range (index (Children pnode) rsi);;
  node <- getNode a;;
  setChildren a (Children node ++ Children from);;
  deleteChild parent rsi;;
  i' <- lift detached (reloc i rsi);;
  CalculateHash (i' :: parent);;
  ret (i', deleted).

(** Merge with the left sibling, lines 586-595. *)
Definition mergeLeft (i : nat) (parent : addr) (lsi : Z) : M (nat * Item) :=
  let a := i :: parent in
  lsn <- getNode (Z.to_nat lsi :: parent);;
  pnode <- getNode parent;;
  sep <- lift out_of_range (index (Contents pnode) lsi);;
  node <- getNode a;;
  setContents a (Contents lsn ++ [sep] ++ Contents node);;
  pnode <- getNode parent;;
  deleted <- lift out_of_range (index (Contents pnode) lsi);;
  deleteContent parent lsi;;
  pnode <- getNode parent;;
  from <- lift out_of_range (index (Children pnode) lsi);;
  node <- getNode a;;
  setChildren a (Children from ++ Children node);;
  deleteChild parent lsi;;
  i' <- lift detached (reloc i lsi);;
  CalculateHash (i' :: parent);;
  ret (i', deleted).

(** Lines 540-604 for an underflowing node at [i :: parent]: [None] when
    [rebalance] returns, [Some item] when it goes on with
    [tree.rebalance(node.Parent, item)]. *)
Definition rebalanceNode (i : nat) (parent : addr) (deletedItem : Item) : M (option Item) :=
  let a := i :: parent in
  t <- get_tree;;
  let minc := minContents (m t) in
  (* leftSibling(node, deletedItem), lines 480-489 *)
  pnode <- getNode parent;;
  let lsi := fst (search pnode deletedItem) - 1 in
  let hasLeft := (0 <=? lsi) && (lsi <? len (Children pnode)) in
  lcount <- (if hasLeft then (lsn <- getNode (Z.to_nat lsi :: parent);; ret (len (Contents lsn)))
             else ret 0);;
  if hasLeft && (minc <? lcount) then (rotateRight a parent lsi;; ret None)
  else
  (* rightSibling(node, deletedItem), lines 493-502 *)
  pnode <- getNode parent;;
  let rsi := fst (search pnode deletedItem) + 1 in
  let hasRight := rsi <? len (Children pnode) in
  rcount <- (if hasRight then (rsn <- getNode (Z.to_nat rsi :: parent);; ret (len (Contents rsn)))
             else ret 0);;
  if hasRight && (minc <? rcount) then (rotateLeft a parent rsi;; ret None)
  else
  merged <- (if hasRight then mergeRight i parent rsi
             else if hasLeft then mergeLeft i parent lsi
             else ret (i, deletedItem));;
  let '(i', deletedItem') := merged in
  t <- get_tree;;
  match parent with
  | [] =>
    root <- lift "nil pointer dereference"%string (Root t);;
    if len (Contents root) =? 0 then
      (node <- getNode [i'];;
       put_tree (with_root (Some node) t);;
       CalculateHash [];;
       ret None)
    else ret (Some deletedItem')
  | _ => ret (Some deletedItem')
  end.

Fixpoint rebalance (a : addr) (deletedItem : Item) : M unit :=
  t <- get_tree;;
  node <- getNode a;;
  if minContents (m t) <=? len (Contents node) then (ReCalculateMerkleRoot a;; ret tt)
  else match a with
       | [] => ret tt (* no sibling, no merge, and [node.Parent] is nil *)
       | i :: parent =>
         next <- rebalanceNode i parent deletedItem;;
         match next with
         | None => ret tt
         | Some item => rebalance parent item
         end
       end.

Definition delete (a : addr) (i : Z) : M unit :=
  node <- getNode a;;
  if isLeaf node then
    (deletedKey <- lift out_of_range (index (Contents node) i);;
     deleteContent a i;;
     rebalance a deletedKey;;
     t <- get_tree;;
     root <- lift "nil pointer dereference"%string (Root t);;
     if len (Contents root) =? 0 then put_tree (with_root None t) else ret tt)
  else
    (_ <- lift out_of_range (index (Children node) i);;
     r <- right (Z.to_nat i :: a);;
     ll <- lift "nil pointer dereference"%string r;;
     lln <- getNode ll;;
     let lci := len (Contents lln) - 1 in
     x <- lift out_of_range (index (Contents lln) lci);;
     setContentAt a i x;;
     deleteContent ll lci;;
     rebalance ll x).

Definition Remove (item : Item) : M unit :=
  r <- searchRecursively item;;
  match r with
  | Some (a, i) => delete a i;; t <- get_tree;; put_tree (with_size (size t - 1) t)
  | None => ret tt
  end.


(** ** Queries, lines 147-178 *)

Definition Empty (t : Tree) : bool := size t =? 0.
Definition Size (t : Tree) : Z := size t.
Definition Clear : M unit := t <- get_tree;; put_tree (mkTree None 0 (m t)).

Definition hexdigit (d : Z) : ascii :=
  ascii_of_nat (Z.to_nat (if d <? 10 then 48 + d else 87 + d)).

(** [hex.EncodeToString] *)
Fixpoint EncodeToString (bs : bytes) : string :=
  match bs with
  | [] => EmptyString
  | b :: bs' => String (hexdigit (b / 16)) (String (hexdigit (b mod 16)) (EncodeToString bs'))
  end.

Definition MerkleBTreeRoot (t : Tree) : string :=
  match Root t with
  | None => EmptyString
  | Some root => EncodeToString (Hash root)
  end.

(** [node.height()], lines 211-220, along the first children. *)
Fixpoint nodeHeight (node : Node) : Z :=
  match node with
  | mkNode _ _ [] => 1
  | mkNode _ _ (k :: _) => 1 + nodeHeight k
  end.

(** [tree.Height()], lines 181-184: [height()] of a nil root is 0. *)
Definition Height (t : Tree) : Z :=
  match Root t with None => 0 | Some r => nodeHeight r end.

(** [tree.LeftItem()], lines 186-197, with [tree.Left()] the node
    [tree.left(tree.Root)]; [None] is the nil [Content]. *)
Definition LeftItem : M (option Item) :=
  l <- left [];;
  match l with
  | Some a => node <- getNode a;;
              c <- lift out_of_range (index (Contents node) 0);;
              ret (Some c)
  | None => ret None
  end.

(** [tree.RightItem()], lines 199-209, with [tree.Right()] the node
    [tree.right(tree.Root)]. *)
Definition RightItem : M (option Item) :=
  r <- right [];;
  match r with
  | Some a => node <- getNode a;;
              c <- lift out_of_range (index (Contents node) (len (Contents node) - 1));;
              ret (Some c)
  | None => ret None
  end.

(** ** Level-order rehashing, lines 273-315 *)

(** The number of levels of the deepest branch. *)
Fixpoint depth (n : Node) : nat :=
  match n with
  | mkNode _ _ ks =>
    S ((fix go (ks : list Node) : nat :=
          match ks with [] => O | k :: ks' => Nat.max (depth k) (go ks') end) ks)
  end.

(** [node.Children...] of the node at address [a], with their addresses. *)
Fixpoint enum_kids (a : addr) (i : nat) (ks : list Node) : list (addr * Node) :=
  match ks with
  | [] => []
  | k :: ks' => (i :: a, k) :: enum_kids a (S i) ks'
  end.

(** The [for true] loop of [deepSearch], lines 283-296, from the level
    [startnodes]; the level [k] rounds below the root lies [k] levels down,
    so [depth root] rounds reach the empty level. *)
Fixpoint deep_levels (fuel : nat) (startnodes : list (addr * Node)) : list (list (addr * Node)) :=
  match fuel with
  | O => []
  | S fuel' =>
    let nextnodes := concat (map (fun p => enum_kids (fst p) O (Children (snd p))) startnodes) in
    nextnodes :: match nextnodes with
                 | [] => []
                 | (_, n0) :: _ => if isLeaf n0 then [] else deep_levels fuel' nextnodes
                 end
  end.

(** [tree.deepSearch()], lines 274-299: the nodes level by level. *)
Definition deepSearch (t : Tree) : list (list (addr * Node)) :=
  match Root t with
  | None => []
  | Some r => [([], r)] :: deep_levels (depth r) [([], r)]
  end.

(** The inner loop of [calculateMerkleRoot], lines 307-311, over one level. *)
Fixpoint rehash_level (l : list (addr * Node)) : M unit :=
  match l with
  | [] => ret tt
  | (a, _) :: l' => modifyNode a (with_hash []);; CalculateHash a;; rehash_level l'
  end.

(** The outer loop, lines 306-312: the levels deepest first, the root's level
    ([i = 0]) excluded. *)
Fixpoint rehash_levels (ls : list (list (addr * Node))) : M unit :=
  match ls with
  | [] => ret tt
  | l :: ls' => rehash_level l;; rehash_levels ls'
  end.

(** [tree.calculateMerkleRoot()], lines 302-315; [nodes[0][0]] is [tree.Root]. *)
Definition calculateMerkleRoot : M string :=
  t <- get_tree;;
  match Root t with
  | None => ret EmptyString
  | Some _ =>
    let nodes := deepSearch t in
    rehash_levels (rev (tl nodes));;
    root <- getNode [];;
    ret (EncodeToString (Hash root))
  end.

(** The digest of invariant 5 of the spec, recomputed from scratch in
    post-order: a node hashes its contents' digests followed by its
    children's recomputed digests. *)
Fixpoint recomputed_digest (n : Node) : option bytes :=
  match n with
  | mkNode _ cs kids =>
    let fix all (ks : list Node) : option bytes :=
        match ks with
        | [] => Some []
        | k :: ks' => match recomputed_digest k, all ks' with
                      | Some h, Some hs => Some (h ++ hs)
                      | _, _ => None
                      end
        end in
    match content_bytes cs, all kids with
    | Some bs, Some hs => Some (Sum256 (bs ++ hs))
    | _, _ => None
    end
  end.

(** The root digest a from-scratch recomputation yields. *)
Definition recomputed_root (t : Tree) : string :=
  match Root t with
  | None => EmptyString
  | Some root => match recomputed_digest root with
                 | Some h => EncodeToString h
                 | None => EmptyString
                 end
  end.

(** A sequence of public calls. *)
Inductive Op := OpPut (it : Item) | OpRemove (it : Item).

Definition apply_op (o : Op) : M unit :=
  match o with OpPut it => Put it | OpRemove it => Remove it end.

Fixpoint run (os : list Op) : M unit :=
  match os with [] => ret tt | o :: os' => apply_op o;; run os' end.

End Model.


(** The state a computation leaves, returned or panicked. *)
Definition state_of {A} (r : result A) : Tree := match r with Ok _ t => t | Panic _ t => t end.

(** A client calling [Put]/[Remove] for each operation of [os] in turn; when
    [Put] reports a digest error the client goes on with the tree as the
    call left it. *)
Fixpoint run_through (CH : Item -> option bytes) (Sum : bytes -> bytes) (os : list Op) (t : Tree) : Tree :=
  match os with
  | [] => t
  | o :: os' => run_through CH Sum os' (state_of (apply_op CH Sum o t))
  end.

(** [c] keeps [P] of the state, whether it returns or panics. *)
Definition preserves {A} (P : Tree -> Prop) (c : M A) : Prop :=
  forall t, P t -> P (state_of (c t)).

Definition same_m (m0 : Z) (t : Tree) : Prop := m t = m0.

(** [c] never changes the order of the tree. *)
Definition keeps_m {A} (c : M A) : Prop := forall m0, preserves (same_m m0) c.

(** Induction over the nested [Node] type. *)
Fixpoint Node_ind' (P : Node -> Prop)
  (f : forall h cs ks, Forall P ks -> P (mkNode h cs ks)) (n : Node) : P n :=
  match n with
  | mkNode h cs ks =>
    f h cs ks
      ((fix go (l : list Node) : Forall P l :=
          match l with
          | [] => @Forall_nil _ P
          | k :: l' => @Forall_cons _ P k l' (Node_ind' P f k) (go l')
          end) ks)
  end.

(** Every item stored in the subtree, node contents before the children's. *)
Fixpoint all_items (n : Node) : list Item :=
  match n with
  | mkNode _ cs ks =>
    cs ++ (fix go (l : list Node) : list Item :=
             match l with [] => [] | k :: l' => all_items k ++ go l' end) ks
  end.

(** Each node is a leaf or has one more child than it has items. *)
Fixpoint kids_ok (n : Node) : bool :=
  match n with
  | mkNode _ cs ks =>
    match ks with [] => true | _ => Nat.eqb (length ks) (S (length cs)) end &&
    (fix go (l : list Node) : bool :=
       match l with [] => true | k :: l' => kids_ok k && go l' end) ks
  end.

(** The shape conditions a lookup relies on: an absent root means size 0,
    and child counts fit the contents. *)
Definition search_ok (t : Tree) : bool :=
  match Root t with None => size t =? 0 | Some r => kids_ok r end.

(** Some stored item has the key of [item]. *)
Definition present (t : Tree) (item : Item) : bool :=
  match Root t with
  | None => false
  | Some r => existsb (fun c => Key c =? Key item) (all_items r)
  end.

(** ** The B-tree invariant *)

(** Height along the leftmost path. *)
Fixpoint height (n : Node) : nat :=
  match n with
  | mkNode _ _ [] => O
  | mkNode _ _ (k :: _) => S (height k)
  end.

(** [n] holds between [lo] and [hi] items, has all its leaves [h] levels
    down, and child count [|contents| + 1] (0 for a leaf); below it every
    node holds between [minc] and [maxc] items. *)
Fixpoint wf (minc maxc : Z) (h : nat) (lo hi : Z) (n : Node) : bool :=
  (lo <=? len (Contents n)) && (len (Contents n) <=? hi) &&
  match h with
  | O => match Children n with [] => true | _ => false end
  | S h' => Nat.eqb (length (Children n)) (S (length (Contents n))) &&
            forallb (wf minc maxc h' minc maxc) (Children n)
  end.

(** [c0 :: x0 ++ c1 :: x1 ++ ...]: items interleaved with the key-ordered
    items of the children after the first. *)
Fixpoint weave (xs : list (list Item)) (cs : list Item) : list Item :=
  match xs, cs with
  | x :: xs', c :: cs' => c :: x ++ weave xs' cs'
  | _, _ => []
  end.

(** The items in key order: child 0, item 0, child 1, ..., item k-1, child k. *)
Fixpoint inorder (n : Node) : list Item :=
  match n with
  | mkNode _ cs [] => cs
  | mkNode _ cs (k0 :: ks) => inorder k0 ++ weave (map inorder ks) cs
  end.

Definition ltk (a b : Item) : Prop := Key a < Key b.

Fixpoint sorted_keys (l : list Item) : bool :=
  match l with
  | a :: ((b :: _) as l') => (Key a <? Key b) && sorted_keys l'
  | _ => true
  end.

(** The invariant of a tree of order [m >= 3]: no root exactly when the
    size is 0; otherwise a well-formed root holding 1 to [maxContents]
    items, every other node holding [minContents] to [maxContents], whose
    items are in strictly increasing key order and number [size]. *)
Definition btree_ok (t : Tree) : bool :=
  (3 <=? m t) &&
  match Root t with
  | None => size t =? 0
  | Some r => wf (minContents (m t)) (maxContents (m t)) (height r) 1 (maxContents (m t)) r &&
              sorted_keys (inorder r) && (size t =? len (inorder r))
  end.

(** The stored items in key order. *)
Definition items (t : Tree) : list Item :=
  match Root t with None => [] | Some r => inorder r end.

(** Sorted insertion by key, replacing an item of the same key. *)
Fixpoint ins (x : Item) (l : list Item) : list Item :=
  match l with
  | [] => [x]
  | y :: l' => if Key x <? Key y then x :: l
               else if Key x =? Key y then x :: l'
               else y :: ins x l'
  end.

(** Removal of the items of key [k]. *)
Definition del (k : Z) (l : list Item) : list Item := filter (fun y => negb (Key y =? k)) l.

(** Lookup by key in an item list: the item of key [Key y] found first,
    or [(y, false)]. *)
Definition find_key (y : Item) (l : list Item) : Item * bool :=
  match find (fun c => Key c =? Key y) l with
  | Some c => (c, true)
  | None => (y, false)
  end.

(** The item list after each operation, as an ordered map keyed by [Key]. *)
Fixpoint map_model (os : list Op) (l : list Item) : list Item :=
  match os with
  | [] => l
  | OpPut x :: os' => map_model os' (ins x l)
  | OpRemove x :: os' => map_model os' (del (Key x) l)
  end.

(** ** Hash erasure and contexts *)

(** The node with every cached digest replaced by the empty one. *)
Fixpoint erase (n : Node) : Node :=
  match n with mkNode _ cs ks => mkNode [] cs (map erase ks) end.

Definition eroot (t : Tree) : option Node := option_map erase (Root t).

(** What the structural reasoning sees of a tree. *)
Definition view (t : Tree) : option Node * Z * Z := (eroot t, size t, m t).

(** A node with a hole among its children: the children left of the hole,
    each with the item after it, and the children right of it, each with
    the item before it. *)
Record Frame := mkFrame { fl : list (Node * Item); fr : list (Item * Node) }.

Definition fill (f : Frame) (n : Node) : Node :=
  mkNode [] (map snd (fl f) ++ map fst (fr f)) (map fst (fl f) ++ n :: map snd (fr f)).

(** Frames from the hole outwards. *)
Fixpoint plug (ctx : list Frame) (n : Node) : Node :=
  match ctx with [] => n | f :: c => plug c (fill f n) end.

Definition ctx_addr (ctx : list Frame) : addr := map (fun f => length (fl f)) ctx.

Definition left_items (f : Frame) : list Item :=
  concat (map (fun p => inorder (fst p) ++ [snd p]) (fl f)).
Definition right_items (f : Frame) : list Item :=
  concat (map (fun p => fst p :: inorder (snd p)) (fr f)).

Fixpoint ctx_left (ctx : list Frame) : list Item :=
  match ctx with [] => [] | f :: c => ctx_left c ++ left_items f end.
Fixpoint ctx_right (ctx : list Frame) : list Item :=
  match ctx with [] => [] | f :: c => right_items f ++ ctx_right c end.

Definition fcontents (f : Frame) : list Item := map snd (fl f) ++ map fst (fr f).
Definition fsiblings (f : Frame) : list Node := map fst (fl f) ++ map snd (fr f).

(** Every frame, filled with a subtree of the height its hole expects,
    is a well-formed node; the outermost one is the root. *)
Fixpoint ctx_ok (minc maxc : Z) (h : nat) (ctx : list Frame) : bool :=
  match ctx with
  | [] => true
  | f :: c =>
    ((match c with [] => 1 | _ => minc end) <=? len (fcontents f)) &&
    (len (fcontents f) <=? maxc) &&
    forallb (wf minc maxc h minc maxc) (fsiblings f) &&
    ctx_ok minc maxc (S h) c
  end.

(** The frame around child [j] of a node with items [cs] and children [ks]. *)
Definition frame_at (cs : list Item) (ks : list Node) (j : nat) : Frame :=
  mkFrame (combine (firstn j ks) (firstn j cs)) (combine (skipn j cs) (skipn (S j) ks)).

(** [c] runs from [t] without panicking, to a value and state satisfying [Q]. *)
Definition Runs {A} (c : M A) (t : Tree) (Q : A -> Tree -> Prop) : Prop :=
  exists v t', c t = Ok v t' /\ Q v t'.

(** ** A concrete instance for evaluation: an item's digest is its two
    fields, and the combining hash is the identity (an injective stand-in
    for SHA-256). *)
Definition item_hash (it : Item) : option bytes := Some [Key it; Value it].
Definition id_sum (bs : bytes) : bytes := bs.

Definition it (k : Z) : Item := mkItem k k.

(** The shape of a node: its keys and its children's shapes. *)
Inductive Shape := SNode (keys : list Z) (kids : list Shape).

Fixpoint shape (n : Node) : Shape :=
  SNode (map Key (Contents n)) (map shape (Children n)).

Definition tree_shape (t : Tree) : option Shape := option_map shape (Root t).

(** The lower bound on the item count of the node in the hole of [ctx]. *)
Definition lo_of (minc : Z) (ctx : list Frame) : Z := match ctx with [] => 1 | _ => minc end.

(** The item [d] lies between the separators of frame [f]: a search for
    it in the frame's node lands on the hole. *)
Definition loc (d : Item) (f : Frame) : Prop :=
  Forall (fun a => Key a < Key d) (map snd (fl f)) /\ Forall (fun a => Key d <= Key a) (map fst (fr f)).

(** What one step of the rebalancing of a node in the hole of [f :: c],
    with [P] the node of [f] before it, leaves: [None] with a finished
    tree, or [Some d'] with the new node [P'] of [f] in the hole of [c],
    possibly one item short, [d'] being the separator it lost. *)
Definition rb_post (minc maxc s mm : Z) (h : nat) (c : list Frame) (P : Node)
  (o : option Item) (t' : Tree) : Prop :=
  match o with
  | None => exists R', view t' = (Some R', s, mm) /\
            wf minc maxc (height R') 1 maxc R' = true /\ inorder R' = inorder (plug c P)
  | Some d' => exists P', view t' = (Some (plug c P'), s, mm) /\
            wf minc maxc (S h) (lo_of minc c - 1) maxc P' = true /\
            (c = [] -> 1 <= len (Contents P')) /\
            inorder (plug c P') = inorder (plug c P) /\
            match c with [] => True | g :: _ => loc d' g end
  end.

(** The digests of [t'] are those of [t] at every node other than the node
    at address [a] and its ancestors. *)
Definition hframe (a : addr) (t t' : Tree) : Prop :=
  exists r r', Root t = Some r /\ Root t' = Some r' /\
  forall c, (forall q, a <> q ++ c) -> option_map Hash (node_at r' c) = option_map Hash (node_at r c).

(** [t'] is [t] with [item] stored in place in some node at [a]: same shape,
    and the digests differ at most at [a] and its ancestors. *)
Definition overwrote (item : Item) (t t' : Tree) : Prop :=
  exists a r r' n', Root t = Some r /\ Root t' = Some r' /\ shape r' = shape r /\
  node_at r' a = Some n' /\ In item (Contents n') /\
  forall c, (forall q, a <> q ++ c) -> option_map Hash (node_at r' c) = option_map Hash (node_at r c).

Definition keys (ks : list Z) : list Op := map (fun k => OpPut (it k)) ks.

(** Scenario A of the spec: keys 1..7 in ascending order into an order-3 tree. *)
Definition scenarioA : list Op := keys [1; 2; 3; 4; 5; 6; 7].

(** The tree of scenario A, built from [NewWith 3]. *)
Definition treeA : Tree := state_of (run item_hash id_sum scenarioA (mkTree None 0 3)).


(** * Theorems *)

(** ** Claim C3: scenarios A and B *)

(** C3: with order 3, inserting 1..7 in ascending order gives the root {4}
    with children {2} (leaves {1}, {3}) and {6} (leaves {5}, {7}); removing 7
    then gives the two-level tree with root {2,4} and leaves {1}, {3}, {5,6}. *)
Lemma C3_scenarios_A_B :
  exists t t',
    NewWith 3 = Some t /\
    run item_hash id_sum scenarioA t = Ok tt t' /\
    tree_shape t' = Some (SNode [4] [SNode [2] [SNode [1] []; SNode [3] []];
                                     SNode [6] [SNode [5] []; SNode [7] []]]) /\
    exists t'', run item_hash id_sum [OpRemove (it 7)] t' = Ok tt t'' /\
      tree_shape t'' = Some (SNode [2; 4] [SNode [1] []; SNode [3] []; SNode [5; 6] []]).
Proof.
  do 2 eexists. split; [reflexivity |]. split; [vm_compute; reflexivity |].
  split; [vm_compute; reflexivity |].
  eexists. split; vm_compute; reflexivity.
Qed.


(** ** Claim C1: the cached root digest after a borrow *)

(** Order 3, keys 1..4, then remove 1: the emptied leaf borrows from its
    right sibling (rotate left, lines 559-573), which rewrites the root's
    separator; only the leaf and the sibling are rehashed.  For every
    injective combining hash the root's cached digest is then not the
    from-scratch digest. *)
Lemma borrow_stale_for_injective_hash (Sum256 : bytes -> bytes)
  (Hinj : forall x y, Sum256 x = Sum256 y -> x = y) :
  exists t' r,
    run item_hash Sum256 (keys [1; 2; 3; 4] ++ [OpRemove (it 1)]) (mkTree None 0 3) = Ok tt t' /\
    Root t' = Some r /\
    tree_shape t' = Some (SNode [3] [SNode [2] []; SNode [4] []]) /\
    recomputed_digest item_hash Sum256 r <> Some (Hash r).
Proof.
  do 2 eexists. split; [vm_compute; reflexivity |].
  split; [reflexivity |]. split; [reflexivity |].
  vm_compute. intros E. injection E as E. apply Hinj in E. discriminate E.
Qed.

(** C1 (the code breaks it): after the borrow of [borrow_stale_for_injective_hash]
    the root digest [MerkleBTreeRoot] reports differs from the one a
    from-scratch post-order recomputation gives. *)
Lemma C1_root_digest_stale_after_borrow :
  exists t',
    run item_hash id_sum (keys [1; 2; 3; 4] ++ [OpRemove (it 1)]) (mkTree None 0 3) = Ok tt t' /\
    MerkleBTreeRoot t' = "0202010103030404"%string /\
    recomputed_root item_hash id_sum t' = "030302020404"%string /\
    MerkleBTreeRoot t' <> recomputed_root item_hash id_sum t'.
Proof.
  eexists. split; [vm_compute; reflexivity |].
  split; [vm_compute; reflexivity |]. split; [vm_compute; reflexivity |].
  vm_compute. discriminate.
Qed.

(** The same with order 5 and no borrow: putting 1 and 2 and removing 1
    leaves a root leaf below [minContents]; [rebalance] finds no sibling and
    returns without rehashing it (lines 576-607). *)
Lemma root_underflow_leaves_stale_root_digest :
  exists t',
    run item_hash id_sum (keys [1; 2] ++ [OpRemove (it 1)]) (mkTree None 0 5) = Ok tt t' /\
    tree_shape t' = Some (SNode [2] []) /\
    MerkleBTreeRoot t' = "01010202"%string /\
    recomputed_root item_hash id_sum t' = "0202"%string.
Proof.
  eexists. split; [vm_compute; reflexivity |].
  split; [reflexivity |]. split; vm_compute; reflexivity.
Qed.

(** ** Claim C5: a failing digest on the first [Put] *)

(** C5 (as amended): [Put] on an empty tree with an item whose digest
    computation fails panics with the error, but only after it has installed
    the one-item root leaf (whose cached digest stays empty) and counted it:
    the tree is mutated. *)
Lemma C5_put_empty_digest_error_panics_after_mutation
  (ContentHash : Item -> option bytes) (Sum256 : bytes -> bytes)
  (order : Z) (item : Item) (Hfail : ContentHash item = None) :
  Put ContentHash Sum256 item (mkTree None 0 order) =
  Panic "digest error"%string (mkTree (Some (mkNode [] [item] [])) 1 order).
Proof.
  unfold Put, ReCalculateMerkleRoot, CalculateHash, node_hash, bind, get_tree, put_tree,
    getNode, ret, panic; cbn. rewrite Hfail. reflexivity.
Qed.

Lemma C5_witness :
  (fun _ : Item => @None bytes) (it 1) = None /\
  Put (fun _ => None) id_sum (it 1) (mkTree None 0 3) =
  Panic "digest error"%string (mkTree (Some (mkNode [] [it 1] [])) 1 3).
Proof.
  split; [reflexivity |].
  apply (C5_put_empty_digest_error_panics_after_mutation (fun _ => None) id_sum 3 (it 1)).
  reflexivity.
Defined.

(** The claim as stated fails: the failing [Put] leaves a root and size 1. *)
Lemma C5_counterexample :
  exists e t',
    Put (fun _ => None) id_sum (it 1) (mkTree None 0 3) = Panic e t' /\
    Root t' <> None /\ size t' = 1.
Proof.
  do 2 eexists. split; [vm_compute; reflexivity |]. split; [discriminate | reflexivity].
Qed.

(** ** Claim C9: capacities and the split point *)

Lemma len_firstn {A} (l : list A) (n : nat) : len (firstn n l) = Z.min (Z.of_nat n) (len l).
Proof. unfold len. rewrite length_firstn. lia. Qed.

Lemma len_skipn {A} (l : list A) (n : nat) : len (skipn n l) = len l - Z.min (Z.of_nat n) (len l).
Proof. unfold len. rewrite length_skipn. lia. Qed.

(** C9: for every order [m >= 3]: [maxChildren = m], [minChildren] is
    [ceil(m/2)], [maxContents = m - 1], [minContents = minChildren - 1] and
    the pivot is [floor((m-1)/2)]; splitting a node of [m] items (here the
    root, [splitRoot]; [splitNonRoot] slices the same way) gives the left
    node [floor((m-1)/2)] items and the right node the other
    [m - 1 - floor((m-1)/2)], one more than the left one when [m] is even. *)
Lemma C9_capacities_and_split (ContentHash : Item -> option bytes) (Sum256 : bytes -> bytes)
  (order : Z) (Hm : 3 <= order) (h : bytes) (cs : list Item) (s0 : Z)
  (Hlen : len cs = order) :
  maxChildren order = order /\
  order <= 2 * minChildren order < order + 2 /\
  maxContents order = order - 1 /\
  minContents order = minChildren order - 1 /\
  middle order = (order - 1) / 2 /\
  (exists lc rc,
    slice_to cs (middle order) = Some lc /\ slice_from cs (middle order + 1) = Some rc /\
    len lc = (order - 1) / 2 /\ len rc = order - 1 - (order - 1) / 2) /\
  exists t' r L R,
    splitRoot ContentHash Sum256 (mkTree (Some (mkNode h cs [])) s0 order) = Ok tt t' /\
    Root t' = Some r /\ Children r = [L; R] /\
    len (Contents L) = (order - 1) / 2 /\
    len (Contents R) = order - 1 - (order - 1) / 2 /\
    (Z.even order = true -> len (Contents R) = len (Contents L) + 1) /\
    (Z.odd order = true -> len (Contents R) = len (Contents L)).
Proof.
  unfold maxChildren, minChildren, maxContents, minContents, middle.
  split; [reflexivity |]. split; [split; [|]; Z.to_euclidean_division_equations; lia |].
  split; [reflexivity |]. split; [reflexivity |]. split; [reflexivity |].
  assert (Hm1 : 1 <= (order - 1) / 2) by (Z.to_euclidean_division_equations; lia).
  assert (Hm2 : (order - 1) / 2 + 1 <= order) by (Z.to_euclidean_division_equations; lia).
  split.
  { unfold slice_to, slice_from, middle.
    replace (((order - 1) / 2 <? 0) || (len cs <? (order - 1) / 2)) with false
      by (symmetry; apply orb_false_iff; split; apply Z.ltb_ge; lia).
    replace (((order - 1) / 2 + 1 <? 0) || (len cs <? (order - 1) / 2 + 1)) with false
      by (symmetry; apply orb_false_iff; split; apply Z.ltb_ge; lia).
    do 2 eexists; split; [reflexivity |]; split; [reflexivity |].
    rewrite len_firstn, len_skipn, !Z2Nat.id by lia. lia. }
  unfold splitRoot, bind, get_tree, getNode, lift, ret, put_tree, slice_to, slice_from, index; cbn.
  unfold middle.
  replace (((order - 1) / 2 <? 0) || (len cs <? (order - 1) / 2)) with false
    by (symmetry; apply orb_false_iff; split; apply Z.ltb_ge; lia).
  replace (((order - 1) / 2 + 1 <? 0) || (len cs <? (order - 1) / 2 + 1)) with false
    by (symmetry; apply orb_false_iff; split; apply Z.ltb_ge; lia).
  replace ((order - 1) / 2 <? 0) with false by (symmetry; apply Z.ltb_ge; lia).
  destruct (nth_error cs (Z.to_nat ((order - 1) / 2))) as [sep |] eqn:Hsep.
  2:{ apply nth_error_None in Hsep. unfold len in Hlen. lia. }
  unfold CalculateHash, bind, getNode, ret, modifyNode; cbn.
  destruct (node_hash ContentHash Sum256 _) as [hr |]; cbn.
  all: do 4 eexists; split; [reflexivity |]; split; [reflexivity |]; split; [reflexivity |].
  all: unfold calc_local; destruct (node_hash ContentHash Sum256 _);
       destruct (node_hash ContentHash Sum256 _); cbn;
       rewrite ?len_firstn, ?len_skipn; rewrite !Z2Nat.id by lia.
  all: rewrite Hlen; repeat split; [lia | lia | |].
  all: intros Hp; first [apply Z.even_spec in Hp | apply Z.odd_spec in Hp];
       destruct Hp as [k ->]; Z.to_euclidean_division_equations; lia.
Qed.


Lemma C9_witness :
  3 <= 4 /\ len [it 1; it 2; it 3; it 4] = 4 /\
  maxChildren 4 = 4 /\ minChildren 4 = 2 /\ middle 4 = 1.
Proof.
  destruct (C9_capacities_and_split item_hash id_sum 4 ltac:(lia) [] [it 1; it 2; it 3; it 4] 0
              ltac:(reflexivity)) as [H1 [H2 [H3 [H4 [H5 _]]]]].
  split; [lia |]. split; [reflexivity |]. split; [exact H1 |].
  split; [reflexivity | exact H5].
Defined.

(** ** Claim C7: construction and the fixed order *)

Section Preserve.
Variable P : Tree -> Prop.

Lemma pres_ret {A} (a : A) : preserves P (ret a).
Proof. intros t Ht. exact Ht. Qed.

Lemma pres_panic {A} msg : preserves P (@panic A msg).
Proof. intros t Ht. exact Ht. Qed.

Lemma pres_lift {A} msg (o : option A) : preserves P (lift msg o).
Proof. destruct o; [apply pres_ret | apply pres_panic]. Qed.

Lemma pres_getNode a : preserves P (getNode a).
Proof.
  intros t Ht. unfold getNode. destruct (Root t) as [r |]; [destruct (node_at r a) |]; exact Ht.
Qed.

Lemma pres_bind {A B} (c : M A) (k : A -> M B) :
  preserves P c -> (forall a, preserves P (k a)) -> preserves P (bind c k).
Proof.
  intros Hc Hk t Ht. unfold bind. specialize (Hc t Ht).
  destruct (c t) as [a t' | e t']; [apply Hk |]; exact Hc.
Qed.

Lemma pres_get {A} (k : Tree -> M A) :
  (forall t0, P t0 -> preserves P (k t0)) -> preserves P (bind get_tree k).
Proof. intros Hk t Ht. apply (Hk t Ht t Ht). Qed.

Lemma pres_put t' : P t' -> preserves P (put_tree t').
Proof. intros Ht' t _. exact Ht'. Qed.

End Preserve.

Lemma pres_modifyNode m0 a f : preserves (same_m m0) (modifyNode a f).
Proof.
  intros t Ht. unfold modifyNode. destruct (Root t) as [r |]; [destruct (node_at r a) |]; exact Ht.
Qed.

Ltac pres :=
  repeat (cbv zeta; match goal with
  | |- preserves _ (bind get_tree _) => apply pres_get; intros ?t0 ?Ht0
  | |- preserves _ (bind _ _) => apply pres_bind; [| intros ?]
  | |- preserves _ (ret _) => apply pres_ret
  | |- preserves _ (panic _) => apply pres_panic
  | |- preserves _ (lift _ _) => apply pres_lift
  | |- preserves _ (getNode _) => apply pres_getNode
  | |- preserves _ (modifyNode _ _) => apply pres_modifyNode
  | |- preserves _ (setContents _ _) => unfold setContents
  | |- preserves _ (setChildren _ _) => unfold setChildren
  | |- preserves (same_m _) (put_tree _) => apply pres_put; unfold same_m in *; cbn; assumption
  | |- preserves _ (match ?x with _ => _ end) => destruct x
  | |- preserves _ (if ?b then _ else _) => destruct b
  end).

Lemma km_CalculateHash CH S a : keeps_m (CalculateHash CH S a).
Proof. intros m0. unfold CalculateHash. pres. Qed.

Lemma km_ReCalculateMerkleRoot CH S a : keeps_m (ReCalculateMerkleRoot CH S a).
Proof.
  intros m0. induction a as [| i p IH]; cbn [ReCalculateMerkleRoot];
    [apply km_CalculateHash |].
  pres; [apply km_CalculateHash | exact IH].
Qed.

Lemma km_setContentAt a i x : keeps_m (setContentAt a i x).
Proof. intros m0. unfold setContentAt. pres. Qed.

Lemma km_split CH S a : keeps_m (split CH S a).
Proof.
  intros m0. induction a as [| i p IH]; cbn [split]; pres;
    try apply km_ReCalculateMerkleRoot; try apply km_CalculateHash; try exact IH.
  - unfold splitRoot. pres; apply km_CalculateHash.
  - unfold splitNonRoot. pres; apply km_CalculateHash.
Qed.

Lemma pres_child {A} P (g : Node -> M A) (ks : list Node) (j : nat) :
  Forall (fun k => preserves P (g k)) ks ->
  preserves P ((fix child (ks : list Node) (j : nat) : M A :=
     match ks, j with
     | [], _ => panic out_of_range
     | k :: _, O => g k
     | _ :: ks', S j' => child ks' j'
     end) ks j).
Proof.
  intros H. revert j. induction H as [| k l Hk Hl IHl]; intros [| j];
    [apply pres_panic | apply pres_panic | exact Hk | apply IHl].
Qed.

Lemma pres_last P (g : nat -> Node -> M addr) (ks : list Node) (i : nat) :
  Forall (fun k => forall i, preserves P (g i k)) ks ->
  preserves P ((fix last (ks : list Node) (i : nat) : M addr :=
     match ks with
     | [] => panic out_of_range
     | [k] => g i k
     | _ :: ks' => last ks' (S i)
     end) ks i).
Proof.
  intros H. revert i. induction H as [| k l Hk Hl IHl]; intros i; [apply pres_panic |].
  destruct l; [apply Hk | apply IHl].
Qed.

Lemma km_insert CH S content (n : Node) : forall a, keeps_m (insert CH S n a content).
Proof.
  induction n as [h cs ks IH] using Node_ind'. intros a m0.
  destruct ks as [| k ks'].
  - cbn [insert]. unfold insertIntoLeaf. pres;
      try apply km_setContentAt; try apply km_ReCalculateMerkleRoot; apply km_split.
  - cbn [insert]. destruct (search _ content) as [pos found].
    destruct found; [pres; try apply km_setContentAt; apply km_ReCalculateMerkleRoot |].
    refine (pres_child _ (fun k => insert CH S k (Z.to_nat pos :: a) content)
              (k :: ks') (Z.to_nat pos) _).
    eapply Forall_impl; [| exact IH]. intros x Hx. apply Hx.
Qed.

Lemma km_Put CH S item : keeps_m (Put CH S item).
Proof.
  intros m0. unfold Put. pres; first [apply km_ReCalculateMerkleRoot | apply km_insert].
Qed.

Lemma km_searchFrom item (n : Node) : forall a, keeps_m (searchFrom n a item).
Proof.
  induction n as [h cs ks IH] using Node_ind'. intros a m0. cbn [searchFrom].
  destruct (search _ item) as [pos found]. destruct found; [apply pres_ret |].
  destruct ks as [| k ks']; [apply pres_ret |].
  refine (pres_child _ (fun k => searchFrom k (Z.to_nat pos :: a) item)
            (k :: ks') (Z.to_nat pos) _).
  eapply Forall_impl; [| exact IH]. intros x Hx. apply Hx.
Qed.

Lemma km_rightFrom (n : Node) : forall a, keeps_m (rightFrom n a).
Proof.
  induction n as [h cs ks IH] using Node_ind'. intros a m0.
  destruct ks as [| k ks']; [apply pres_ret |]. cbn [rightFrom].
  refine (pres_last _ (fun i k => rightFrom k (i :: a)) (k :: ks') O _).
  eapply Forall_impl; [| exact IH]. intros x Hx i. apply Hx.
Qed.

Lemma km_rebalance CH S a item : keeps_m (rebalance CH S a item).
Proof.
  intros m0. revert item. induction a as [| i p IH]; intros item; cbn [rebalance];
    pres; try apply km_ReCalculateMerkleRoot; try apply IH.
  unfold rebalanceNode. pres; try apply km_CalculateHash.
  - unfold rotateRight, deleteContent, deleteChild, setContentAt. pres; apply km_CalculateHash.
  - unfold rotateLeft, deleteContent, deleteChild, setContentAt. pres; apply km_CalculateHash.
  - unfold mergeRight, deleteContent, deleteChild. pres; apply km_CalculateHash.
  - unfold mergeLeft, deleteContent, deleteChild. pres; apply km_CalculateHash.
Qed.

Lemma km_Remove CH S item : keeps_m (Remove CH S item).
Proof.
  intros m0. unfold Remove, searchRecursively. pres; try apply km_searchFrom.
  unfold delete, deleteContent, right, setContentAt. pres;
    try apply km_rebalance; apply km_rightFrom.
Qed.

Lemma km_run CH S os : keeps_m (run CH S os).
Proof.
  intros m0. induction os as [| o os IH]; cbn [run]; pres; [| exact IH].
  destruct o; [apply km_Put | apply km_Remove].
Qed.

(** C7: [NewWith order] produces no tree when [order < 3]; for [order >= 3]
    it produces the empty tree of order [order], and no sequence of
    [Put]/[Remove] calls (whether it returns or panics) changes the order,
    so the capacity thresholds derived from it stay fixed. *)
Theorem C7_order_fixed (CH : Item -> option bytes) (S : bytes -> bytes)
  (order : Z) (os : list Op) :
  match NewWith order with
  | None => order < 3
  | Some t =>
    3 <= order /\ Root t = None /\ size t = 0 /\ m t = order /\
    m (state_of (run CH S os t)) = order /\
    maxContents (m (state_of (run CH S os t))) = maxContents order /\
    minContents (m (state_of (run CH S os t))) = minContents order
  end.
Proof.
  unfold NewWith. destruct (order <? 3) eqn:E; [apply Z.ltb_lt in E; exact E |].
  apply Z.ltb_ge in E.
  assert (Hm : m (state_of (run CH S os (mkTree None 0 order))) = order)
    by (apply (km_run CH S os order); reflexivity).
  rewrite Hm. repeat split; assumption.
Qed.

(** ** Claim C8: lookups and removals of absent keys *)

Lemma Comparator_zero a b : Comparator a b = 0 -> Key b = Key a.
Proof.
  unfold Comparator. destruct (Key b <? Key a) eqn:E1; [discriminate |].
  destruct (Key a <? Key b) eqn:E2; [discriminate |].
  apply Z.ltb_ge in E1, E2. lia.
Qed.

Lemma search_loop_spec cs item fuel : forall low high,
  0 <= low -> low <= high + 1 -> high + 1 <= len cs ->
  0 <= fst (search_loop fuel cs item low high) <= len cs /\
  (snd (search_loop fuel cs item low high) = true ->
   fst (search_loop fuel cs item low high) < len cs /\
   Comparator item (nth (Z.to_nat (fst (search_loop fuel cs item low high))) cs item) = 0).
Proof.
  induction fuel as [| fuel IH]; intros low high H0 H1 H2; cbn [search_loop].
  - cbn. split; [lia | discriminate].
  - destruct (low <=? high) eqn:Elh; [apply Z.leb_le in Elh | cbn; split; [lia | discriminate]].
    assert (Hmid : low <= (high + low) / 2 <= high) by (Z.to_euclidean_division_equations; lia).
    destruct (0 <? _) eqn:Ec1; [apply IH; lia |].
    destruct (_ <? 0) eqn:Ec2; [apply IH; lia |].
    cbn. split; [lia |]. intros _. split; [lia |].
    apply Z.ltb_ge in Ec1, Ec2. lia.
Qed.

Lemma search_not_found (n : Node) item :
  existsb (fun c => Key c =? Key item) (Contents n) = false ->
  snd (search n item) = false /\ 0 <= fst (search n item) <= len (Contents n).
Proof.
  intros Habs. unfold search.
  destruct (search_loop_spec (Contents n) item (S (length (Contents n))) 0
              (len (Contents n) - 1)) as [Hb Hf]; try lia.
  { unfold len. lia. }
  split; [| exact Hb].
  destruct (search_loop _ _ _ _ _) as [p f]. cbn in Hb, Hf |- *.
  destruct f; [| reflexivity].
  destruct (Hf eq_refl) as [Hlt Hc]. apply Comparator_zero in Hc.
  assert (Hin : In (nth (Z.to_nat p) (Contents n) item) (Contents n))
    by (apply nth_In; unfold len in Hlt, Hb; lia).
  assert (Hex : existsb (fun c => Key c =? Key item) (Contents n) = true)
    by (apply existsb_exists; eexists; split; [exact Hin | apply Z.eqb_eq; exact Hc]).
  congruence.
Qed.

Lemma child_fix_nth {A} (g : Node -> M A) (ks : list Node) (j : nat) :
  (j < length ks)%nat ->
  (fix child (ks : list Node) (j : nat) : M A :=
     match ks, j with
     | [], _ => panic out_of_range
     | k :: _, O => g k
     | _ :: ks', S j' => child ks' j'
     end) ks j = g (nth j ks (mkNode [] [] [])).
Proof.
  revert j. induction ks as [| k ks IH]; intros [| j] Hj; cbn in *; try lia; try reflexivity.
  apply IH. lia.
Qed.

Lemma all_items_eq n :
  all_items n = Contents n ++ concat (map all_items (Children n)).
Proof.
  destruct n as [h cs ks]. cbn [all_items Contents Children]. f_equal.
  induction ks as [| k ks IH]; cbn; [reflexivity | rewrite IH; reflexivity].
Qed.

Lemma kids_ok_eq n :
  kids_ok n =
  match Children n with [] => true | ks => Nat.eqb (length ks) (S (length (Contents n))) end &&
  forallb kids_ok (Children n).
Proof.
  destruct n as [h cs ks]. cbn [kids_ok Contents Children].
  assert (E : forall l, (fix go (l : list Node) : bool :=
       match l with [] => true | k :: l' => kids_ok k && go l' end) l = forallb kids_ok l)
    by (induction l as [| k l IH]; cbn; [reflexivity | rewrite IH; reflexivity]).
  rewrite E. destruct ks; reflexivity.
Qed.

Lemma searchFrom_absent item (n : Node) : forall a t,
  kids_ok n = true -> existsb (fun c => Key c =? Key item) (all_items n) = false ->
  searchFrom n a item t = Ok None t.
Proof.
  induction n as [h cs ks IH] using Node_ind'. intros a t Hok Habs.
  rewrite all_items_eq in Habs. rewrite existsb_app in Habs. apply orb_false_iff in Habs.
  destruct Habs as [Hcs Hks].
  destruct (search_not_found (mkNode h cs ks) item Hcs) as [Hf Hb].
  rewrite kids_ok_eq in Hok. apply andb_true_iff in Hok. destruct Hok as [Hlen Hkids].
  cbn [Contents Children] in *.
  cbn [searchFrom]. destruct (search _ item) as [pos found]. cbn in Hf, Hb. subst found.
  destruct ks as [| k ks']; [reflexivity |].
  apply Nat.eqb_eq in Hlen. unfold len in Hb.
  assert (Hj : (Z.to_nat pos < length (k :: ks'))%nat) by lia.
  rewrite (child_fix_nth (fun k => searchFrom k (Z.to_nat pos :: a) item) _ _ Hj).
  set (ks := k :: ks') in *. clearbody ks.
  assert (Hin : In (nth (Z.to_nat pos) ks (mkNode [] [] [])) ks) by (apply nth_In; exact Hj).
  rewrite Forall_forall in IH. apply IH; [exact Hin | |].
  - rewrite forallb_forall in Hkids. apply Hkids, Hin.
  - destruct (existsb _ (all_items _)) eqn:E; [exfalso | reflexivity].
    apply existsb_exists in E. destruct E as [c [Hc Hp]].
    assert (Hc' : existsb (fun c => Key c =? Key item) (concat (map all_items ks)) = true).
    { apply existsb_exists. exists c. split; [| exact Hp].
      apply in_concat. eexists. split; [apply in_map; exact Hin | exact Hc]. }
    congruence.
Qed.

(** C8: in a tree whose shape a lookup can rely on (no root only at size 0,
    one more child than items in every internal node), for an item whose key
    is stored nowhere, [Get] returns the queried item with [found = false]
    and [Remove] returns normally leaving the tree (size, structure and every
    digest) exactly as it was; neither panics. *)
Theorem C8_absent_get_remove (CH : Item -> option bytes) (S : bytes -> bytes)
  (t : Tree) (item : Item) (Hok : search_ok t = true) (Habs : present t item = false) :
  Get item t = Ok (item, false) t /\ Remove CH S item t = Ok tt t.
Proof.
  assert (Hs : searchRecursively item t = Ok None t).
  { unfold searchRecursively, bind, get_tree. unfold search_ok, present in *.
    destruct (size t =? 0) eqn:E; [reflexivity |].
    destruct (Root t) as [r |]; [apply searchFrom_absent; assumption | congruence]. }
  split; [unfold Get | unfold Remove]; unfold bind; rewrite Hs; reflexivity.
Qed.

Lemma C8_witness :
  search_ok treeA = true /\ present treeA (it 8) = false /\
  Get (it 8) treeA = Ok (it 8, false) treeA /\
  Remove item_hash id_sum (it 8) treeA = Ok tt treeA.
Proof.
  assert (H1 : search_ok treeA = true) by (vm_compute; reflexivity).
  assert (H2 : present treeA (it 8) = false) by (vm_compute; reflexivity).
  split; [exact H1 |]. split; [exact H2 |].
  exact (C8_absent_get_remove item_hash id_sum treeA (it 8) H1 H2).
Defined.

(** * The B-tree development: erasure, addresses, contexts *)

Lemma erase_Contents n : Contents (erase n) = Contents n.
Proof. destruct n; reflexivity. Qed.

Lemma erase_Children n : Children (erase n) = map erase (Children n).
Proof. destruct n; reflexivity. Qed.

Lemma erase_Hash n : Hash (erase n) = [].
Proof. destruct n; reflexivity. Qed.

Lemma erase_idem n : erase (erase n) = erase n.
Proof.
  induction n as [h cs ks IH] using Node_ind'. cbn. f_equal. rewrite map_map.
  induction IH as [| k l Hk Hl IHl]; cbn; [reflexivity | rewrite Hk, IHl; reflexivity].
Qed.

Lemma node_at_erase r a : node_at (erase r) a = option_map erase (node_at r a).
Proof.
  induction a as [| i p IH]; cbn; [reflexivity |]. rewrite IH.
  destruct (node_at r p) as [n |]; cbn; [| reflexivity].
  rewrite erase_Children, nth_error_map. reflexivity.
Qed.

Lemma update_nth_ext {A} (f g : A -> A) l i :
  (forall x, f x = g x) -> update_nth l i f = update_nth l i g.
Proof.
  intros H. revert i. induction l as [| x l IH]; intros [| i]; cbn; try reflexivity.
  - rewrite H. reflexivity.
  - rewrite IH. reflexivity.
Qed.

Lemma update_nth_map {A B} (h : A -> B) (f : A -> A) (g : B -> B) l i :
  (forall x, h (f x) = g (h x)) -> map h (update_nth l i f) = update_nth (map h l) i g.
Proof.
  intros H. revert i. induction l as [| x l IH]; intros [| i]; cbn; try reflexivity.
  - rewrite H. reflexivity.
  - rewrite IH. reflexivity.
Qed.

Lemma update_nth_id {A} (l : list A) i : update_nth l i (fun x => x) = l.
Proof. revert i. induction l as [| x l IH]; intros [| i]; cbn; try rewrite IH; reflexivity. Qed.

Lemma update_nth_app {A} (l1 l2 : list A) x f :
  update_nth (l1 ++ x :: l2) (length l1) f = l1 ++ f x :: l2.
Proof. induction l1 as [| y l1 IH]; cbn; [reflexivity | rewrite IH; reflexivity]. Qed.

Lemma update_at_ext r a f g : (forall x, f x = g x) -> update_at r a f = update_at r a g.
Proof.
  revert f g. induction a as [| i p IH]; intros f g H; cbn; [apply H |].
  apply IH. intros x. rewrite (update_nth_ext f g _ _ H). reflexivity.
Qed.

Lemma update_at_id r a : update_at r a (fun x => x) = r.
Proof.
  revert r. induction a as [| i p IH]; intros r; cbn; [reflexivity |].
  rewrite (update_at_ext r p _ (fun x => x)); [apply IH |].
  intros [h cs ks]. cbn. rewrite update_nth_id. reflexivity.
Qed.

Lemma erase_update_at r a f g :
  (forall x, erase (f x) = g (erase x)) -> erase (update_at r a f) = update_at (erase r) a g.
Proof.
  revert f g. induction a as [| i p IH]; intros f g H; cbn; [apply H |].
  apply IH. intros [h cs ks]. cbn. unfold with_children. cbn. f_equal.
  apply update_nth_map. exact H.
Qed.

Lemma node_at_app r b p :
  node_at r (b ++ p) = match node_at r p with Some x => node_at x b | None => None end.
Proof.
  induction b as [| i b IH]; cbn.
  - destruct (node_at r p); reflexivity.
  - rewrite IH. destruct (node_at r p); [| reflexivity]. reflexivity.
Qed.

Lemma update_at_app r b p f : update_at r (b ++ p) f = update_at r p (fun x => update_at x b f).
Proof.
  revert f. induction b as [| i b IH]; intros f; cbn; [reflexivity |]. apply IH.
Qed.

Lemma node_at_fill f n : node_at (fill f n) [length (fl f)] = Some n.
Proof.
  cbn. rewrite nth_error_app2; rewrite length_map; [| lia].
  rewrite Nat.sub_diag. reflexivity.
Qed.

Lemma plug_app c1 c2 n : plug (c1 ++ c2) n = plug c2 (plug c1 n).
Proof. revert n. induction c1 as [| f c1 IH]; intros n; cbn; [reflexivity | apply IH]. Qed.

Lemma ctx_addr_app c1 c2 : ctx_addr (c1 ++ c2) = ctx_addr c1 ++ ctx_addr c2.
Proof. unfold ctx_addr. apply map_app. Qed.

Lemma node_at_plug ctx n b : node_at (plug ctx n) (b ++ ctx_addr ctx) = node_at n b.
Proof.
  revert n b. induction ctx as [| f c IH]; intros n b; cbn [plug ctx_addr map].
  - rewrite app_nil_r. reflexivity.
  - replace (b ++ length (fl f) :: map (fun f => length (fl f)) c)
      with ((b ++ [length (fl f)]) ++ ctx_addr c) by (rewrite <- app_assoc; reflexivity).
    rewrite IH, node_at_app, node_at_fill. reflexivity.
Qed.

Lemma node_at_plug0 ctx n : node_at (plug ctx n) (ctx_addr ctx) = Some n.
Proof. apply (node_at_plug ctx n []). Qed.

Lemma update_at_fill f n g :
  update_at (fill f n) [length (fl f)] g = fill f (g n).
Proof.
  cbn. unfold fill, with_children. cbn. f_equal.
  rewrite <- (length_map fst (fl f)). apply update_nth_app.
Qed.

Lemma update_at_plug ctx n b g :
  update_at (plug ctx n) (b ++ ctx_addr ctx) g = plug ctx (update_at n b g).
Proof.
  revert n b. induction ctx as [| f c IH]; intros n b; cbn [plug ctx_addr map].
  - rewrite app_nil_r. reflexivity.
  - replace (b ++ length (fl f) :: map (fun f => length (fl f)) c)
      with ((b ++ [length (fl f)]) ++ ctx_addr c) by (rewrite <- app_assoc; reflexivity).
    rewrite IH, update_at_app, update_at_fill. reflexivity.
Qed.

Lemma update_at_plug0 ctx n g : update_at (plug ctx n) (ctx_addr ctx) g = plug ctx (g n).
Proof. apply (update_at_plug ctx n [] g). Qed.

(** ** Which digests a write through an address can change *)

Lemma nth_error_update_nth {A} (l : list A) i j f :
  nth_error (update_nth l i f) j = if Nat.eqb i j then option_map f (nth_error l j) else nth_error l j.
Proof.
  revert i j. induction l as [| x l IH]; intros [| i] [| j]; cbn;
    first [reflexivity | apply IH | destruct (Nat.eqb _ _); reflexivity].
Qed.

Lemma node_at_update_self r b f : node_at (update_at r b f) b = option_map f (node_at r b).
Proof.
  revert f. induction b as [| i p IH]; intros f; cbn [update_at node_at]; [reflexivity |].
  rewrite IH. destruct (node_at r p) as [n |]; cbn [option_map]; [| reflexivity].
  unfold with_children. cbn [Children]. rewrite nth_error_update_nth, Nat.eqb_refl. reflexivity.
Qed.

Lemma node_at_children x y q :
  Children x = Children y -> q <> [] -> node_at x q = node_at y q.
Proof.
  intros H Hq. destruct (exists_last Hq) as [q' [j ->]].
  rewrite !node_at_app. cbn [node_at]. rewrite H. reflexivity.
Qed.

Lemma suffix_dec (c p : addr) : {q | c = q ++ p} + {forall q, c <> q ++ p}.
Proof.
  destruct (list_eq_dec Nat.eq_dec (skipn (length c - length p) c) p) as [E | E].
  - left. exists (firstn (length c - length p) c). rewrite <- E at 2. symmetry. apply firstn_skipn.
  - right. intros q ->. apply E. rewrite length_app.
    replace (length q + length p - length p)%nat with (length q) by lia.
    clear. induction q as [| x q IHq]; cbn; [reflexivity | exact IHq].
Qed.

Lemma node_at_below r b f q :
  q <> [] -> (forall x, Children (f x) = Children x) ->
  node_at (update_at r b f) (q ++ b) = node_at r (q ++ b).
Proof.
  intros Hq Hf. rewrite !node_at_app, node_at_update_self.
  destruct (node_at r b) as [n |]; cbn [option_map]; [| reflexivity].
  apply node_at_children; [apply Hf | exact Hq].
Qed.

Lemma hash_not_below r b : forall f c,
  (forall q, c <> q ++ b) ->
  option_map Hash (node_at (update_at r b f) c) = option_map Hash (node_at r c).
Proof.
  induction b as [| i p IH]; intros f c Hc.
  - exfalso. apply (Hc c). rewrite app_nil_r. reflexivity.
  - cbn [update_at]. set (g := fun n => with_children (update_nth (Children n) i f) n).
    destruct (suffix_dec c p) as [[q ->] | Hp]; [| apply IH, Hp].
    destruct q as [| j q' _] using rev_ind.
    + cbn [app]. rewrite node_at_update_self. destruct (node_at r p); reflexivity.
    + assert (Hj : j <> i) by (intros ->; apply (Hc q'); rewrite <- app_assoc; reflexivity).
      rewrite !node_at_app, node_at_update_self.
      destruct (node_at r p) as [n |]; cbn [option_map]; [| reflexivity].
      rewrite !node_at_app. cbn [node_at]. unfold g, with_children. cbn [Children].
      rewrite nth_error_update_nth. apply Nat.eqb_neq in Hj. rewrite Nat.eqb_sym, Hj. reflexivity.
Qed.

(** A write through [b] that keeps the children leaves every other node's
    digest as it was. *)
Lemma hash_update_other r b f c :
  (forall x, Children (f x) = Children x) -> c <> b ->
  option_map Hash (node_at (update_at r b f) c) = option_map Hash (node_at r c).
Proof.
  intros Hf Hcb. destruct (suffix_dec c b) as [[q ->] | Hn]; [| apply hash_not_below, Hn].
  destruct q as [| j q]; [contradiction |]. rewrite node_at_below; [reflexivity | discriminate | exact Hf].
Qed.

(** ** Running the monad on a tree known up to its digests *)

Lemma runs_ret {A} (a : A) t (Q : A -> Tree -> Prop) : Q a t -> Runs (ret a) t Q.
Proof. intros H. exists a, t. split; [reflexivity | exact H]. Qed.

Lemma runs_bind {A B} (c : M A) (k : A -> M B) t (Q : B -> Tree -> Prop) :
  Runs c t (fun a t1 => Runs (k a) t1 Q) -> Runs (bind c k) t Q.
Proof.
  intros [v [t1 [E [v' [t' [E' HQ]]]]]]. exists v', t'. unfold bind. rewrite E. auto.
Qed.

Lemma runs_weaken {A} (c : M A) t (Q Q' : A -> Tree -> Prop) :
  Runs c t Q -> (forall a t', Q a t' -> Q' a t') -> Runs c t Q'.
Proof. intros [v [t' [E HQ]]] H. exists v, t'. auto. Qed.

Lemma runs_get {A} (k : Tree -> M A) t (Q : A -> Tree -> Prop) :
  Runs (k t) t Q -> Runs (bind get_tree k) t Q.
Proof. intros H. exact H. Qed.

Lemma runs_put t t' (Q : unit -> Tree -> Prop) : Q tt t' -> Runs (put_tree t') t Q.
Proof. intros H. exists tt, t'. split; [reflexivity | exact H]. Qed.

Lemma runs_lift {A} msg (o : option A) v t (Q : A -> Tree -> Prop) :
  o = Some v -> Q v t -> Runs (lift msg o) t Q.
Proof. intros -> H. apply runs_ret, H. Qed.

Lemma view_root t R s mm :
  view t = (Some R, s, mm) ->
  exists r, Root t = Some r /\ erase r = R /\ size t = s /\ m t = mm.
Proof.
  unfold view, eroot. destruct (Root t) as [r |]; intros H; inversion H; subst.
  exists r. auto.
Qed.

Lemma runs_getNode a t R s mm N (Q : Node -> Tree -> Prop) :
  view t = (Some R, s, mm) -> node_at R a = Some N ->
  (forall n, erase n = N -> Q n t) -> Runs (getNode a) t Q.
Proof.
  intros Hv HN HQ. destruct (view_root _ _ _ _ Hv) as [r [Er [<- _]]].
  rewrite node_at_erase in HN. destruct (node_at r a) as [n |] eqn:En; inversion HN.
  exists n, t. unfold getNode. rewrite Er, En. split; [reflexivity | apply HQ; exact H0].
Qed.

Lemma runs_modifyNode a f g t R s mm N (Q : unit -> Tree -> Prop) :
  view t = (Some R, s, mm) -> node_at R a = Some N ->
  (forall x, erase (f x) = g (erase x)) ->
  (forall t', view t' = (Some (update_at R a g), s, mm) -> Q tt t') ->
  Runs (modifyNode a f) t Q.
Proof.
  intros Hv HN Hfg HQ. destruct (view_root _ _ _ _ Hv) as [r [Er [<- [Hs Hm]]]].
  rewrite node_at_erase in HN. destruct (node_at r a) as [n |] eqn:En; inversion HN.
  exists tt, (with_root (Some (update_at r a f)) t). unfold modifyNode. rewrite Er, En.
  split; [reflexivity |]. apply HQ. unfold view, eroot, with_root. cbn.
  rewrite (erase_update_at r a f g Hfg), Hs, Hm. reflexivity.
Qed.

Lemma erase_with_contents cs x : erase (with_contents cs x) = with_contents cs (erase x).
Proof. destruct x; reflexivity. Qed.

Lemma erase_with_children ks x :
  erase (with_children ks x) = with_children (map erase ks) (erase x).
Proof. destruct x; reflexivity. Qed.

Lemma erase_with_hash h x : erase (with_hash h x) = erase x.
Proof. destruct x; reflexivity. Qed.

Lemma runs_setContents a cs t R s mm N (Q : unit -> Tree -> Prop) :
  view t = (Some R, s, mm) -> node_at R a = Some N ->
  (forall t', view t' = (Some (update_at R a (with_contents cs)), s, mm) -> Q tt t') ->
  Runs (setContents a cs) t Q.
Proof. intros Hv HN HQ. eapply runs_modifyNode; eauto. apply erase_with_contents. Qed.

Lemma runs_setChildren a ks t R s mm N (Q : unit -> Tree -> Prop) :
  view t = (Some R, s, mm) -> node_at R a = Some N ->
  (forall t', view t' = (Some (update_at R a (with_children (map erase ks))), s, mm) -> Q tt t') ->
  Runs (setChildren a ks) t Q.
Proof. intros Hv HN HQ. eapply runs_modifyNode; eauto. intros x. apply erase_with_children. Qed.

Lemma runs_CalculateHash CH S a t R s mm N (Q : option bytes -> Tree -> Prop) :
  view t = (Some R, s, mm) -> node_at R a = Some N ->
  (forall o t', view t' = (Some R, s, mm) -> Q o t') ->
  Runs (CalculateHash CH S a) t Q.
Proof.
  intros Hv HN HQ. unfold CalculateHash. apply runs_bind.
  eapply runs_getNode; [exact Hv | exact HN |]. intros n Hn.
  destruct (node_hash CH S n) as [h |].
  - apply runs_bind. eapply runs_modifyNode with (g := fun x => x); [exact Hv | exact HN | |].
    + intros x. apply erase_with_hash.
    + intros t' Hv'. rewrite update_at_id in Hv'. apply runs_ret, HQ, Hv'.
  - apply runs_ret, HQ, Hv.
Qed.

Lemma node_at_parent R i p N : node_at R (i :: p) = Some N -> exists P, node_at R p = Some P.
Proof. cbn. destruct (node_at R p) as [P |]; [intros _; exists P; reflexivity | discriminate]. Qed.

Lemma runs_ReCalc CH S a t R s mm N (Q : option bytes -> Tree -> Prop) :
  view t = (Some R, s, mm) -> node_at R a = Some N ->
  (forall o t', view t' = (Some R, s, mm) -> Q o t') ->
  Runs (ReCalculateMerkleRoot CH S a) t Q.
Proof.
  revert t N Q. induction a as [| i p IH]; intros t N Q Hv HN HQ; cbn [ReCalculateMerkleRoot].
  - eapply runs_CalculateHash; eauto.
  - apply runs_bind. eapply runs_CalculateHash; [exact Hv | exact HN |]. intros o t' Hv'.
    destruct o as [h |]; [| apply runs_ret, HQ, Hv'].
    destruct (node_at_parent _ _ _ _ HN) as [P HP]. eapply IH; eauto.
Qed.

(** ** Runs that end normally, step by step *)

Lemma ok_bind {A B} (c : M A) (k : A -> M B) t v t' :
  bind c k t = Ok v t' -> exists w t1, c t = Ok w t1 /\ k w t1 = Ok v t'.
Proof. unfold bind. destruct (c t) as [w t1 | msg t1]; [intros H; exists w, t1; auto | discriminate]. Qed.

Lemma ok_ret {A} (a : A) t v t' : ret a t = Ok v t' -> v = a /\ t' = t.
Proof. unfold ret. intros H. inversion H. auto. Qed.

Lemma ok_lift {A} msg (o : option A) t v t' : lift msg o t = Ok v t' -> o = Some v /\ t' = t.
Proof. destruct o; cbn; unfold ret, panic; intros H; inversion H; auto. Qed.

Lemma ok_getNode b t n t' :
  getNode b t = Ok n t' -> t' = t /\ exists r, Root t = Some r /\ node_at r b = Some n.
Proof.
  unfold getNode. destruct (Root t) as [r |]; [| discriminate].
  destruct (node_at r b) eqn:E; intros H; inversion H; subst; eauto.
Qed.

Lemma ok_modifyNode b f t u t' :
  modifyNode b f t = Ok u t' -> exists r, Root t = Some r /\ Root t' = Some (update_at r b f).
Proof.
  unfold modifyNode. destruct (Root t) as [r |]; [| discriminate].
  destruct (node_at r b); intros H; inversion H; subst. eauto.
Qed.

Lemma hframe_refl a t r : Root t = Some r -> hframe a t t.
Proof. intros H. exists r, r. auto. Qed.

Lemma hframe_trans a t1 t2 t3 : hframe a t1 t2 -> hframe a t2 t3 -> hframe a t1 t3.
Proof.
  intros [r1 [r2 [E1 [E2 H12]]]] [r2' [r3 [E2' [E3 H23]]]]. rewrite E2 in E2'. inversion E2'; subst.
  exists r1, r3. split; [exact E1 |]. split; [exact E3 |]. intros c Hc. rewrite H23, H12; auto.
Qed.

Lemma hframe_modify a b f t u t' :
  (forall x, Children (f x) = Children x) -> (exists q, a = q ++ b) ->
  modifyNode b f t = Ok u t' -> hframe a t t'.
Proof.
  intros Hf [q0 ->] Hm. destruct (ok_modifyNode _ _ _ _ _ Hm) as [r [Er Er']].
  exists r, (update_at r b f). split; [exact Er |]. split; [exact Er' |].
  intros c Hc. apply hash_update_other; [exact Hf |]. intros ->. exact (Hc q0 eq_refl).
Qed.

Lemma hframe_CalculateHash CH S a b t v t' :
  (exists q, a = q ++ b) -> CalculateHash CH S b t = Ok v t' -> hframe a t t'.
Proof.
  intros Hab H. unfold CalculateHash in H. apply ok_bind in H. destruct H as [n [t1 [Hg Hk]]].
  destruct (ok_getNode _ _ _ _ Hg) as [-> [r [Er _]]].
  destruct (node_hash CH S n) as [h |].
  - apply ok_bind in Hk. destruct Hk as [u [t2 [Hm Hr]]]. apply ok_ret in Hr. destruct Hr as [_ ->].
    eapply hframe_modify; [| exact Hab | exact Hm]. intros x. reflexivity.
  - apply ok_ret in Hk. destruct Hk as [_ ->]. eapply hframe_refl, Er.
Qed.

Lemma hframe_ReCalc CH S a b : forall t v t',
  (exists q, a = q ++ b) -> ReCalculateMerkleRoot CH S b t = Ok v t' -> hframe a t t'.
Proof.
  induction b as [| i p IH]; intros t v t' Hab H; cbn [ReCalculateMerkleRoot] in H.
  - eapply hframe_CalculateHash; eauto.
  - apply ok_bind in H. destruct H as [o [t1 [Hc Hk]]].
    pose proof (hframe_CalculateHash _ _ _ _ _ _ _ Hab Hc) as H1.
    destruct o as [h |].
    + eapply hframe_trans; [exact H1 |]. eapply IH; [| exact Hk].
      destruct Hab as [q ->]. exists (q ++ [i]). rewrite <- app_assoc. reflexivity.
    + apply ok_ret in Hk. destruct Hk as [_ ->]. exact H1.
Qed.

Lemma hframe_setContentAt a i x t u t' : setContentAt a i x t = Ok u t' -> hframe a t t'.
Proof.
  unfold setContentAt. intros H. apply ok_bind in H. destruct H as [n [t1 [Hg Hk]]].
  destruct (ok_getNode _ _ _ _ Hg) as [-> _].
  apply ok_bind in Hk. destruct Hk as [cs [t2 [Hl Hs]]]. destruct (ok_lift _ _ _ _ _ Hl) as [_ ->].
  eapply hframe_modify; [| exists []; reflexivity | exact Hs]. intros y. reflexivity.
Qed.

Lemma runs_and_ok {A} (c : M A) t (Q P : A -> Tree -> Prop) :
  Runs c t Q -> (forall v t', c t = Ok v t' -> P v t') -> Runs c t (fun v t' => Q v t' /\ P v t').
Proof. intros [v [t' [E HQ]]] HP. exists v, t'. auto. Qed.

(** ** Shapes *)

Lemma shape_erase n : shape (erase n) = shape n.
Proof.
  induction n as [h cs ks IH] using Node_ind'. cbn [erase shape Contents Children]. f_equal.
  rewrite map_map. apply map_ext_in. intros x Hx. rewrite Forall_forall in IH. apply IH, Hx.
Qed.

Lemma map_update_nth {A B} (h : A -> B) (l : list A) i (f : A -> A) x :
  nth_error l i = Some x -> h (f x) = h x -> map h (update_nth l i f) = map h l.
Proof.
  revert i. induction l as [| y l IH]; intros [| i] Hi Hf; cbn in *; try discriminate.
  - inversion Hi; subst. rewrite Hf. reflexivity.
  - rewrite (IH i Hi Hf). reflexivity.
Qed.

Lemma shape_update_at r a : forall g x,
  node_at r a = Some x -> shape (g x) = shape x -> shape (update_at r a g) = shape r.
Proof.
  induction a as [| i p IH]; intros g x Hx Hg; cbn [node_at update_at] in *.
  - inversion Hx; subst. exact Hg.
  - destruct (node_at r p) as [y |] eqn:Ey; [| discriminate].
    apply (IH _ y eq_refl). destruct y as [hy cy ky]. unfold with_children. cbn in Hx |- *.
    f_equal. apply (map_update_nth shape ky i g x Hx Hg).
Qed.

(** ** Sorted item lists and binary search *)

Lemma ltk_trans a b c : ltk a b -> ltk b c -> ltk a c.
Proof. unfold ltk. lia. Qed.

Lemma sorted_keys_iff l : sorted_keys l = true <-> StronglySorted ltk l.
Proof.
  induction l as [| a l IH]; [split; intros; [constructor | reflexivity] |].
  destruct l as [| b l].
  - split; intros; [repeat constructor | reflexivity].
  - cbn [sorted_keys]. rewrite andb_true_iff, Z.ltb_lt, IH. split.
    + intros [Hab Hs]. constructor; [exact Hs |].
      apply StronglySorted_inv in Hs. destruct Hs as [_ Hb].
      constructor; [exact Hab |]. eapply Forall_impl; [| exact Hb].
      intros x Hx. eapply ltk_trans; eauto.
    + intros Hs. apply StronglySorted_inv in Hs. destruct Hs as [Hs Ha].
      split; [inversion Ha; assumption | exact Hs].
Qed.

Lemma SS_app l1 l2 :
  StronglySorted ltk (l1 ++ l2) <->
  StronglySorted ltk l1 /\ StronglySorted ltk l2 /\
  (forall x y, In x l1 -> In y l2 -> ltk x y).
Proof.
  induction l1 as [| a l1 IH]; cbn.
  - split; [intros H; split; [constructor | split; [exact H | intros x y []]] | tauto].
  - split.
    + intros H. apply StronglySorted_inv in H. destruct H as [H Ha].
      apply IH in H. destruct H as [H1 [H2 H12]]. rewrite Forall_app in Ha.
      destruct Ha as [Ha1 Ha2]. split; [constructor; assumption |]. split; [exact H2 |].
      intros x y [<- | Hx] Hy; [| apply H12; assumption].
      rewrite Forall_forall in Ha2. apply Ha2, Hy.
    + intros [H1 [H2 H12]]. apply StronglySorted_inv in H1. destruct H1 as [H1 Ha].
      constructor.
      * apply IH. split; [exact H1 |]. split; [exact H2 |]. intros x y Hx Hy. apply H12; auto.
      * rewrite Forall_app. split; [exact Ha |]. apply Forall_forall. intros y Hy. apply H12; auto.
Qed.

Lemma SS_lt l1 l2 x y :
  StronglySorted ltk (l1 ++ l2) -> In x l1 -> In y l2 -> Key x < Key y.
Proof. intros H Hx Hy. apply SS_app in H. apply H; assumption. Qed.

Lemma SS_cons_lt a l y : StronglySorted ltk (a :: l) -> In y l -> Key a < Key y.
Proof.
  intros H Hy. apply StronglySorted_inv in H. destruct H as [_ H].
  rewrite Forall_forall in H. apply H, Hy.
Qed.

Lemma nth_In_Z {A} (l : list A) (i : Z) d : 0 <= i < len l -> In (nth (Z.to_nat i) l d) l.
Proof. unfold len. intros H. apply nth_In. lia. Qed.

Lemma search_loop_pos cs item l1 l2 fuel : forall low high,
  StronglySorted ltk cs -> cs = l1 ++ l2 ->
  Forall (fun c => Key c < Key item) l1 -> Forall (fun c => Key item <= Key c) l2 ->
  0 <= low -> high < len cs -> low <= len l1 <= high + 1 ->
  (match l2 with c :: _ => Key c =? Key item | [] => false end = true -> len l1 <= high) ->
  high - low + 2 <= Z.of_nat fuel ->
  search_loop fuel cs item low high =
  (len l1, match l2 with c :: _ => Key c =? Key item | [] => false end).
Proof.
  induction fuel as [| fuel IH]; intros low high Hs Hcs H1 H2 Hlo Hhi Hp Hf Hfuel;
    [cbn in Hfuel; lia |].
  cbn [search_loop]. subst cs.
  assert (Hlt : forall i, 0 <= i < len l1 -> Key (nth (Z.to_nat i) (l1 ++ l2) item) < Key item).
  { intros i Hi. rewrite app_nth1 by (unfold len in Hi; lia).
    rewrite Forall_forall in H1. apply H1, nth_In_Z, Hi. }
  assert (Hge : forall i, len l1 <= i < len (l1 ++ l2) ->
            Key item <= Key (nth (Z.to_nat i) (l1 ++ l2) item)).
  { intros i Hi. unfold len in Hi. rewrite length_app in Hi.
    rewrite app_nth2 by lia. rewrite Forall_forall in H2. apply H2, nth_In. lia. }
  destruct (low <=? high) eqn:Elh.
  - apply Z.leb_le in Elh.
    assert (Hmid : low <= (high + low) / 2 <= high) by (Z.to_euclidean_division_equations; lia).
    set (mid := (high + low) / 2) in *.
    unfold Comparator.
    destruct (Key (nth (Z.to_nat mid) (l1 ++ l2) item) <? Key item) eqn:E1; cbn [Z.ltb Z.compare].
    + apply Z.ltb_lt in E1. cbn.
      assert (mid < len l1).
      { destruct (Z_lt_le_dec mid (len l1)) as [| Hc]; [assumption |].
        specialize (Hge mid ltac:(lia)). lia. }
      apply IH; auto; lia.
    + apply Z.ltb_ge in E1.
      destruct (Key item <? Key (nth (Z.to_nat mid) (l1 ++ l2) item)) eqn:E2; cbn.
      * apply Z.ltb_lt in E2.
        assert (len l1 <= mid).
        { destruct (Z_lt_le_dec mid (len l1)) as [Hc |]; [| assumption].
          specialize (Hlt mid ltac:(lia)). lia. }
        apply IH; auto; try lia.
        intros Hh. destruct l2 as [| c l2']; [discriminate |]. apply Z.eqb_eq in Hh.
        destruct (Z.eq_dec mid (len l1)) as [Heq | Hne]; [| lia].
        exfalso. rewrite Heq in E2. unfold len in E2. rewrite Nat2Z.id in E2.
        rewrite app_nth2 in E2 by lia. rewrite Nat.sub_diag in E2. cbn in E2. lia.
      * apply Z.ltb_ge in E2.
        assert (Hk : Key (nth (Z.to_nat mid) (l1 ++ l2) item) = Key item) by lia.
        assert (Hm1 : len l1 <= mid).
        { destruct (Z_lt_le_dec mid (len l1)) as [Hc |]; [| assumption].
          specialize (Hlt mid ltac:(lia)). lia. }
        destruct l2 as [| c l2'].
        { exfalso. unfold len in Hhi, Hm1. rewrite app_nil_r in Hhi. lia. }
        assert (Hm2 : mid = len l1).
        { destruct (Z.eq_dec mid (len l1)) as [| Hne]; [assumption | exfalso].
          unfold len in *. rewrite app_nth2 in Hk by lia.
          replace (Z.to_nat mid - length l1)%nat with (S (Z.to_nat mid - length l1 - 1))
            in Hk by lia. cbn in Hk.
          apply SS_app in Hs. destruct Hs as [_ [Hs _]].
          assert (Hin : In (nth (Z.to_nat mid - length l1 - 1) l2' item) l2').
          { apply nth_In. rewrite length_app in Hhi. cbn in Hhi. lia. }
          pose proof (SS_cons_lt _ _ _ Hs Hin).
          rewrite Forall_forall in H2. specialize (H2 c (or_introl eq_refl)). lia. }
        rewrite Hm2 in Hk. unfold len in Hk. rewrite Nat2Z.id in Hk.
        rewrite app_nth2 in Hk by lia.
        rewrite Nat.sub_diag in Hk. cbn in Hk. rewrite Hm2, Hk, Z.eqb_refl. reflexivity.
  - apply Z.leb_gt in Elh.
    assert (Hp' : low = len l1) by lia. rewrite <- Hp'.
    destruct l2 as [| c l2']; [reflexivity |].
    destruct (Key c =? Key item) eqn:E; [| reflexivity]. specialize (Hf eq_refl). lia.
Qed.

Lemma search_app (n : Node) item l1 l2 :
  StronglySorted ltk (Contents n) -> Contents n = l1 ++ l2 ->
  Forall (fun c => Key c < Key item) l1 -> Forall (fun c => Key item <= Key c) l2 ->
  search n item = (len l1, match l2 with c :: _ => Key c =? Key item | [] => false end).
Proof.
  intros Hs Hcs H1 H2. unfold search.
  assert (Hl : len (Contents n) = len l1 + len l2)
    by (rewrite Hcs; unfold len; rewrite length_app; lia).
  apply search_loop_pos; auto.
  - unfold len in *; lia.
  - lia.
  - unfold len in *. split; [lia |]. lia.
  - intros Hh. destruct l2; [discriminate |]. unfold len in *. cbn in Hl. lia.
  - unfold len in *. lia.
Qed.

(** ** Key order and shape of nodes, frames and contexts *)

Lemma inorder_erase n : inorder (erase n) = inorder n.
Proof.
  induction n as [h cs ks IH] using Node_ind'. destruct ks as [| k0 ks]; [reflexivity |].
  cbn [erase map inorder]. inversion IH as [| ? ? Hk0 Hks]; subst. rewrite Hk0, map_map.
  f_equal. f_equal. apply map_ext_in. intros x Hx. rewrite Forall_forall in Hks. apply Hks, Hx.
Qed.

Lemma forallb_map_erase (P : Node -> bool) ks :
  (forall x, P (erase x) = P x) -> forallb P (map erase ks) = forallb P ks.
Proof. intros H. induction ks as [| k ks IH]; cbn; [reflexivity | rewrite H, IH; reflexivity]. Qed.

Lemma wf_erase minc maxc h : forall lo hi n,
  wf minc maxc h lo hi (erase n) = wf minc maxc h lo hi n.
Proof.
  induction h as [| h IH]; intros lo hi n; cbn [wf]; rewrite erase_Contents, erase_Children.
  - destruct (Children n); reflexivity.
  - rewrite length_map, forallb_map_erase; [reflexivity |]. intros x. apply IH.
Qed.

Lemma height_erase n : height (erase n) = height n.
Proof.
  induction n as [h cs ks IH] using Node_ind'. destruct ks as [| k0 ks]; [reflexivity |].
  inversion IH; subst. cbn. f_equal. assumption.
Qed.

Lemma wf_height minc maxc h : forall lo hi n, wf minc maxc h lo hi n = true -> height n = h.
Proof.
  induction h as [| h IH]; intros lo hi [hs cs ks] Hwf; cbn [wf Contents Children] in Hwf.
  - destruct ks; [reflexivity | rewrite andb_false_r in Hwf; discriminate].
  - rewrite !andb_true_iff in Hwf. destruct Hwf as [_ [Hlen Hks]].
    destruct ks as [| k ks]; [discriminate |]. cbn. f_equal.
    cbn in Hks. apply andb_true_iff in Hks. eapply IH, Hks.
Qed.

Lemma wf_bounds minc maxc h lo hi n :
  wf minc maxc h lo hi n = true -> lo <= len (Contents n) <= hi.
Proof.
  destruct h; cbn [wf]; rewrite !andb_true_iff, Z.leb_le, Z.leb_le; tauto.
Qed.

Lemma wf_leaf minc maxc lo hi n :
  wf minc maxc 0 lo hi n = true <-> lo <= len (Contents n) <= hi /\ Children n = [].
Proof.
  cbn [wf]. rewrite !andb_true_iff, !Z.leb_le.
  destruct (Children n); split; intros H.
  - destruct H as [[H1 H2] _]. auto.
  - destruct H as [[H1 H2] _]. auto.
  - destruct H as [_ H]. discriminate.
  - destruct H as [_ H]. discriminate.
Qed.

Lemma wf_node minc maxc h lo hi n :
  wf minc maxc (S h) lo hi n = true <->
  lo <= len (Contents n) <= hi /\ length (Children n) = S (length (Contents n)) /\
  Forall (fun k => wf minc maxc h minc maxc k = true) (Children n).
Proof.
  cbn [wf]. rewrite !andb_true_iff, !Z.leb_le, Nat.eqb_eq, forallb_forall, Forall_forall.
  tauto.
Qed.

Lemma weave_incl xs cs : length xs = length cs -> incl cs (weave xs cs).
Proof.
  revert cs. induction xs as [| x xs IH]; intros [| c cs] H; cbn in *; try discriminate;
    [intros y [] |].
  intros y [<- | Hy]; [left; reflexivity | right]. apply in_or_app. right.
  apply IH; [lia | exact Hy].
Qed.

Lemma contents_in_inorder n :
  Children n = [] \/ length (Children n) = S (length (Contents n)) ->
  incl (Contents n) (inorder n).
Proof.
  destruct n as [h cs [| k0 ks]]; cbn; intros H; [apply incl_refl |].
  destruct H as [H | H]; [discriminate |]. intros y Hy. apply in_or_app. right.
  apply weave_incl; [rewrite length_map; lia | exact Hy].
Qed.

Lemma weave_sorted xs cs :
  length xs = length cs -> StronglySorted ltk (weave xs cs) -> StronglySorted ltk cs.
Proof.
  revert cs. induction xs as [| x xs IH]; intros [| c cs] H Hs; cbn in *; try discriminate;
    [constructor |].
  apply StronglySorted_inv in Hs. destruct Hs as [Hs Hc]. apply SS_app in Hs.
  constructor; [apply IH; [lia | apply Hs] |].
  rewrite Forall_forall in *. intros y Hy. apply Hc, in_or_app. right.
  apply weave_incl; [lia | exact Hy].
Qed.

Lemma contents_sorted n :
  Children n = [] \/ length (Children n) = S (length (Contents n)) ->
  StronglySorted ltk (inorder n) -> StronglySorted ltk (Contents n).
Proof.
  destruct n as [h cs [| k0 ks]]; cbn; intros H Hs; [exact Hs |].
  destruct H as [H | H]; [discriminate |]. apply SS_app in Hs.
  apply (weave_sorted (map inorder ks)); [rewrite length_map; lia | apply Hs].
Qed.

Lemma weave_right (fr : list (Item * Node)) :
  weave (map inorder (map snd fr)) (map fst fr) = concat (map (fun p => fst p :: inorder (snd p)) fr).
Proof. induction fr as [| [c k] fr IH]; cbn; [reflexivity | rewrite IH; reflexivity]. Qed.

Lemma weave_left (fl : list (Node * Item)) c X Ys Ws :
  weave (map inorder (map fst fl) ++ X :: Ys) (c :: map snd fl ++ Ws) =
  c :: concat (map (fun p => inorder (fst p) ++ [snd p]) fl) ++ X ++ weave Ys Ws.
Proof.
  revert c. induction fl as [| [k c'] fl IH]; intros c; cbn; [reflexivity |].
  f_equal. rewrite IH, <- !app_assoc. reflexivity.
Qed.

Lemma inorder_fill f n : inorder (fill f n) = left_items f ++ inorder n ++ right_items f.
Proof.
  destruct f as [fl fr]. unfold fill, left_items, right_items. cbn [MerkleBTree.fl MerkleBTree.fr].
  destruct fl as [| [k0 c0] fl]; cbn [map app inorder concat].
  - f_equal. apply weave_right.
  - rewrite map_app. cbn [map]. rewrite weave_left, weave_right.
    rewrite <- !app_assoc. reflexivity.
Qed.

Lemma inorder_plug ctx n :
  inorder (plug ctx n) = ctx_left ctx ++ inorder n ++ ctx_right ctx.
Proof.
  revert n. induction ctx as [| f c IH]; intros n; cbn [plug ctx_left ctx_right].
  - rewrite app_nil_r. reflexivity.
  - rewrite IH, inorder_fill, <- !app_assoc. reflexivity.
Qed.

Lemma fill_Contents f n : Contents (fill f n) = fcontents f.
Proof. reflexivity. Qed.

Lemma fill_Children f n : Children (fill f n) = map fst (fl f) ++ n :: map snd (fr f).
Proof. reflexivity. Qed.

Lemma len_fcontents f : length (fcontents f) = (length (fl f) + length (fr f))%nat.
Proof. unfold fcontents. rewrite length_app, !length_map. reflexivity. Qed.

Lemma wf_fill minc maxc h lo hi f n :
  wf minc maxc (S h) lo hi (fill f n) = true <->
  lo <= len (fcontents f) <= hi /\ wf minc maxc h minc maxc n = true /\
  forallb (wf minc maxc h minc maxc) (fsiblings f) = true.
Proof.
  rewrite wf_node, fill_Contents, fill_Children, len_fcontents.
  rewrite length_app, !length_map. cbn [length].
  unfold fsiblings. rewrite Forall_app, forallb_app, andb_true_iff, !forallb_forall.
  split.
  - intros [Hb [_ [H1 H2]]]. inversion H2 as [| ? ? H3 H4]; subst.
    rewrite Forall_forall in H1, H4. repeat split; try tauto; auto.
  - intros [Hb [Hn [H1 H2]]]. split; [exact Hb |]. split; [rewrite length_map; lia |].
    split; [rewrite Forall_forall; exact H1 |]. constructor; [exact Hn |].
    rewrite Forall_forall; exact H2.
Qed.

Lemma ctx_ok_cons minc maxc h f c :
  ctx_ok minc maxc h (f :: c) = true <->
  (match c with [] => 1 | _ => minc end) <= len (fcontents f) <= maxc /\
  forallb (wf minc maxc h minc maxc) (fsiblings f) = true /\
  ctx_ok minc maxc (S h) c = true.
Proof. cbn [ctx_ok]. rewrite !andb_true_iff, !Z.leb_le. tauto. Qed.

Lemma wf_plug minc maxc c : forall h f n,
  ctx_ok minc maxc h (f :: c) = true -> wf minc maxc h minc maxc n = true ->
  wf minc maxc (S (length c) + h) 1 maxc (plug (f :: c) n) = true.
Proof.
  induction c as [| g c IH]; intros h f n Hc Hn; apply ctx_ok_cons in Hc.
  - cbn [plug length]. apply wf_fill. tauto.
  - destruct Hc as [Hb [Hs Hc]]. cbn [plug length].
    replace (S (S (length c)) + h)%nat with (S (length c) + S h)%nat by lia.
    apply (IH (S h) g (fill f n) Hc). apply wf_fill. tauto.
Qed.

(** ** Slices on lists of known length *)

Lemma set_nth_ok {A} (l : list A) i x :
  (i < length l)%nat -> set_nth l i x = Some (firstn i l ++ x :: skipn (S i) l).
Proof.
  revert i. induction l as [| y l IH]; intros [| i] H; cbn in *; try lia; [reflexivity |].
  rewrite IH by lia. reflexivity.
Qed.

Lemma set_index_ok {A} (l : list A) i x :
  0 <= i < len l -> set_index l i x = Some (firstn (Z.to_nat i) l ++ x :: skipn (S (Z.to_nat i)) l).
Proof.
  unfold set_index, len. intros H. destruct (i <? 0) eqn:E; [lia |]. apply set_nth_ok. lia.
Qed.

Lemma insert_index_ok {A} (l : list A) i x :
  0 <= i <= len l -> insert_index l i x = Some (firstn (Z.to_nat i) l ++ x :: skipn (Z.to_nat i) l).
Proof.
  unfold insert_index. intros H. destruct (i <? 0) eqn:E1; [lia |].
  destruct (len l <? i) eqn:E2; [lia | reflexivity].
Qed.

Lemma remove_index_ok {A} (l : list A) i :
  0 <= i < len l -> remove_index l i = Some (firstn (Z.to_nat i) l ++ skipn (S (Z.to_nat i)) l).
Proof.
  unfold remove_index. intros H. destruct (i <? 0) eqn:E1; [lia |].
  destruct (len l <=? i) eqn:E2; [lia | reflexivity].
Qed.

Lemma slice_to_ok {A} (l : list A) i :
  0 <= i <= len l -> slice_to l i = Some (firstn (Z.to_nat i) l).
Proof.
  unfold slice_to. intros H. destruct (i <? 0) eqn:E1; [lia |].
  destruct (len l <? i) eqn:E2; [lia | reflexivity].
Qed.

Lemma slice_from_ok {A} (l : list A) i :
  0 <= i <= len l -> slice_from l i = Some (skipn (Z.to_nat i) l).
Proof.
  unfold slice_from. intros H. destruct (i <? 0) eqn:E1; [lia |].
  destruct (len l <? i) eqn:E2; [lia | reflexivity].
Qed.

Lemma index_ok {A} (l : list A) i : 0 <= i -> index l i = nth_error l (Z.to_nat i).
Proof. unfold index. intros H. destruct (i <? 0) eqn:E; [lia | reflexivity]. Qed.

Lemma nth_error_len {A} (l : list A) i : (i < length l)%nat -> exists x, nth_error l i = Some x.
Proof.
  intros H. destruct (nth_error l i) as [x |] eqn:E; [exists x; reflexivity |].
  apply nth_error_None in E. lia.
Qed.

Lemma skipn_nth {A} (l : list A) j x : nth_error l j = Some x -> skipn j l = x :: skipn (S j) l.
Proof.
  revert j. induction l as [| y l IH]; intros [| j] H; cbn in *; try discriminate.
  - inversion H; reflexivity.
  - apply IH, H.
Qed.

Lemma split_nth {A} (l : list A) j x : nth_error l j = Some x -> l = firstn j l ++ x :: skipn (S j) l.
Proof. intros H. rewrite <- (skipn_nth l j x H). symmetry. apply firstn_skipn. Qed.

Lemma firstn_len_app {A} (l1 l2 : list A) : firstn (length l1) (l1 ++ l2) = l1.
Proof. induction l1 as [| x l1 IH]; cbn; [reflexivity | rewrite IH; reflexivity]. Qed.

Lemma skipn_len_app {A} (l1 l2 : list A) : skipn (length l1) (l1 ++ l2) = l2.
Proof. induction l1 as [| x l1 IH]; cbn; [reflexivity | exact IH]. Qed.

Lemma Forall_firstn {A} (P : A -> Prop) n l : Forall P l -> Forall P (firstn n l).
Proof.
  intros H. rewrite <- (firstn_skipn n l) in H. apply Forall_app in H. apply H.
Qed.

Lemma Forall_skipn {A} (P : A -> Prop) n l : Forall P l -> Forall P (skipn n l).
Proof.
  intros H. rewrite <- (firstn_skipn n l) in H. apply Forall_app in H. apply H.
Qed.

Lemma map_fst_combine {A B} (l1 : list A) (l2 : list B) :
  length l1 = length l2 -> map fst (combine l1 l2) = l1.
Proof.
  revert l2. induction l1 as [| x l1 IH]; intros [| y l2] H; cbn in *; try lia; [reflexivity |].
  rewrite IH by lia. reflexivity.
Qed.

Lemma map_snd_combine {A B} (l1 : list A) (l2 : list B) :
  length l1 = length l2 -> map snd (combine l1 l2) = l2.
Proof.
  revert l2. induction l1 as [| x l1 IH]; intros [| y l2] H; cbn in *; try lia; [reflexivity |].
  rewrite IH by lia. reflexivity.
Qed.

(** ** Frames around a child *)

Lemma frame_at_fl cs ks j :
  length ks = S (length cs) -> (j < length ks)%nat ->
  map fst (fl (frame_at cs ks j)) = firstn j ks /\ map snd (fl (frame_at cs ks j)) = firstn j cs /\
  map fst (fr (frame_at cs ks j)) = skipn j cs /\ map snd (fr (frame_at cs ks j)) = skipn (S j) ks /\
  length (fl (frame_at cs ks j)) = j.
Proof.
  intros Hl Hj. cbn [fl fr frame_at].
  assert (H1 : length (firstn j ks) = length (firstn j cs)) by (rewrite !length_firstn; lia).
  assert (H2 : length (skipn j cs) = length (skipn (S j) ks)) by (rewrite !length_skipn; lia).
  rewrite map_fst_combine, map_snd_combine, map_fst_combine, map_snd_combine by assumption.
  repeat split. rewrite length_combine, !length_firstn. lia.
Qed.

Lemma fill_frame_at cs ks j x :
  length ks = S (length cs) -> nth_error ks j = Some x ->
  fill (frame_at cs ks j) x = mkNode [] cs ks.
Proof.
  intros Hl Hx. assert (Hj : (j < length ks)%nat) by (apply nth_error_Some; congruence).
  destruct (frame_at_fl cs ks j Hl Hj) as [E1 [E2 [E3 [E4 _]]]].
  unfold fill. rewrite E1, E2, E3, E4, firstn_skipn, <- split_nth by exact Hx. reflexivity.
Qed.

Lemma fcontents_frame_at cs ks j :
  length ks = S (length cs) -> (j < length ks)%nat -> fcontents (frame_at cs ks j) = cs.
Proof.
  intros Hl Hj. destruct (frame_at_fl cs ks j Hl Hj) as [_ [E2 [E3 _]]].
  unfold fcontents. rewrite E2, E3. apply firstn_skipn.
Qed.

Lemma fsiblings_frame_at cs ks j :
  length ks = S (length cs) -> (j < length ks)%nat ->
  fsiblings (frame_at cs ks j) = firstn j ks ++ skipn (S j) ks.
Proof.
  intros Hl Hj. destruct (frame_at_fl cs ks j Hl Hj) as [E1 [_ [_ [E4 _]]]].
  unfold fsiblings. rewrite E1, E4. reflexivity.
Qed.


(** One step of a descent: the child [j] of the node in the hole becomes the
    new hole. *)
Lemma desc_step minc maxc h ctx cs ks j x :
  ctx_ok minc maxc (S h) ctx = true ->
  wf minc maxc (S h) (lo_of minc ctx) maxc (mkNode [] cs ks) = true ->
  nth_error ks j = Some x ->
  ctx_ok minc maxc h (frame_at cs ks j :: ctx) = true /\
  wf minc maxc h minc maxc x = true /\
  plug (frame_at cs ks j :: ctx) x = plug ctx (mkNode [] cs ks) /\
  ctx_addr (frame_at cs ks j :: ctx) = j :: ctx_addr ctx.
Proof.
  intros Hc Hw Hx. assert (Hj : (j < length ks)%nat) by (apply nth_error_Some; congruence).
  apply wf_node in Hw. cbn [Contents Children] in Hw. destruct Hw as [Hb [Hl Hks]].
  destruct (frame_at_fl cs ks j Hl Hj) as [_ [_ [_ [_ E5]]]].
  rewrite Forall_forall in Hks. split; [| split; [| split]].
  - apply ctx_ok_cons. rewrite fcontents_frame_at, fsiblings_frame_at by assumption.
    split; [destruct ctx; exact Hb |]. split; [| exact Hc].
    apply forallb_forall. intros y Hy. apply Hks.
    apply in_app_or in Hy. destruct Hy as [Hy | Hy].
    + rewrite <- (firstn_skipn j ks). apply in_or_app. left. exact Hy.
    + rewrite <- (firstn_skipn (S j) ks). apply in_or_app. right. exact Hy.
  - apply Hks. eapply nth_error_In. exact Hx.
  - cbn [plug]. rewrite fill_frame_at by assumption. reflexivity.
  - cbn [ctx_addr map]. rewrite E5. reflexivity.
Qed.

(** ** Key bounds *)

Lemma sorted_split k l :
  StronglySorted ltk l -> exists l1 l2, l = l1 ++ l2 /\
  Forall (fun c => Key c < k) l1 /\ Forall (fun c => k <= Key c) l2.
Proof.
  induction l as [| c l IH]; intros Hs; [exists [], []; repeat constructor |].
  apply StronglySorted_inv in Hs. destruct Hs as [Hs Hc].
  destruct (Z_lt_le_dec (Key c) k) as [Hlt | Hge].
  - destruct (IH Hs) as [l1 [l2 [E [H1 H2]]]]. exists (c :: l1), l2.
    rewrite E. split; [reflexivity |]. split; [constructor; assumption | exact H2].
  - exists [], (c :: l). split; [reflexivity |]. split; [constructor |].
    constructor; [exact Hge |]. eapply Forall_impl; [| exact Hc]. unfold ltk. intros y Hy. lia.
Qed.

Lemma SS_before l1 c l2 :
  StronglySorted ltk (l1 ++ c :: l2) -> Forall (fun a => Key a < Key c) l1.
Proof.
  intros Hs. apply Forall_forall. intros a Ha. eapply SS_lt; [exact Hs | exact Ha | left; reflexivity].
Qed.

Lemma SS_after l1 c l2 :
  StronglySorted ltk (l1 ++ c :: l2) -> Forall (fun a => Key c < Key a) l2.
Proof.
  intros Hs. apply SS_app in Hs. destruct Hs as [_ [Hs _]].
  apply StronglySorted_inv in Hs. destruct Hs as [_ Hs]. exact Hs.
Qed.

Lemma left_items_below (P : Z -> Prop) f :
  (forall a b, a < b -> P b -> P a) ->
  StronglySorted ltk (left_items f) -> Forall (fun c => P (Key c)) (map snd (fl f)) ->
  Forall (fun x => P (Key x)) (left_items f).
Proof.
  intros HP. unfold left_items. destruct f as [fl fr]. cbn [MerkleBTree.fl].
  induction fl as [| [k c] fl IH]; intros Hs Hc; cbn in *; [constructor |].
  inversion Hc as [| ? ? Hc1 Hc2]; subst. rewrite <- app_assoc in Hs.
  pose proof (SS_before _ _ _ Hs) as Hb. apply SS_app in Hs. destruct Hs as [_ [Hs _]].
  apply StronglySorted_inv in Hs. destruct Hs as [Hs _].
  rewrite <- app_assoc. apply Forall_app. split.
  - eapply Forall_impl; [| exact Hb]. intros a Ha. exact (HP _ _ Ha Hc1).
  - constructor; [exact Hc1 | apply IH; assumption].
Qed.

Lemma right_items_above (P : Z -> Prop) f :
  (forall a b, a < b -> P a -> P b) ->
  StronglySorted ltk (right_items f) -> Forall (fun c => P (Key c)) (map fst (fr f)) ->
  Forall (fun x => P (Key x)) (right_items f).
Proof.
  intros HP. unfold right_items. destruct f as [fl fr]. cbn [MerkleBTree.fr].
  induction fr as [| [c k] fr IH]; intros Hs Hc; cbn in *; [constructor |].
  inversion Hc as [| ? ? Hc1 Hc2]; subst.
  pose proof (SS_after [] _ _ Hs) as Ha. cbn in Ha. apply StronglySorted_inv in Hs.
  destruct Hs as [Hs _]. apply SS_app in Hs. destruct Hs as [_ [Hs _]].
  constructor; [exact Hc1 |]. rewrite Forall_app in Ha |- *. destruct Ha as [Ha _].
  split; [| apply IH; assumption].
  eapply Forall_impl; [| exact Ha]. intros a Hb. exact (HP _ _ Hb Hc1).
Qed.

(** ** Sorted insertion *)

Lemma ins_at x A B :
  Forall (fun a => Key a < Key x) A ->
  match B with [] => True | b :: _ => Key x < Key b end ->
  ins x (A ++ B) = A ++ x :: B.
Proof.
  induction A as [| a A IH]; intros HA HB; cbn.
  - destruct B as [| b B]; [reflexivity |]. cbn. destruct (Key x <? Key b) eqn:E; [reflexivity | lia].
  - inversion HA; subst. destruct (Key x <? Key a) eqn:E1; [lia |].
    destruct (Key x =? Key a) eqn:E2; [lia |]. rewrite IH; auto.
Qed.

Lemma ins_at_eq x A c B :
  Forall (fun a => Key a < Key x) A -> Key c = Key x -> ins x (A ++ c :: B) = A ++ x :: B.
Proof.
  induction A as [| a A IH]; intros HA Hc; cbn.
  - destruct (Key x <? Key c) eqn:E; [lia |]. rewrite Hc, Z.eqb_refl. reflexivity.
  - inversion HA; subst. destruct (Key x <? Key a) eqn:E1; [lia |].
    destruct (Key x =? Key a) eqn:E2; [lia |]. rewrite IH; auto.
Qed.

(** ** Splitting a node around one of its items *)

Lemma weave_app xs1 xs2 cs1 cs2 :
  length xs1 = length cs1 -> weave (xs1 ++ xs2) (cs1 ++ cs2) = weave xs1 cs1 ++ weave xs2 cs2.
Proof.
  revert cs1. induction xs1 as [| x xs1 IH]; intros [| c cs1] H; cbn in *; try lia; [reflexivity |].
  rewrite IH by lia. rewrite <- app_assoc. reflexivity.
Qed.

Lemma inorder_split hh cs ks j c :
  nth_error cs j = Some c -> ks = [] \/ length ks = S (length cs) ->
  inorder (mkNode hh cs ks) =
  inorder (mkNode [] (firstn j cs) (firstn (S j) ks)) ++
  c :: inorder (mkNode [] (skipn (S j) cs) (skipn (S j) ks)).
Proof.
  intros Hc Hks. destruct ks as [| k0 ks].
  - cbn. destruct j; apply split_nth, Hc.
  - destruct Hks as [Hks | Hks]; [discriminate |]. cbn in Hks.
    assert (Hjc : (j < length cs)%nat) by (apply nth_error_Some; congruence).
    assert (Hj : (j < length ks)%nat) by lia.
    destruct (nth_error_len ks j Hj) as [x Hx].
    cbn [firstn skipn inorder]. rewrite (skipn_nth ks j x Hx). cbn [inorder].
    rewrite <- app_assoc. f_equal.
    rewrite (split_nth cs j c Hc) at 1. rewrite (split_nth ks j x Hx) at 1.
    rewrite map_app. cbn [map]. rewrite weave_app.
    + cbn [weave]. reflexivity.
    + rewrite length_map, !length_firstn. lia.
Qed.

Lemma wf_left_half minc maxc h lo0 hi0 lo hi hh cs ks j :
  wf minc maxc h lo0 hi0 (mkNode hh cs ks) = true -> (j < length cs)%nat ->
  lo <= Z.of_nat j <= hi ->
  wf minc maxc h lo hi (mkNode [] (firstn j cs) (firstn (S j) ks)) = true.
Proof.
  intros Hw Hj Hb. destruct h as [| h].
  - apply wf_leaf in Hw. apply wf_leaf. cbn [Contents Children] in *. destruct Hw as [_ ->].
    unfold len. rewrite length_firstn, Nat.min_l by lia. split; [lia |]. destruct j; reflexivity.
  - apply wf_node in Hw. apply wf_node. cbn [Contents Children] in *. destruct Hw as [_ [Hl Hks]].
    unfold len. rewrite !length_firstn, !Nat.min_l by lia. split; [lia |]. split; [lia |].
    apply Forall_firstn, Hks.
Qed.

Lemma wf_right_half minc maxc h lo0 hi0 lo hi hh cs ks j :
  wf minc maxc h lo0 hi0 (mkNode hh cs ks) = true -> (j < length cs)%nat ->
  lo <= Z.of_nat (length cs - S j) <= hi ->
  wf minc maxc h lo hi (mkNode [] (skipn (S j) cs) (skipn (S j) ks)) = true.
Proof.
  intros Hw Hj Hb. destruct h as [| h].
  - apply wf_leaf in Hw. apply wf_leaf. cbn [Contents Children] in *. destruct Hw as [_ ->].
    unfold len. rewrite length_skipn. split; [lia |]. destruct j; reflexivity.
  - apply wf_node in Hw. apply wf_node. cbn [Contents Children] in *. destruct Hw as [_ [Hl Hks]].
    unfold len. rewrite !length_skipn. split; [lia |]. split; [lia |].
    apply Forall_skipn, Hks.
Qed.

Lemma wf_with_contents minc maxc h lo hi cs x :
  length cs = length (Contents x) ->
  wf minc maxc h lo hi (with_contents cs x) = wf minc maxc h lo hi x.
Proof.
  destruct x as [hx cx kx]. cbn [Contents]. intros H.
  destruct h; cbn [wf with_contents Contents Children]; unfold len; rewrite H; reflexivity.
Qed.

Lemma wf_root_plug minc maxc h ctx x :
  ctx_ok minc maxc h ctx = true -> wf minc maxc h (lo_of minc ctx) maxc x = true ->
  wf minc maxc (height (plug ctx x)) 1 maxc (plug ctx x) = true.
Proof.
  intros Hc Hx. destruct ctx as [| f c].
  - cbn in *. rewrite (wf_height _ _ _ _ _ _ Hx). exact Hx.
  - pose proof (wf_plug minc maxc c h f x Hc Hx) as Hw.
    rewrite (wf_height _ _ _ _ _ _ Hw). exact Hw.
Qed.

(** ** The invariant through the erased view *)

Lemma btree_ok_view t R s mm :
  view t = (Some R, s, mm) ->
  btree_ok t = (3 <=? mm) && wf (minContents mm) (maxContents mm) (height R) 1 (maxContents mm) R &&
               sorted_keys (inorder R) && (s =? len (inorder R)).
Proof.
  intros Hv. destruct (view_root _ _ _ _ Hv) as [r [Er [<- [<- <-]]]].
  unfold btree_ok. rewrite Er, <- wf_erase, <- height_erase, <- inorder_erase.
  rewrite !andb_assoc. reflexivity.
Qed.

Lemma items_view t R s mm : view t = (Some R, s, mm) -> items t = inorder R.
Proof.
  intros Hv. destruct (view_root _ _ _ _ Hv) as [r [Er [<- _]]].
  unfold items. rewrite Er, inorder_erase. reflexivity.
Qed.

(** ** The list surgery of a split, on a node seen through [erase] *)

Lemma erase_calc_local CH S x : erase (calc_local CH S x) = erase x.
Proof. unfold calc_local. destruct (node_hash CH S x); [apply erase_with_hash | reflexivity]. Qed.

Lemma erase_facts n N : erase n = N -> Contents n = Contents N /\ map erase (Children n) = Children N.
Proof. intros <-. rewrite erase_Contents, erase_Children. split; reflexivity. Qed.

Lemma insert_at_frame f x :
  insert_index (fcontents f) (Z.of_nat (length (fl f))) x = Some (map snd (fl f) ++ x :: map fst (fr f)).
Proof.
  unfold fcontents. rewrite insert_index_ok.
  - rewrite Nat2Z.id. rewrite <- (length_map snd (fl f)), firstn_len_app, skipn_len_app. reflexivity.
  - unfold len. rewrite length_app, !length_map. lia.
Qed.

Lemma set_at_frame ks f x y :
  map erase ks = map fst (fl f) ++ x :: map snd (fr f) ->
  exists ks', set_index ks (Z.of_nat (length (fl f))) y = Some ks' /\
              map erase ks' = map fst (fl f) ++ erase y :: map snd (fr f).
Proof.
  intros Hks. assert (Hl : length ks = (length (fl f) + S (length (fr f)))%nat).
  { rewrite <- (length_map erase ks), Hks, length_app. cbn [length]. rewrite !length_map. reflexivity. }
  rewrite set_index_ok by (unfold len; lia). eexists. split; [reflexivity |].
  rewrite Nat2Z.id, map_app. cbn [map]. rewrite <- firstn_map, <- skipn_map, Hks.
  rewrite <- (length_map fst (fl f)), firstn_len_app.
  replace (S (length (map fst (fl f)))) with (length (map fst (fl f) ++ [x]))
    by (rewrite length_app; cbn; lia).
  replace (map fst (fl f) ++ x :: map snd (fr f)) with ((map fst (fl f) ++ [x]) ++ map snd (fr f))
    by (rewrite <- app_assoc; reflexivity).
  rewrite skipn_len_app. reflexivity.
Qed.

Lemma insert_after_frame ks f x y :
  map erase ks = map fst (fl f) ++ x :: map snd (fr f) ->
  exists ks', insert_index ks (Z.of_nat (length (fl f)) + 1) y = Some ks' /\
              map erase ks' = map fst (fl f) ++ x :: erase y :: map snd (fr f).
Proof.
  intros Hks. assert (Hl : length ks = (length (fl f) + S (length (fr f)))%nat).
  { rewrite <- (length_map erase ks), Hks, length_app. cbn [length]. rewrite !length_map. reflexivity. }
  rewrite insert_index_ok by (unfold len; lia). eexists. split; [reflexivity |].
  replace (Z.to_nat (Z.of_nat (length (fl f)) + 1)) with (length (map fst (fl f) ++ [x]))
    by (rewrite length_app, length_map; cbn; lia).
  rewrite map_app. cbn [map]. rewrite <- firstn_map, <- skipn_map, Hks.
  replace (map fst (fl f) ++ x :: map snd (fr f)) with ((map fst (fl f) ++ [x]) ++ map snd (fr f))
    by (rewrite <- app_assoc; reflexivity).
  rewrite firstn_len_app, skipn_len_app, <- app_assoc. reflexivity.
Qed.

Lemma nth_error_frame_child (fl : list (Node * Item)) x rest :
  nth_error (map fst fl ++ x :: rest) (length fl) = Some x.
Proof. rewrite nth_error_app2; rewrite length_map; [| lia]. rewrite Nat.sub_diag. reflexivity. Qed.

Lemma nth_error_frame_next (fl : list (Node * Item)) x y rest :
  nth_error (map fst fl ++ x :: y :: rest) (S (length fl)) = Some y.
Proof.
  rewrite nth_error_app2; rewrite length_map; [| lia].
  replace (S (length fl) - length fl)%nat with 1%nat by lia. reflexivity.
Qed.

Lemma in_left_items f x : In x (map snd (fl f)) -> In x (left_items f).
Proof.
  unfold left_items. intros Hx. apply in_map_iff in Hx. destruct Hx as [[k c] [<- Hp]].
  apply in_concat. exists (inorder k ++ [c]). split.
  - apply in_map_iff. exists (k, c). auto.
  - apply in_or_app. right. left. reflexivity.
Qed.

Lemma in_right_items f x : In x (map fst (fr f)) -> In x (right_items f).
Proof.
  unfold right_items. intros Hx. apply in_map_iff in Hx. destruct Hx as [[c k] [<- Hp]].
  apply in_concat. exists (c :: inorder k). split.
  - apply in_map_iff. exists (c, k). auto.
  - left. reflexivity.
Qed.

(** An item of the hole's subtree falls between the separators of the frame. *)
Lemma search_frame f N x pn :
  StronglySorted ltk (inorder (fill f N)) -> In x (inorder N) -> erase pn = fill f N ->
  fst (search pn x) = Z.of_nat (length (fl f)).
Proof.
  intros Hs Hx Hpn. pose proof Hs as Hs'. rewrite inorder_fill in Hs'.
  assert (Hcs : Contents pn = map snd (fl f) ++ map fst (fr f))
    by (rewrite <- erase_Contents, Hpn; reflexivity).
  rewrite (search_app pn x (map snd (fl f)) (map fst (fr f))).
  - cbn. unfold len. rewrite length_map. reflexivity.
  - rewrite Hcs. apply (contents_sorted (fill f N)); [| exact Hs]. right.
    rewrite fill_Children, fill_Contents, len_fcontents, length_app. cbn [length].
    rewrite !length_map. lia.
  - exact Hcs.
  - apply Forall_forall. intros y Hy. eapply SS_lt; [exact Hs' | apply in_left_items, Hy |].
    apply in_or_app. left. exact Hx.
  - apply Forall_forall. intros y Hy. apply Z.lt_le_incl.
    rewrite app_assoc in Hs'. eapply SS_lt; [exact Hs' | | apply in_right_items, Hy].
    apply in_or_app. right. exact Hx.
Qed.

(** The children halves of a node being split. *)
Lemma runs_halves n (mid : Z) t (Q : list Node * list Node -> Tree -> Prop) :
  Children n = [] \/ length (Children n) = S (length (Contents n)) ->
  0 <= mid -> (Z.to_nat mid < length (Contents n))%nat ->
  Q (firstn (S (Z.to_nat mid)) (Children n), skipn (S (Z.to_nat mid)) (Children n)) t ->
  Runs (if isLeaf n then ret ([], [])
        else lk <- lift out_of_range (slice_to (Children n) (mid + 1));;
             rk <- lift out_of_range (slice_from (Children n) (mid + 1));;
             ret (lk, rk)) t Q.
Proof.
  intros Hk Hm Hlt HQ. unfold isLeaf. destruct (Children n) as [| k ks] eqn:E.
  - apply runs_ret. destruct (Z.to_nat mid); exact HQ.
  - destruct Hk as [Hk | Hk]; [discriminate |].
    replace (S (Z.to_nat mid)) with (Z.to_nat (mid + 1)) in HQ by lia.
    apply runs_bind. eapply runs_lift; [apply slice_to_ok; unfold len; lia |].
    apply runs_bind. eapply runs_lift; [apply slice_from_ok; unfold len; lia |].
    apply runs_ret. exact HQ.
Qed.

Lemma children_shape n N :
  erase n = N -> Children N = [] \/ length (Children N) = S (length (Contents N)) ->
  Children n = [] \/ length (Children n) = S (length (Contents n)).
Proof.
  intros Hn HN. destruct (erase_facts _ _ Hn) as [Hc Hk]. rewrite Hc.
  destruct HN as [E | E].
  - left. rewrite <- Hk in E. destruct (Children n); [reflexivity | discriminate].
  - right. rewrite <- E, <- Hk, length_map. reflexivity.
Qed.

Lemma middle_bounds mm : 3 <= mm -> 0 <= middle mm /\ middle mm + 1 <= mm.
Proof. unfold middle. intros H. Z.to_euclidean_division_equations. lia. Qed.

(** [splitNonRoot] on the overfull node in the hole of [f :: c]: the parent
    gets the middle item, with the two halves as its children around it. *)
Lemma runs_splitNonRoot CH Sum f c N t s mm (Q : unit -> Tree -> Prop) :
  view t = (Some (plug c (fill f N)), s, mm) -> 3 <= mm ->
  len (Contents N) = mm ->
  Children N = [] \/ length (Children N) = S (length (Contents N)) ->
  StronglySorted ltk (inorder (fill f N)) ->
  (forall sep t', nth_error (Contents N) (Z.to_nat (middle mm)) = Some sep ->
     view t' = (Some (plug c (fill
        (mkFrame (fl f) ((sep, mkNode [] (skipn (S (Z.to_nat (middle mm))) (Contents N))
                                           (skipn (S (Z.to_nat (middle mm))) (Children N))) :: fr f))
        (mkNode [] (firstn (Z.to_nat (middle mm)) (Contents N))
                   (firstn (S (Z.to_nat (middle mm))) (Children N))))), s, mm) ->
     Q tt t') ->
  Runs (splitNonRoot CH Sum (length (fl f) :: ctx_addr c) (ctx_addr c)) t Q.
Proof.
  intros Hv Hmm HlN HkN Hs HQ.
  destruct (view_root _ _ _ _ Hv) as [r0 [_ [_ [_ Hm]]]].
  pose proof (middle_bounds mm Hmm) as Hmid.
  unfold splitNonRoot. apply runs_get. cbv beta zeta. rewrite Hm.
  apply runs_bind. eapply runs_getNode; [exact Hv | exact (node_at_plug0 (f :: c) N) |].
  intros n Hn. pose proof (children_shape n N Hn HkN) as Hkn'.
  destruct (erase_facts _ _ Hn) as [Hcn Hkn].
  apply runs_bind. eapply runs_lift; [rewrite slice_to_ok; [reflexivity | rewrite Hcn; lia] |].
  apply runs_bind. eapply runs_lift; [rewrite slice_from_ok; [reflexivity | rewrite Hcn; lia] |].
  replace (Z.to_nat (middle mm + 1)) with (S (Z.to_nat (middle mm))) by lia.
  apply runs_bind. apply runs_halves; [exact Hkn' | lia | rewrite Hcn; unfold len in HlN; lia |].
  cbv beta zeta. cbn [fst snd].
  destruct (nth_error_len (Contents N) (Z.to_nat (middle mm))) as [sep Hsep];
    [unfold len in HlN; lia |].
  apply runs_bind. eapply runs_lift; [rewrite index_ok by lia; rewrite Hcn; exact Hsep |].
  apply runs_bind. eapply runs_getNode; [exact Hv | apply node_at_plug0 |]. intros pn Hpn.
  assert (HsepN : In sep (inorder N))
    by (apply contents_in_inorder; [exact HkN | eapply nth_error_In; exact Hsep]).
  rewrite (search_frame f N sep pn Hs HsepN Hpn).
  assert (Hcp : Contents pn = fcontents f) by (rewrite <- erase_Contents, Hpn; reflexivity).
  apply runs_bind. eapply runs_lift; [rewrite Hcp; apply insert_at_frame |].
  apply runs_bind. eapply runs_setContents; [exact Hv | apply node_at_plug0 |].
  intros t1 Hv1. rewrite update_at_plug0 in Hv1.
  apply runs_bind. eapply runs_getNode; [exact Hv1 | apply node_at_plug0 |]. intros pn2 Hpn2.
  destruct (erase_facts _ _ Hpn2) as [_ Hk2]. cbn in Hk2.
  destruct (set_at_frame (Children pn2) f N
              (mkNode [] (firstn (Z.to_nat (middle mm)) (Contents n))
                         (firstn (S (Z.to_nat (middle mm))) (Children n))) Hk2) as [pks [Epks Hpks]].
  apply runs_bind. eapply runs_lift; [exact Epks |].
  apply runs_bind. eapply runs_setChildren; [exact Hv1 | apply node_at_plug0 |].
  intros t2 Hv2. rewrite update_at_plug0, Hpks in Hv2.
  apply runs_bind. eapply runs_getNode; [exact Hv2 | apply node_at_plug0 |]. intros pn3 Hpn3.
  destruct (erase_facts _ _ Hpn3) as [_ Hk3]. cbn in Hk3.
  destruct (insert_after_frame (Children pn3) f _
              (mkNode [] (skipn (S (Z.to_nat (middle mm))) (Contents n))
                         (skipn (S (Z.to_nat (middle mm))) (Children n))) Hk3) as [pks2 [Epks2 Hpks2]].
  apply runs_bind. eapply runs_lift; [exact Epks2 |].
  apply runs_bind. eapply runs_setChildren; [exact Hv2 | apply node_at_plug0 |].
  intros t3 Hv3. rewrite update_at_plug0, Hpks2 in Hv3.
  rewrite Nat2Z.id.
  replace (Z.to_nat (Z.of_nat (length (fl f)) + 1)) with (S (length (fl f))) by lia.
  apply runs_bind. eapply runs_CalculateHash; [exact Hv3 | | intros o4 t4 Hv4].
  { change (length (fl f) :: ctx_addr c) with ([length (fl f)] ++ ctx_addr c).
    rewrite node_at_plug. apply nth_error_frame_child. }
  apply runs_bind. eapply runs_CalculateHash; [exact Hv4 | | intros o5 t5 Hv5].
  { change (S (length (fl f)) :: ctx_addr c) with ([S (length (fl f))] ++ ctx_addr c).
    rewrite node_at_plug. apply nth_error_frame_next. }
  apply runs_bind. eapply runs_CalculateHash; [exact Hv5 | apply node_at_plug0 | intros o6 t6 Hv6].
  apply runs_ret. apply (HQ sep t6 Hsep). rewrite Hv6. do 4 f_equal.
  unfold fill, with_children, with_contents. cbn [Hash Contents Children fl fr map erase].
  rewrite Hcn, <- Hkn, firstn_map, skipn_map. reflexivity.
Qed.

Lemma caps_facts mm : 3 <= mm ->
  1 <= minContents mm /\ middle mm = minContents mm /\
  2 * minContents mm <= maxContents mm /\ maxContents mm = mm - 1.
Proof.
  unfold minContents, maxContents, minChildren, maxChildren, middle. intros H.
  replace (mm + 1) with (mm - 1 + 1 * 2) by lia. rewrite Z.div_add by lia.
  pose proof (Z.mul_div_le (mm - 1) 2 ltac:(lia)).
  pose proof (Z.div_le_mono 2 (mm - 1) 2 ltac:(lia) ltac:(lia)) as Hq.
  rewrite Z.div_same in Hq by lia. lia.
Qed.

Lemma wf_hi minc maxc h lo hi hi' n :
  wf minc maxc h lo hi n = true -> len (Contents n) <= hi' -> wf minc maxc h lo hi' n = true.
Proof.
  intros Hw Hb. destruct h as [| h].
  - apply wf_leaf in Hw. apply wf_leaf. destruct Hw as [Hb0 Hk]. split; [lia | exact Hk].
  - apply wf_node in Hw. apply wf_node. destruct Hw as [Hb0 Hk]. split; [lia | exact Hk].
Qed.

Lemma wf_lo minc maxc h lo lo' hi n :
  wf minc maxc h lo hi n = true -> lo' <= len (Contents n) -> wf minc maxc h lo' hi n = true.
Proof.
  intros Hw Hb. destruct h as [| h].
  - apply wf_leaf in Hw. apply wf_leaf. destruct Hw as [Hb0 Hk]. split; [lia | exact Hk].
  - apply wf_node in Hw. apply wf_node. destruct Hw as [Hb0 Hk]. split; [lia | exact Hk].
Qed.

(** [splitRoot] on an overfull root: a new root with the middle item. *)
Lemma runs_splitRoot CH Sum N t s mm (Q : unit -> Tree -> Prop) :
  view t = (Some N, s, mm) -> 3 <= mm -> len (Contents N) = mm ->
  Children N = [] \/ length (Children N) = S (length (Contents N)) ->
  (forall sep t', nth_error (Contents N) (Z.to_nat (middle mm)) = Some sep ->
     view t' = (Some (mkNode [] [sep]
        [mkNode [] (firstn (Z.to_nat (middle mm)) (Contents N))
                   (firstn (S (Z.to_nat (middle mm))) (Children N));
         mkNode [] (skipn (S (Z.to_nat (middle mm))) (Contents N))
                   (skipn (S (Z.to_nat (middle mm))) (Children N))]), s, mm) ->
     Q tt t') ->
  Runs (splitRoot CH Sum) t Q.
Proof.
  intros Hv Hmm HlN HkN HQ.
  destruct (view_root _ _ _ _ Hv) as [r0 [_ [_ [Hs Hm]]]].
  pose proof (middle_bounds mm Hmm) as Hmid.
  unfold splitRoot. apply runs_get. cbv beta zeta. rewrite Hm.
  apply runs_bind. eapply runs_getNode; [exact Hv | reflexivity |].
  intros n Hn. pose proof (children_shape n N Hn HkN) as Hkn'.
  destruct (erase_facts _ _ Hn) as [Hcn Hkn].
  apply runs_bind. eapply runs_lift; [rewrite slice_to_ok; [reflexivity | rewrite Hcn; lia] |].
  apply runs_bind. eapply runs_lift; [rewrite slice_from_ok; [reflexivity | rewrite Hcn; lia] |].
  replace (Z.to_nat (middle mm + 1)) with (S (Z.to_nat (middle mm))) by lia.
  apply runs_bind. apply runs_halves; [exact Hkn' | lia | rewrite Hcn; unfold len in HlN; lia |].
  cbv beta zeta. cbn [fst snd].
  destruct (nth_error_len (Contents N) (Z.to_nat (middle mm))) as [sep Hsep];
    [unfold len in HlN; lia |].
  apply runs_bind. eapply runs_lift; [rewrite index_ok by lia; rewrite Hcn; exact Hsep |].
  apply runs_get. apply runs_bind. apply runs_put.
  assert (Hv1 : view (with_root (Some (mkNode [] [sep]
                 [calc_local CH Sum (mkNode [] (firstn (Z.to_nat (middle mm)) (Contents n))
                                     (firstn (S (Z.to_nat (middle mm))) (Children n)));
                  calc_local CH Sum (mkNode [] (skipn (S (Z.to_nat (middle mm))) (Contents n))
                                     (skipn (S (Z.to_nat (middle mm))) (Children n)))])) t) =
                (Some (mkNode [] [sep]
        [mkNode [] (firstn (Z.to_nat (middle mm)) (Contents N))
                   (firstn (S (Z.to_nat (middle mm))) (Children N));
         mkNode [] (skipn (S (Z.to_nat (middle mm))) (Contents N))
                   (skipn (S (Z.to_nat (middle mm))) (Children N))]), s, mm)).
  { unfold view, eroot, with_root. cbn [Root size m option_map erase map].
    rewrite !erase_calc_local. cbn [erase]. rewrite Hcn, <- Hkn, firstn_map, skipn_map, Hs, Hm.
    reflexivity. }
  apply runs_bind. eapply runs_CalculateHash; [exact Hv1 | reflexivity | intros o t2 Hv2].
  apply runs_ret. exact (HQ sep t2 Hsep Hv2).
Qed.

Lemma wf_children minc maxc h lo hi n :
  wf minc maxc h lo hi n = true -> Children n = [] \/ length (Children n) = S (length (Contents n)).
Proof.
  destruct h as [| h]; intros Hw.
  - left. apply wf_leaf in Hw. apply Hw.
  - right. apply wf_node in Hw. apply Hw.
Qed.

Lemma inorder_halves N sep j :
  nth_error (Contents N) j = Some sep ->
  Children N = [] \/ length (Children N) = S (length (Contents N)) ->
  inorder (mkNode [] (firstn j (Contents N)) (firstn (S j) (Children N))) ++
  sep :: inorder (mkNode [] (skipn (S j) (Contents N)) (skipn (S j) (Children N))) = inorder N.
Proof. destruct N as [hN cN kN]. intros H1 H2. symmetry. apply inorder_split; assumption. Qed.

Lemma inorder_split_frame c f N L sep Rt :
  inorder L ++ sep :: inorder Rt = inorder N ->
  inorder (plug c (fill (mkFrame (fl f) ((sep, Rt) :: fr f)) L)) = inorder (plug (f :: c) N).
Proof.
  intros H. cbn [plug]. rewrite !inorder_plug, !inorder_fill, <- H.
  unfold left_items, right_items. cbn [fl fr map concat]. rewrite <- !app_assoc. reflexivity.
Qed.

Lemma SS_plug_fill c f N :
  StronglySorted ltk (inorder (plug c (fill f N))) -> StronglySorted ltk (inorder (fill f N)).
Proof.
  rewrite inorder_plug. intros H. apply SS_app in H. destruct H as [_ [H _]].
  apply SS_app in H. tauto.
Qed.

Lemma wf_fill_split minc maxc h lo hi f L sep Rt :
  lo <= len (fcontents f) + 1 <= hi ->
  forallb (wf minc maxc h minc maxc) (fsiblings f) = true ->
  wf minc maxc h minc maxc L = true -> wf minc maxc h minc maxc Rt = true ->
  wf minc maxc (S h) lo hi (fill (mkFrame (fl f) ((sep, Rt) :: fr f)) L) = true.
Proof.
  intros Hb Hs HL HR. apply wf_fill. unfold fcontents, fsiblings in *. cbn [fl fr map].
  split; [unfold len in *; rewrite length_app in *; cbn [length]; lia |].
  split; [exact HL |]. rewrite forallb_forall in Hs |- *. intros x Hx.
  apply in_app_or in Hx. destruct Hx as [Hx | [<- | Hx]].
  - apply Hs, in_or_app. left. exact Hx.
  - exact HR.
  - apply Hs, in_or_app. right. exact Hx.
Qed.

(** [split] from the node in the hole of [ctx], which may hold one item too
    many: afterwards the tree is a well-formed B-tree with the same items. *)
Lemma runs_split CH Sum mm s (Hmm : 3 <= mm) : forall ctx N h t,
  view t = (Some (plug ctx N), s, mm) ->
  ctx_ok (minContents mm) (maxContents mm) h ctx = true ->
  wf (minContents mm) (maxContents mm) h (lo_of (minContents mm) ctx) (maxContents mm + 1) N = true ->
  StronglySorted ltk (inorder (plug ctx N)) ->
  Runs (split CH Sum (ctx_addr ctx)) t (fun _ t' => exists R', view t' = (Some R', s, mm) /\
     wf (minContents mm) (maxContents mm) (height R') 1 (maxContents mm) R' = true /\
     inorder R' = inorder (plug ctx N)).
Proof.
  destruct (caps_facts mm Hmm) as [Hmin [Hmid [H2 Hmax]]].
  induction ctx as [| f c IH]; intros N h t Hv Hc Hw Hs;
    destruct (view_root _ _ _ _ Hv) as [r0 [_ [_ [_ Hm]]]];
    pose proof (wf_children _ _ _ _ _ _ Hw) as HkN; pose proof (wf_bounds _ _ _ _ _ _ Hw) as HbN;
    cbn [ctx_addr map split]; apply runs_get; apply runs_bind.
  - eapply runs_getNode; [exact Hv | reflexivity |]. intros n Hn. cbn [plug] in *.
    destruct (erase_facts _ _ Hn) as [Hcn Hkn].
    unfold shouldSplit. rewrite Hm, Hcn.
    destruct (maxContents mm <? len (Contents N)) eqn:E; cbn [negb].
    + apply Z.ltb_lt in E. eapply runs_splitRoot; [exact Hv | exact Hmm | lia | exact HkN |].
      intros sep t' Hsep Hv'. eexists. split; [exact Hv' |].
      assert (HmZ : Z.of_nat (Z.to_nat (middle mm)) = minContents mm) by lia.
      assert (Hlen : Z.of_nat (length (Contents N)) = mm) by (unfold len in E, HbN; lia).
      destruct N as [hN cN kN]. cbn [Contents Children] in *.
      assert (HL : wf (minContents mm) (maxContents mm) h (minContents mm) (maxContents mm)
                     (mkNode [] (firstn (Z.to_nat (middle mm)) cN) (firstn (S (Z.to_nat (middle mm))) kN)) = true)
        by (eapply wf_left_half; [exact Hw | lia | lia]).
      assert (HR : wf (minContents mm) (maxContents mm) h (minContents mm) (maxContents mm)
                     (mkNode [] (skipn (S (Z.to_nat (middle mm))) cN) (skipn (S (Z.to_nat (middle mm))) kN)) = true)
        by (eapply wf_right_half; [exact Hw | lia | lia]).
      split.
      * assert (Hh : forall x y z, height (mkNode [] [z] [x; y]) = S (height x)) by reflexivity.
        rewrite Hh, (wf_height _ _ _ _ _ _ HL). apply wf_node. cbn [Contents Children length].
        split; [unfold len; cbn; lia |]. split; [reflexivity |].
        constructor; [exact HL | constructor; [exact HR | constructor]].
      * cbn [plug]. rewrite <- (inorder_halves (mkNode hN cN kN) sep (Z.to_nat (middle mm)) Hsep HkN).
        cbn [inorder weave map Contents Children]. rewrite app_nil_r. reflexivity.
    + apply Z.ltb_ge in E. apply runs_bind. eapply runs_ReCalc; [exact Hv | reflexivity | intros o t' Hv'].
      apply runs_ret. exists (plug [] N). split; [exact Hv' |]. split; [| reflexivity].
      eapply wf_root_plug; [exact Hc | eapply wf_hi; [exact Hw | exact E]].
  - eapply runs_getNode; [exact Hv | exact (node_at_plug0 (f :: c) N) |]. intros n Hn.
    destruct (erase_facts _ _ Hn) as [Hcn Hkn].
    unfold shouldSplit. rewrite Hm, Hcn.
    destruct (maxContents mm <? len (Contents N)) eqn:E; cbn [negb].
    + apply Z.ltb_lt in E. apply ctx_ok_cons in Hc. destruct Hc as [Hbf [Hsib Hc]].
      change (map (fun f0 : Frame => length (fl f0)) c) with (ctx_addr c).
      apply runs_bind. eapply (runs_splitNonRoot CH Sum f c N);
        [exact Hv | exact Hmm | lia | exact HkN | apply (SS_plug_fill c); exact Hs |].
      intros sep t' Hsep Hv'.
      assert (HmZ : Z.of_nat (Z.to_nat (middle mm)) = minContents mm) by lia.
      assert (Hlen : Z.of_nat (length (Contents N)) = mm) by (unfold len in E, HbN; lia).
      pose proof (inorder_halves N sep (Z.to_nat (middle mm)) Hsep HkN) as Hhalves.
      destruct N as [hN cN kN]. cbn [Contents Children] in *.
      assert (HL : wf (minContents mm) (maxContents mm) h (minContents mm) (maxContents mm)
                     (mkNode [] (firstn (Z.to_nat (middle mm)) cN) (firstn (S (Z.to_nat (middle mm))) kN)) = true)
        by (eapply wf_left_half; [exact Hw | lia | lia]).
      assert (HR : wf (minContents mm) (maxContents mm) h (minContents mm) (maxContents mm)
                     (mkNode [] (skipn (S (Z.to_nat (middle mm))) cN) (skipn (S (Z.to_nat (middle mm))) kN)) = true)
        by (eapply wf_right_half; [exact Hw | lia | lia]).
      eapply runs_weaken; [apply (IH _ (S h) t' Hv' Hc) |].
      * apply wf_fill_split; [| exact Hsib | exact HL | exact HR].
        destruct c; cbn [lo_of] in *; lia.
      * rewrite (inorder_split_frame c f _ _ _ _ Hhalves). exact Hs.
      * intros u t'' [R' [Hv'' [Hw'' Hi'']]]. exists R'. split; [exact Hv'' |].
        split; [exact Hw'' |]. rewrite Hi''. apply inorder_split_frame, Hhalves.
    + apply Z.ltb_ge in E. apply runs_bind.
      eapply runs_ReCalc; [exact Hv | exact (node_at_plug0 (f :: c) N) |].
      intros o t' Hv'. apply runs_ret. exists (plug (f :: c) N). split; [exact Hv' |].
      split; [| reflexivity].
      eapply wf_root_plug; [exact Hc | eapply wf_hi; [exact Hw | exact E]].
Qed.

(** ** Insertion *)

Lemma ins_sorted x l : StronglySorted ltk l -> StronglySorted ltk (ins x l).
Proof.
  induction l as [| y l IH]; intros Hs; cbn; [repeat constructor |].
  apply StronglySorted_inv in Hs as Hs'. destruct Hs' as [Hl Hy].
  destruct (Key x <? Key y) eqn:E1; [| destruct (Key x =? Key y) eqn:E2].
  - apply Z.ltb_lt in E1. constructor; [exact Hs |]. constructor; [exact E1 |].
    eapply Forall_impl; [| exact Hy]. unfold ltk. intros a Ha. lia.
  - apply Z.eqb_eq in E2. constructor; [exact Hl |].
    eapply Forall_impl; [| exact Hy]. unfold ltk. intros a Ha. lia.
  - apply Z.ltb_ge in E1. apply Z.eqb_neq in E2. constructor; [apply IH, Hl |].
    assert (Hx : forall z, In z (ins x l) -> z = x \/ In z l).
    { clear. induction l as [| w l IH]; cbn; intros z Hz.
      - destruct Hz as [<- | []]. left; reflexivity.
      - destruct (Key x <? Key w); [| destruct (Key x =? Key w)]; cbn in Hz.
        + destruct Hz as [<- | Hz]; [left; reflexivity | right; exact Hz].
        + destruct Hz as [<- | Hz]; [left; reflexivity | right; right; exact Hz].
        + destruct Hz as [<- | Hz]; [right; left; reflexivity |].
          destruct (IH z Hz) as [-> | Hz']; [left; reflexivity | right; right; exact Hz']. }
    apply Forall_forall. intros z Hz. destruct (Hx z Hz) as [-> | Hz'].
    + unfold ltk. lia.
    + rewrite Forall_forall in Hy. apply Hy, Hz'.
Qed.

Lemma strict_above k l2 :
  Forall (fun c => k <= Key c) l2 -> StronglySorted ltk l2 ->
  match l2 with c :: _ => Key c =? k | [] => false end = false ->
  Forall (fun c => k < Key c) l2.
Proof.
  destruct l2 as [| c l2]; intros H1 H2 H3; [constructor |].
  apply Z.eqb_neq in H3. inversion H1; subst. constructor; [lia |].
  apply StronglySorted_inv in H2. destruct H2 as [_ H2].
  eapply Forall_impl; [| exact H2]. unfold ltk. intros a Ha. lia.
Qed.

Lemma SS_hole ctx N :
  StronglySorted ltk (inorder (plug ctx N)) -> StronglySorted ltk (inorder N).
Proof.
  rewrite inorder_plug. intros H. apply SS_app in H. destruct H as [_ [H _]].
  apply SS_app in H. tauto.
Qed.

Lemma skipn_S_len_app {A} (l1 : list A) c l2 : skipn (S (length l1)) (l1 ++ c :: l2) = l2.
Proof. induction l1 as [| x l1 IH]; cbn; [reflexivity | exact IH]. Qed.

Lemma inorder_mid hN l1 c l2 kN :
  kN = [] \/ length kN = S (length (l1 ++ c :: l2)) ->
  inorder (mkNode hN (l1 ++ c :: l2) kN) =
  inorder (mkNode [] l1 (firstn (S (length l1)) kN)) ++ c ::
  inorder (mkNode [] l2 (skipn (S (length l1)) kN)).
Proof.
  intros Hk. rewrite (inorder_split hN _ kN (length l1) c).
  - rewrite firstn_len_app, skipn_S_len_app. reflexivity.
  - rewrite nth_error_app2, Nat.sub_diag by lia. reflexivity.
  - exact Hk.
Qed.

(** Overwriting the item of the searched key in the node in the hole. *)
Lemma runs_overwrite_items CH Sum mm s item ctx N h t l1 c l2 :
  view t = (Some (plug ctx N), s, mm) ->
  Contents N = l1 ++ c :: l2 -> Key c = Key item ->
  ctx_ok (minContents mm) (maxContents mm) h ctx = true ->
  wf (minContents mm) (maxContents mm) h (lo_of (minContents mm) ctx) (maxContents mm) N = true ->
  StronglySorted ltk (inorder (plug ctx N)) ->
  Runs (setContentAt (ctx_addr ctx) (len l1) item;; ReCalculateMerkleRoot CH Sum (ctx_addr ctx);; ret false) t
    (fun b t' => exists R', view t' = (Some R', s, mm) /\
       R' = plug ctx (with_contents (l1 ++ item :: l2) N) /\
       wf (minContents mm) (maxContents mm) (height R') 1 (maxContents mm) R' = true /\
       inorder R' = ins item (inorder (plug ctx N)) /\
       length (inorder R') = (length (inorder (plug ctx N)) + (if b then 1 else 0))%nat).
Proof.
  intros Hv Hcs Hk Hc Hw Hs.
  pose proof (wf_children _ _ _ _ _ _ Hw) as HkN.
  apply runs_bind. unfold setContentAt. apply runs_bind.
  eapply runs_getNode; [exact Hv | apply node_at_plug0 |]. intros n Hn.
  destruct (erase_facts _ _ Hn) as [Hcn _].
  apply runs_bind. eapply runs_lift.
  { rewrite Hcn, Hcs, set_index_ok.
    - unfold len. rewrite Nat2Z.id, firstn_len_app, skipn_S_len_app. reflexivity.
    - unfold len. rewrite length_app. cbn. lia. }
  eapply runs_setContents; [exact Hv | apply node_at_plug0 |]. intros t1 Hv1.
  rewrite update_at_plug0 in Hv1. apply runs_bind.
  eapply runs_ReCalc; [exact Hv1 | apply node_at_plug0 | intros o t2 Hv2].
  apply runs_ret. eexists. split; [exact Hv2 |]. split; [reflexivity |].
  destruct N as [hN cN kN]. cbn [Contents Children] in *. subst cN.
  unfold with_contents. cbn [Hash Contents Children].
  assert (HkN' : kN = [] \/ length kN = S (length (l1 ++ item :: l2)))
    by (rewrite !length_app in *; cbn [length] in *; exact HkN).
  rewrite inorder_plug in Hs |- *. rewrite inorder_plug.
  rewrite (inorder_mid hN l1 c l2 kN HkN) in Hs |- *. rewrite (inorder_mid hN l1 item l2 kN HkN').
  set (P1 := inorder (mkNode [] l1 (firstn (S (length l1)) kN))) in *.
  set (P2 := inorder (mkNode [] l2 (skipn (S (length l1)) kN))) in *.
  split; [| split].
  - eapply wf_root_plug; [exact Hc |].
    change (mkNode hN (l1 ++ item :: l2) kN)
      with (with_contents (l1 ++ item :: l2) (mkNode hN (l1 ++ c :: l2) kN)).
    rewrite wf_with_contents; [exact Hw |]. cbn [Contents]. rewrite !length_app. reflexivity.
  - replace (ctx_left ctx ++ (P1 ++ c :: P2) ++ ctx_right ctx)
      with ((ctx_left ctx ++ P1) ++ c :: (P2 ++ ctx_right ctx)) in Hs |- *
      by (rewrite <- !app_assoc; reflexivity).
    rewrite ins_at_eq; [rewrite <- !app_assoc; reflexivity | | exact Hk].
    rewrite <- Hk. exact (SS_before _ _ _ Hs).
  - rewrite !length_app. cbn [length]. lia.
Qed.

Lemma runs_overwrite CH Sum mm s item ctx N h t l1 c l2 :
  view t = (Some (plug ctx N), s, mm) ->
  Contents N = l1 ++ c :: l2 -> Key c = Key item ->
  ctx_ok (minContents mm) (maxContents mm) h ctx = true ->
  wf (minContents mm) (maxContents mm) h (lo_of (minContents mm) ctx) (maxContents mm) N = true ->
  StronglySorted ltk (inorder (plug ctx N)) ->
  Runs (setContentAt (ctx_addr ctx) (len l1) item;; ReCalculateMerkleRoot CH Sum (ctx_addr ctx);; ret false) t
    (fun b t' => exists R', view t' = (Some R', s, mm) /\
       wf (minContents mm) (maxContents mm) (height R') 1 (maxContents mm) R' = true /\
       inorder R' = ins item (inorder (plug ctx N)) /\
       length (inorder R') = (length (inorder (plug ctx N)) + (if b then 1 else 0))%nat /\
       (b = false -> overwrote item t t')).
Proof.
  intros Hv Hcs Hk Hc Hw Hs.
  eapply runs_weaken;
    [apply runs_and_ok with (P := fun v t' => v = false /\ hframe (ctx_addr ctx) t t');
       [eapply runs_overwrite_items; eauto |] |].
  - intros v t' H. apply ok_bind in H. destruct H as [u [t1 [H1 H]]].
    apply ok_bind in H. destruct H as [o [t2 [H2 H3]]]. apply ok_ret in H3. destruct H3 as [-> ->].
    split; [reflexivity |]. eapply hframe_trans; [eapply hframe_setContentAt, H1 |].
    eapply hframe_ReCalc; [exists []; reflexivity | exact H2].
  - intros b t' [[R' [Hv' [-> [Hw' [Hi' Hl']]]]] [-> [r [r' [Er [Er' Hh]]]]]].
    exists (plug ctx (with_contents (l1 ++ item :: l2) N)).
    split; [exact Hv' |]. split; [exact Hw' |]. split; [exact Hi' |]. split; [exact Hl' |].
    intros _. destruct (view_root _ _ _ _ Hv) as [r0 [Er0 [Ee0 _]]].
    destruct (view_root _ _ _ _ Hv') as [r1 [Er1 [Ee1 _]]].
    rewrite Er in Er0. inversion Er0; subst r0. rewrite Er' in Er1. inversion Er1; subst r1.
    pose proof (node_at_plug0 ctx (with_contents (l1 ++ item :: l2) N)) as Hn.
    rewrite <- Ee1, node_at_erase in Hn.
    destruct (node_at r' (ctx_addr ctx)) as [n' |] eqn:En'; [| discriminate]. inversion Hn as [Hn'].
    exists (ctx_addr ctx), r, r', n'. split; [exact Er |]. split; [exact Er' |]. split.
    + rewrite <- shape_erase, Ee1, <- (shape_erase r), Ee0, <- update_at_plug0.
      apply (shape_update_at _ _ _ N); [apply node_at_plug0 |].
      destruct N as [hN cN kN]. unfold with_contents. cbn [shape Contents Children] in *. subst cN.
      rewrite !map_app. cbn [map]. rewrite Hk. reflexivity.
    + split; [exact En' |]. split; [| exact Hh].
      rewrite <- erase_Contents, Hn'. unfold with_contents. cbn [Contents].
      apply in_or_app. right. left. reflexivity.
Qed.

Lemma Forall_head_lt k B :
  Forall (fun a => k < Key a) B -> match B with [] => True | b :: _ => k < Key b end.
Proof. destruct B as [| b B]; [trivial | intros H; inversion H; assumption]. Qed.

(** A new item in a leaf in the hole lands at its key's place. *)
Lemma inorder_leaf_ins ctx l1 l2 item :
  Forall (fun a => Key a < Key item) (ctx_left ctx ++ l1) ->
  Forall (fun a => Key item < Key a) (l2 ++ ctx_right ctx) ->
  inorder (plug ctx (mkNode [] (l1 ++ item :: l2) [])) =
  ins item (inorder (plug ctx (mkNode [] (l1 ++ l2) []))).
Proof.
  intros HA HB. rewrite !inorder_plug. cbn [inorder].
  replace (ctx_left ctx ++ (l1 ++ l2) ++ ctx_right ctx)
    with ((ctx_left ctx ++ l1) ++ l2 ++ ctx_right ctx) by (rewrite <- !app_assoc; reflexivity).
  rewrite ins_at; [rewrite <- !app_assoc; reflexivity | exact HA | apply Forall_head_lt, HB].
Qed.

(** [insert] from the node in the hole of [ctx], all of whose items lie
    between the items left and right of the hole: afterwards the tree is a
    well-formed B-tree holding [ins item] of the items, one more exactly
    when [insert] reports a new item. *)
Lemma runs_insert CH Sum mm s item (Hmm : 3 <= mm) (n : Node) : forall ctx h t,
  view t = (Some (plug ctx (erase n)), s, mm) ->
  ctx_ok (minContents mm) (maxContents mm) h ctx = true ->
  wf (minContents mm) (maxContents mm) h (lo_of (minContents mm) ctx) (maxContents mm) (erase n) = true ->
  StronglySorted ltk (inorder (plug ctx (erase n))) ->
  Forall (fun a => Key a < Key item) (ctx_left ctx) ->
  Forall (fun a => Key item < Key a) (ctx_right ctx) ->
  Runs (insert CH Sum n (ctx_addr ctx) item) t
    (fun b t' => exists R', view t' = (Some R', s, mm) /\
       wf (minContents mm) (maxContents mm) (height R') 1 (maxContents mm) R' = true /\
       inorder R' = ins item (inorder (plug ctx (erase n))) /\
       length (inorder R') = (length (inorder (plug ctx (erase n))) + (if b then 1 else 0))%nat /\
       (b = false -> overwrote item t t')).
Proof.
  induction n as [hn cs ks IH] using Node_ind'. intros ctx h t Hv Hc Hw Hs HL HR.
  cbn [erase] in *.
  pose proof (wf_children _ _ _ _ _ _ Hw) as HkN. cbn [Contents Children] in HkN.
  rewrite length_map in HkN.
  assert (Hcs : StronglySorted ltk cs).
  { apply (contents_sorted (mkNode [] cs (map erase ks))); [cbn [Contents Children]; rewrite length_map; destruct HkN as [-> | ->]; [left | right]; reflexivity |].
    exact (SS_hole ctx _ Hs). }
  destruct (sorted_split (Key item) cs Hcs) as [l1 [l2 [Ecs [H1 H2]]]].
  assert (Hsearch : forall x, Contents x = cs ->
            search x item = (len l1, match l2 with c :: _ => Key c =? Key item | [] => false end)).
  { intros x Hx. apply search_app; [rewrite Hx; exact Hcs | rewrite Hx; exact Ecs | exact H1 | exact H2]. }
  destruct (match l2 with c :: _ => Key c =? Key item | [] => false end) eqn:Ef.
  - (* the key is present: overwrite *)
    destruct l2 as [| c l2]; [discriminate |]. apply Z.eqb_eq in Ef.
    assert (Hov : Runs (setContentAt (ctx_addr ctx) (len l1) item;;
                        ReCalculateMerkleRoot CH Sum (ctx_addr ctx);; ret false) t
      (fun b t' => exists R', view t' = (Some R', s, mm) /\
         wf (minContents mm) (maxContents mm) (height R') 1 (maxContents mm) R' = true /\
         inorder R' = ins item (inorder (plug ctx (mkNode [] cs (map erase ks)))) /\
         length (inorder R') =
           (length (inorder (plug ctx (mkNode [] cs (map erase ks)))) + (if b then 1 else 0))%nat /\
         (b = false -> overwrote item t t')))
      by (eapply runs_overwrite; [exact Hv | exact Ecs | exact Ef | exact Hc | exact Hw | exact Hs]).
    destruct ks as [| k0 ks'].
    + cbn [insert]. unfold insertIntoLeaf. apply runs_bind.
      eapply runs_getNode; [exact Hv | apply node_at_plug0 |]. intros n' Hn'.
      destruct (erase_facts _ _ Hn') as [Hcn _]. rewrite (Hsearch n' Hcn). exact Hov.
    + cbn [insert]. rewrite (Hsearch (mkNode hn cs (k0 :: ks')) eq_refl). exact Hov.
  - (* the key is absent *)
    assert (H2s : Forall (fun a => Key item < Key a) l2).
    { apply strict_above; [exact H2 | | exact Ef]. rewrite Ecs in Hcs. apply SS_app in Hcs. tauto. }
    destruct ks as [| k0 ks'].
    + (* a leaf: insert, then split if it overflows *)
      destruct h as [| h]; [| apply wf_node in Hw; cbn [Children map length] in Hw; destruct Hw as [_ [Hw _]]; discriminate].
      cbn [insert]. unfold insertIntoLeaf. apply runs_bind.
      eapply runs_getNode; [exact Hv | apply node_at_plug0 |]. intros n' Hn'.
      destruct (erase_facts _ _ Hn') as [Hcn _]. cbn [Contents] in Hcn.
      rewrite (Hsearch n' Hcn). apply runs_bind. eapply runs_lift.
      { rewrite Hcn, Ecs, insert_index_ok.
        - unfold len. rewrite Nat2Z.id, firstn_len_app, skipn_len_app. reflexivity.
        - unfold len. rewrite length_app. lia. }
      apply runs_bind. eapply runs_setContents; [exact Hv | apply node_at_plug0 |]. intros t1 Hv1.
      rewrite update_at_plug0 in Hv1. unfold with_contents in Hv1. cbn [Hash Children map] in Hv1.
      subst cs.
      assert (Hins : inorder (plug ctx (mkNode [] (l1 ++ item :: l2) [])) =
                     ins item (inorder (plug ctx (mkNode [] (l1 ++ l2) [])))).
      { apply inorder_leaf_ins; apply Forall_app; split; assumption. }
      apply runs_bind. eapply runs_weaken; [apply (runs_split CH Sum mm s Hmm ctx _ 0 t1 Hv1 Hc) |].
      * apply wf_leaf. apply wf_leaf in Hw. destruct Hw as [Hb _].
        cbn [Contents Children map] in *. split; [| reflexivity].
        unfold len in *. rewrite !length_app in *. cbn [length] in *. lia.
      * rewrite Hins. apply ins_sorted. exact Hs.
      * intros u t' [R' [Hv' [Hw' Hi']]]. apply runs_ret. exists R'. cbn [map].
        split; [exact Hv' |]. split; [exact Hw' |]. rewrite Hi', <- Hins. split; [reflexivity |].
        split; [| discriminate]. rewrite !inorder_plug. cbn [inorder]. rewrite !length_app. cbn [length]. lia.
    + (* an internal node: descend into child [len l1] *)
      destruct h as [| h];
        [apply wf_leaf in Hw; cbn [Children map] in Hw; destruct Hw as [_ Hw]; discriminate |].
      assert (Hlen : length (map erase (k0 :: ks')) = S (length cs)).
      { apply wf_node in Hw. cbn [Contents Children] in Hw. apply Hw. }
      assert (Hj : (length l1 < length (k0 :: ks'))%nat)
        by (rewrite length_map in Hlen; rewrite Hlen, Ecs, length_app; lia).
      cbn [insert]. rewrite (Hsearch (mkNode hn cs (k0 :: ks')) eq_refl). cbv beta match zeta.
      replace (Z.to_nat (len l1)) with (length l1) by (unfold len; lia).
      set (x := nth (length l1) (k0 :: ks') (mkNode [] [] [])).
      match goal with |- Runs ?c _ _ =>
        replace c with (insert CH Sum x (length l1 :: ctx_addr ctx) item)
          by (symmetry; exact (child_fix_nth (fun k => insert CH Sum k (length l1 :: ctx_addr ctx) item)
                                 (k0 :: ks') (length l1) Hj)) end.
      assert (Hx : nth_error (map erase (k0 :: ks')) (length l1) = Some (erase x))
        by (rewrite nth_error_map, (nth_error_nth' (k0 :: ks') (mkNode [] [] []) Hj); reflexivity).
      destruct (desc_step _ _ h ctx cs _ _ _ Hc Hw Hx) as [Hc' [Hw' [Hp Ha]]].
      assert (Hj' : (length l1 < length (map erase (k0 :: ks')))%nat) by (rewrite length_map; exact Hj).
      destruct (frame_at_fl cs _ _ Hlen Hj') as [_ [Efl [Efr _]]].
      set (f := frame_at cs (map erase (k0 :: ks')) (length l1)) in *.
      rewrite Ecs, firstn_len_app in Efl. rewrite Ecs, skipn_len_app in Efr.
      rewrite <- Hp in Hv, Hs |- *. rewrite <- Ha.
      pose proof Hs as Hs'. rewrite inorder_plug in Hs'. cbn [ctx_left ctx_right] in Hs'.
      apply SS_app in Hs'. destruct Hs' as [Hsl [Hsr _]]. apply SS_app in Hsl, Hsr.
      rewrite Forall_forall in IH.
      apply (IH x (nth_In _ _ Hj) (f :: ctx) h t Hv Hc' Hw' Hs); cbn [ctx_left ctx_right];
        apply Forall_app; split.
      * exact HL.
      * apply (left_items_below (fun z => z < Key item));
          [intros a b Hab Hb; lia | apply Hsl | rewrite Efl; exact H1].
      * destruct Hsr as [_ [Hsr _]]. apply SS_app in Hsr.
        apply (right_items_above (fun z => Key item < z));
          [intros a b Hab Hb; lia | apply Hsr | rewrite Efr; exact H2s].
      * exact HR.
Qed.

Lemma view_with_size t R s mm s' :
  view t = (Some R, s, mm) -> view (with_size s' t) = (Some R, s', mm).
Proof. unfold view, eroot, with_size. cbn [Root size m]. intros H. inversion H. reflexivity. Qed.

Lemma btree_ok_of_view t R s mm :
  view t = (Some R, s, mm) -> 3 <= mm ->
  wf (minContents mm) (maxContents mm) (height R) 1 (maxContents mm) R = true ->
  StronglySorted ltk (inorder R) -> s = len (inorder R) -> btree_ok t = true.
Proof.
  intros Hv Hmm Hw Hs Hl. rewrite (btree_ok_view _ _ _ _ Hv), Hw.
  apply sorted_keys_iff in Hs. rewrite Hs. rewrite Hl, Z.eqb_refl.
  apply Z.leb_le in Hmm. rewrite Hmm. reflexivity.
Qed.

(** [Put] keeps the invariant and stores [ins item] of the items; it runs
    without panicking except on an empty tree whose new root cannot be
    hashed. *)
Lemma Put_ok CH Sum item t :
  btree_ok t = true -> (Root t = None -> CH item <> None) ->
  Runs (Put CH Sum item) t (fun _ t' => btree_ok t' = true /\ items t' = ins item (items t)).
Proof.
  intros Hok Hnone. unfold btree_ok in Hok. apply andb_true_iff in Hok. destruct Hok as [Hmm Hok].
  apply Z.leb_le in Hmm. unfold Put. apply runs_get. unfold items.
  destruct (Root t) as [root |] eqn:Er.
  - apply andb_true_iff in Hok. destruct Hok as [Hok Hsz]. apply andb_true_iff in Hok.
    destruct Hok as [Hw Hs]. apply Z.eqb_eq in Hsz. apply sorted_keys_iff in Hs.
    assert (Hv : view t = (Some (plug [] (erase root)), size t, m t))
      by (unfold view, eroot; rewrite Er; reflexivity).
    apply runs_bind.
    eapply runs_weaken; [apply (runs_insert CH Sum (m t) (size t) item Hmm root [] (height root) t Hv) |].
    + reflexivity.
    + cbn [plug lo_of]. rewrite wf_erase. exact Hw.
    + cbn [plug]. rewrite inorder_erase. exact Hs.
    + constructor.
    + constructor.
    + cbn [plug]. rewrite inorder_erase. intros b t' [R' [Hv' [Hw' [Hi' [Hl' _]]]]].
      assert (Hs' : StronglySorted ltk (inorder R')) by (rewrite Hi'; apply ins_sorted, Hs).
      destruct (view_root _ _ _ _ Hv') as [r' [Er' [Ee' [Est _]]]].
      assert (Hitems : inorder r' = ins item (inorder root)) by (rewrite <- Hi', <- Ee', inorder_erase; reflexivity).
      destruct b.
      * apply runs_get, runs_put. cbn [with_size Root]. rewrite Er'. split; [| exact Hitems].
        eapply btree_ok_of_view; [exact (view_with_size _ _ _ _ (size t' + 1) Hv') | exact Hmm | exact Hw' | exact Hs' |].
        rewrite Est, Hsz. unfold len. rewrite Hl'. lia.
      * apply runs_ret. rewrite Er'. split; [| exact Hitems].
        eapply btree_ok_of_view; [exact Hv' | exact Hmm | exact Hw' | exact Hs' |].
        rewrite Hsz. unfold len. rewrite Hl'. lia.
  - apply Z.eqb_eq in Hok. specialize (Hnone eq_refl).
    destruct (CH item) as [hi |] eqn:Ech; [| contradiction].
    destruct (caps_facts _ Hmm) as [_ [_ [_ Hmax]]].
    eexists. eexists. split.
    + unfold bind, put_tree, ReCalculateMerkleRoot, CalculateHash, getNode, modifyNode,
        node_hash, ret. cbn. rewrite Ech. reflexivity.
    + cbn [Root with_root with_hash Hash Contents Children]. split; [| reflexivity].
      unfold btree_ok, with_root, with_hash.
      cbn [Root size m height wf Contents Children inorder sorted_keys].
      rewrite Hok. unfold len. cbn [length]. rewrite Hmax.
      replace (3 <=? m t) with true by (symmetry; apply Z.leb_le; lia).
      replace (Z.of_nat 1 <=? m t - 1) with true by (symmetry; apply Z.leb_le; lia).
      reflexivity.
Qed.

Lemma ins_length_present x l :
  StronglySorted ltk l -> In (Key x) (map Key l) -> length (ins x l) = length l.
Proof.
  induction l as [| y l IH]; intros Hs Hin; [contradiction |].
  apply StronglySorted_inv in Hs. destruct Hs as [Hs Hy]. cbn [ins length].
  destruct (Key x <? Key y) eqn:E1; [| destruct (Key x =? Key y) eqn:E2].
  - exfalso. apply Z.ltb_lt in E1. cbn [map] in Hin. destruct Hin as [Hin | Hin]; [lia |].
    apply in_map_iff in Hin. destruct Hin as [z [Hz Hzl]]. rewrite Forall_forall in Hy.
    specialize (Hy z Hzl). unfold ltk in Hy. lia.
  - reflexivity.
  - cbn [length]. f_equal. apply IH; [exact Hs |]. cbn [map] in Hin.
    destruct Hin as [Hin | Hin]; [apply Z.eqb_neq in E2; congruence | exact Hin].
Qed.

Lemma in_ins x l : In x (ins x l).
Proof.
  induction l as [| y l IH]; cbn [ins]; [left; reflexivity |].
  destruct (Key x <? Key y); [left; reflexivity |].
  destruct (Key x =? Key y); [left; reflexivity | right; exact IH].
Qed.

Lemma btree_ok_root t r :
  btree_ok t = true -> Root t = Some r ->
  3 <= m t /\ wf (minContents (m t)) (maxContents (m t)) (height r) 1 (maxContents (m t)) r = true /\
  StronglySorted ltk (inorder r) /\ size t = len (inorder r).
Proof.
  unfold btree_ok. intros H Er. rewrite Er in H. rewrite !andb_true_iff in H.
  destruct H as [Hm [[Hw Hs] Hz]]. apply Z.leb_le in Hm. apply sorted_keys_iff in Hs.
  apply Z.eqb_eq in Hz. auto.
Qed.

(** [Put] into a tree with a root runs [insert] from the root, whatever
    [insert] reports. *)
Lemma Put_root CH Sum item t root :
  Root t = Some root -> forall b t1, insert CH Sum root [] item t = Ok b t1 ->
  Put CH Sum item t = (if b then (fun t0 => Ok tt (with_size (size t0 + 1) t0)) else ret tt) t1.
Proof.
  intros Er b t1 Hi. unfold Put, bind, get_tree. rewrite Er, Hi. destruct b; reflexivity.
Qed.

(** ** Claims C6 and C10: [Put] into a non-empty tree *)

(** C6: for a well-formed tree and an item whose key is stored, [Put]
    returns normally; the size is unchanged; the stored items are those of
    [ins item], so the old item of that key is replaced by the new one with
    its payload; the tree shape (every node's keys and children) is
    unchanged; and there is a node, at address [a], that now holds the new
    item, such that every node other than that node and its ancestors keeps
    its digest. *)
Theorem C6_overwrite_in_place (CH : Item -> option bytes) (Sum256 : bytes -> bytes)
  (item : Item) (t : Tree) :
  btree_ok t = true -> In (Key item) (map Key (items t)) ->
  exists t', Put CH Sum256 item t = Ok tt t' /\
    size t' = size t /\ btree_ok t' = true /\ items t' = ins item (items t) /\
    tree_shape t' = tree_shape t /\
    exists a r r' n', Root t = Some r /\ Root t' = Some r' /\
      node_at r' a = Some n' /\ In item (Contents n') /\
      forall c, (forall q, a <> q ++ c) -> option_map Hash (node_at r' c) = option_map Hash (node_at r c).
Proof.
  intros Hok Hin. unfold items in Hin.
  destruct (Root t) as [root |] eqn:Er; [| contradiction].
  destruct (btree_ok_root t root Hok Er) as [Hmm [Hw [Hs Hsz]]].
  assert (Hv : view t = (Some (plug [] (erase root)), size t, m t))
    by (unfold view, eroot; rewrite Er; reflexivity).
  destruct (runs_insert CH Sum256 (m t) (size t) item Hmm root [] (height root) t Hv eq_refl)
    as [b [t1 [Hrun [R' [Hv' [Hw' [Hi' [Hl' Hov]]]]]]]].
  - cbn [plug lo_of]. rewrite wf_erase. exact Hw.
  - cbn [plug]. rewrite inorder_erase. exact Hs.
  - constructor.
  - constructor.
  - cbn [plug] in Hi', Hl'. rewrite inorder_erase in Hi', Hl'.
    assert (Hb : b = false).
    { rewrite Hi', ins_length_present in Hl' by assumption. destruct b; [lia | reflexivity]. }
    subst b. pose proof (Put_root CH Sum256 item t root Er false t1 Hrun) as HP.
    cbn [ret] in HP. unfold ret in HP.
    destruct (Put_ok CH Sum256 item t Hok ltac:(congruence)) as [v [t2 [HP2 [Hok2 Hit2]]]].
    rewrite HP in HP2. inversion HP2; subst t2 v.
    exists t1. split; [exact HP |].
    destruct (view_root _ _ _ _ Hv') as [r1 [Er1 [_ [Hs1 _]]]].
    split; [exact Hs1 |]. split; [exact Hok2 |]. split; [unfold items in Hit2 |- *; rewrite Er in *; exact Hit2 |].
    destruct (Hov eq_refl) as [a [r [r' [n' [E1 [E2 [Hsh [Hn' [Hin' Hh]]]]]]]]].
    split; [unfold tree_shape; rewrite E2, E1; cbn [option_map]; rewrite Hsh; reflexivity |].
    exists a, r, r', n'. split; [rewrite <- Er; exact E1 |]. split; [exact E2 |]. split; [exact Hn' |].
    split; [exact Hin' | exact Hh].
Qed.

(** C10: [Put] into a well-formed tree with a root returns normally, for
    every [ContentHash], including one whose every digest computation fails;
    the tree stays well-formed and stores [ins item] of its items, among
    them [item] itself. *)
Theorem C10_put_nonempty_returns (CH : Item -> option bytes) (Sum256 : bytes -> bytes)
  (item : Item) (t : Tree) :
  btree_ok t = true -> Root t <> None ->
  exists t', Put CH Sum256 item t = Ok tt t' /\
    btree_ok t' = true /\ items t' = ins item (items t) /\ In item (items t').
Proof.
  intros Hok Hr. destruct (Put_ok CH Sum256 item t Hok ltac:(congruence)) as [v [t' [HP [Hok' Hit]]]].
  destruct v. exists t'. split; [exact HP |]. split; [exact Hok' |]. split; [exact Hit |].
  rewrite Hit. apply in_ins.
Qed.

Lemma C6_witness :
  btree_ok treeA = true /\ In (Key (mkItem 5 50)) (map Key (items treeA)) /\
  exists t', Put item_hash id_sum (mkItem 5 50) treeA = Ok tt t' /\
    size t' = size treeA /\ btree_ok t' = true /\ items t' = ins (mkItem 5 50) (items treeA) /\
    tree_shape t' = tree_shape treeA /\
    exists a r r' n', Root treeA = Some r /\ Root t' = Some r' /\
      node_at r' a = Some n' /\ In (mkItem 5 50) (Contents n') /\
      forall c, (forall q, a <> q ++ c) -> option_map Hash (node_at r' c) = option_map Hash (node_at r c).
Proof.
  assert (H1 : btree_ok treeA = true) by (vm_compute; reflexivity).
  assert (H2 : In (Key (mkItem 5 50)) (map Key (items treeA)))
    by (vm_compute; do 4 right; left; reflexivity).
  split; [exact H1 |]. split; [exact H2 |].
  exact (C6_overwrite_in_place item_hash id_sum (mkItem 5 50) treeA H1 H2).
Defined.

Lemma C10_witness :
  btree_ok treeA = true /\ Root treeA <> None /\
  exists t', Put (fun _ => None) id_sum (it 8) treeA = Ok tt t' /\
    btree_ok t' = true /\ items t' = ins (it 8) (items treeA) /\ In (it 8) (items t').
Proof.
  assert (H1 : btree_ok treeA = true) by (vm_compute; reflexivity).
  assert (H2 : Root treeA <> None) by (vm_compute; discriminate).
  split; [exact H1 |]. split; [exact H2 |].
  exact (C10_put_nonempty_returns (fun _ => None) id_sum (it 8) treeA H1 H2).
Defined.

(** ** Deletion: the parent of an underflowing node *)

Lemma node_at_child c P j : node_at (plug c P) (j :: ctx_addr c) = nth_error (Children P) j.
Proof. change (j :: ctx_addr c) with ([j] ++ ctx_addr c). rewrite node_at_plug. reflexivity. Qed.

Lemma update_at_child c P j g :
  update_at (plug c P) (j :: ctx_addr c) g = plug c (with_children (update_nth (Children P) j g) P).
Proof. change (j :: ctx_addr c) with ([j] ++ ctx_addr c). rewrite update_at_plug. reflexivity. Qed.

Lemma nth_error_mid {A} (l1 : list A) x l2 : nth_error (l1 ++ x :: l2) (length l1) = Some x.
Proof. induction l1 as [| y l1 IH]; cbn; [reflexivity | exact IH]. Qed.

Lemma nth_error_mid2 {A} (l1 : list A) x y l2 : nth_error (l1 ++ x :: y :: l2) (S (length l1)) = Some y.
Proof. induction l1 as [| z l1 IH]; cbn; [reflexivity | exact IH]. Qed.

Lemma update_nth_mid2 {A} (l1 : list A) x y l2 f :
  update_nth (l1 ++ x :: y :: l2) (S (length l1)) f = l1 ++ x :: f y :: l2.
Proof. induction l1 as [| z l1 IH]; cbn; [reflexivity | rewrite IH; reflexivity]. Qed.

Lemma index_mid {A} (l1 : list A) x l2 : index (l1 ++ x :: l2) (Z.of_nat (length l1)) = Some x.
Proof. rewrite index_ok by lia. rewrite Nat2Z.id. apply nth_error_mid. Qed.

Lemma index_last {A} (l1 : list A) x : index (l1 ++ [x]) (len (l1 ++ [x]) - 1) = Some x.
Proof.
  replace (len (l1 ++ [x]) - 1) with (Z.of_nat (length l1))
    by (unfold len; rewrite length_app; cbn; lia). apply index_mid.
Qed.

Lemma set_index_mid {A} (l1 : list A) x l2 y :
  set_index (l1 ++ x :: l2) (Z.of_nat (length l1)) y = Some (l1 ++ y :: l2).
Proof.
  rewrite set_index_ok by (unfold len; rewrite length_app; cbn; lia). rewrite Nat2Z.id.
  rewrite firstn_len_app. replace (S (length l1)) with (length (l1 ++ [x]))
    by (rewrite length_app; cbn; lia).
  replace (l1 ++ x :: l2) with ((l1 ++ [x]) ++ l2) by (rewrite <- app_assoc; reflexivity).
  rewrite skipn_len_app. reflexivity.
Qed.

Lemma remove_index_mid {A} (l1 : list A) x l2 :
  remove_index (l1 ++ x :: l2) (Z.of_nat (length l1)) = Some (l1 ++ l2).
Proof.
  rewrite remove_index_ok by (unfold len; rewrite length_app; cbn; lia). rewrite Nat2Z.id.
  rewrite firstn_len_app. replace (S (length l1)) with (length (l1 ++ [x]))
    by (rewrite length_app; cbn; lia).
  replace (l1 ++ x :: l2) with ((l1 ++ [x]) ++ l2) by (rewrite <- app_assoc; reflexivity).
  rewrite skipn_len_app. reflexivity.
Qed.

Lemma remove_index_last {A} (l1 : list A) x : remove_index (l1 ++ [x]) (len (l1 ++ [x]) - 1) = Some l1.
Proof.
  replace (len (l1 ++ [x]) - 1) with (Z.of_nat (length l1))
    by (unfold len; rewrite length_app; cbn; lia). rewrite remove_index_mid, app_nil_r. reflexivity.
Qed.

(** A real list of children whose erasure ends in [x]. *)
Lemma map_erase_snoc ks l1 x :
  map erase ks = l1 ++ [x] -> exists ks1 y, ks = ks1 ++ [y] /\ map erase ks1 = l1 /\ erase y = x.
Proof.
  intros H. apply map_eq_app in H. destruct H as [ks1 [ks2 [-> [H1 H2]]]].
  apply map_eq_cons in H2. destruct H2 as [y [ks3 [-> [H3 H4]]]].
  apply map_eq_nil in H4. subst. exists ks1, y. auto.
Qed.

Lemma map_erase_cons ks x l2 :
  map erase ks = x :: l2 -> exists y ks2, ks = y :: ks2 /\ erase y = x /\ map erase ks2 = l2.
Proof.
  intros H. apply map_eq_cons in H. destruct H as [y [ks2 [-> [H1 H2]]]]. exists y, ks2. auto.
Qed.

Ltac get_at Hv :=
  apply runs_bind; eapply runs_getNode;
  [exact Hv
  | first [ apply node_at_plug0
          | rewrite node_at_child; cbn [Children]; first [apply nth_error_mid2 | apply nth_error_mid] ]
  | ].

Ltac norm_in H :=
  unfold with_children, with_contents in H; cbn [Children Hash Contents] in H.

Ltac at_child :=
  first [ apply node_at_plug0
        | rewrite node_at_child; cbn [Children]; first [apply nth_error_mid2 | apply nth_error_mid] ].


(** [rotateRight] on the node [N] after [L] in the parent: the parent's
    separator moves down to [N], the last item of [L] up into the parent,
    and the last child of [L] over to [N]. *)
Lemma runs_rotateRight CH Sum c C1 sp C2 K1 L N K2 CL lc KL LK t s mm (Q : unit -> Tree -> Prop) :
  view t = (Some (plug c (mkNode [] (C1 ++ sp :: C2) (K1 ++ L :: N :: K2))), s, mm) ->
  length C1 = length K1 ->
  Contents L = CL ++ [lc] -> Children L = KL ++ LK ->
  (LK = [] /\ KL = []) \/ length LK = 1%nat ->
  (forall t', view t' = (Some (plug c (mkNode [] (C1 ++ lc :: C2)
       (K1 ++ mkNode (Hash L) CL KL :: mkNode (Hash N) (sp :: Contents N) (LK ++ Children N) :: K2))),
       s, mm) -> Q tt t') ->
  Runs (rotateRight CH Sum (S (length K1) :: ctx_addr c) (ctx_addr c) (Z.of_nat (length K1))) t Q.
Proof.
  intros Hv Hl HcL HkL HLK HQ. unfold rotateRight. cbv zeta. rewrite Nat2Z.id.
  get_at Hv. intros pn Hpn. destruct (erase_facts _ _ Hpn) as [Hcp _]. cbn [Contents] in Hcp.
  apply runs_bind. eapply runs_lift; [rewrite Hcp, <- Hl; apply index_mid |].
  get_at Hv. intros n Hn. destruct (erase_facts _ _ Hn) as [Hcn Hkn].
  apply runs_bind. eapply runs_setContents; [exact Hv | at_child |]. intros t1 Hv1.
  rewrite update_at_child in Hv1. norm_in Hv1. rewrite update_nth_mid2, Hcn in Hv1. norm_in Hv1.
  get_at Hv1. intros l1 Hl1. destruct (erase_facts _ _ Hl1) as [Hcl1 _].
  apply runs_bind. eapply runs_lift; [rewrite Hcl1, HcL; apply index_last |].
  unfold setContentAt. apply runs_bind.
  get_at Hv1. intros pn1 Hpn1. destruct (erase_facts _ _ Hpn1) as [Hcp1 _]. cbn [Contents] in Hcp1.
  apply runs_bind. eapply runs_lift; [rewrite Hcp1, <- Hl; apply set_index_mid |].
  eapply runs_setContents; [exact Hv1 | apply node_at_plug0 |]. intros t2 Hv2.
  rewrite update_at_plug0 in Hv2. norm_in Hv2.
  get_at Hv2. intros l2 Hl2. destruct (erase_facts _ _ Hl2) as [Hcl2 _].
  unfold deleteContent. apply runs_bind.
  get_at Hv2. intros l3 Hl3. destruct (erase_facts _ _ Hl3) as [Hcl3 _].
  apply runs_bind. eapply runs_lift; [rewrite Hcl3, Hcl2, HcL; apply remove_index_last |].
  eapply runs_setContents; [exact Hv2 | at_child |]. intros t3 Hv3.
  rewrite update_at_child in Hv3. norm_in Hv3. rewrite update_nth_app in Hv3. norm_in Hv3.
  set (Pf := mkNode [] (C1 ++ lc :: C2)
       (K1 ++ mkNode (Hash L) CL KL :: mkNode (Hash N) (sp :: Contents N) (LK ++ Children N) :: K2)).
  get_at Hv3. intros l4 Hl4. destruct (erase_facts _ _ Hl4) as [_ Hkl4].
  cbn [Children] in Hkl4. rewrite HkL in Hkl4.
  apply runs_bind. apply (runs_weaken _ _ (fun _ t' => view t' = (Some (plug c Pf), s, mm))).
  2: { intros u t4 Hv4.
       apply runs_bind. eapply runs_CalculateHash; [exact Hv4 | at_child |]. intros o5 t5 Hv5.
       apply runs_bind. eapply runs_CalculateHash; [exact Hv5 | at_child |]. intros o6 t6 Hv6.
       apply runs_ret. apply HQ, Hv6. }
  destruct HLK as [[-> ->] | HLK].
  - cbn [app] in Hkl4. apply map_eq_nil in Hkl4. unfold isLeaf. rewrite Hkl4.
    apply runs_ret. rewrite Hv3. unfold Pf. destruct L as [hL cL kL], N as [hN cN kN].
    cbn [Hash Contents Children with_contents app] in *. subst kL. reflexivity.
  - destruct LK as [| lk [| ? ?]]; cbn [length] in HLK; try discriminate.
    destruct (map_erase_snoc _ _ _ Hkl4) as [ks4 [y4 [Eks4 [Hks4 Hy4]]]].
    assert (El4 : isLeaf l4 = false) by (unfold isLeaf; rewrite Eks4; destruct ks4; reflexivity).
    rewrite El4. cbv iota.
    apply runs_bind. eapply runs_lift; [rewrite Eks4; apply index_last |].
    get_at Hv3. intros n5 Hn5. destruct (erase_facts _ _ Hn5) as [_ Hkn5]. cbn [Children] in Hkn5.
    apply runs_bind. eapply runs_setChildren; [exact Hv3 | at_child |]. intros t6 Hv6.
    rewrite update_at_child in Hv6. norm_in Hv6. rewrite update_nth_mid2 in Hv6.
    cbn [map] in Hv6. rewrite Hy4, Hkn5 in Hv6. norm_in Hv6.
    get_at Hv6. intros l7 Hl7. destruct (erase_facts _ _ Hl7) as [_ Hkl7].
    cbn [Children] in Hkl7. rewrite HkL in Hkl7.
    destruct (map_erase_snoc _ _ _ Hkl7) as [ks7 [y7 [Eks7 [Hks7 _]]]].
    unfold deleteChild. get_at Hv6. intros l8 Hl8. destruct (erase_facts _ _ Hl8) as [_ Hkl8].
    cbn [Children] in Hkl8. rewrite HkL in Hkl8.
    destruct (map_erase_snoc _ _ _ Hkl8) as [ks8 [y8 [Eks8 [Hks8 _]]]].
    assert (Hlen : len (Children l8) = len (Children l7)).
    { rewrite Eks7, Eks8. unfold len. rewrite !length_app, <- (length_map erase ks7),
        <- (length_map erase ks8), Hks7, Hks8. reflexivity. }
    rewrite <- Hlen. replace (len (Children l8) <=? len (Children l8) - 1) with false
      by (symmetry; apply Z.leb_gt; lia). cbv iota.
    apply runs_bind. eapply runs_lift; [rewrite Eks8; apply remove_index_last |].
    eapply runs_setChildren; [exact Hv6 | at_child |]. intros t9 Hv9.
    rewrite update_at_child in Hv9. norm_in Hv9. rewrite update_nth_app in Hv9. norm_in Hv9.
    rewrite Hks8 in Hv9. exact Hv9.
Qed.

(** [rotateLeft] on the node [N] before [R]: the separator moves down to the
    end of [N], the first item of [R] up, and the first child of [R] over. *)
Lemma runs_rotateLeft CH Sum c C1 sp C2 K1 N R K2 fc CR LK KR t s mm (Q : unit -> Tree -> Prop) :
  view t = (Some (plug c (mkNode [] (C1 ++ sp :: C2) (K1 ++ N :: R :: K2))), s, mm) ->
  length C1 = length K1 ->
  Contents R = fc :: CR -> Children R = LK ++ KR ->
  (LK = [] /\ KR = []) \/ length LK = 1%nat ->
  (forall t', view t' = (Some (plug c (mkNode [] (C1 ++ fc :: C2)
       (K1 ++ mkNode (Hash N) (Contents N ++ [sp]) (Children N ++ LK) :: mkNode (Hash R) CR KR :: K2))),
       s, mm) -> Q tt t') ->
  Runs (rotateLeft CH Sum (length K1 :: ctx_addr c) (ctx_addr c) (Z.of_nat (S (length K1)))) t Q.
Proof.
  intros Hv Hl HcR HkR HLK HQ. unfold rotateLeft. cbv zeta. rewrite Nat2Z.id.
  replace (Z.of_nat (S (length K1)) - 1) with (Z.of_nat (length K1)) by lia.
  get_at Hv. intros pn Hpn. destruct (erase_facts _ _ Hpn) as [Hcp _]. cbn [Contents] in Hcp.
  apply runs_bind. eapply runs_lift; [rewrite Hcp, <- Hl; apply index_mid |].
  get_at Hv. intros n Hn. destruct (erase_facts _ _ Hn) as [Hcn Hkn].
  apply runs_bind. eapply runs_setContents; [exact Hv | at_child |]. intros t1 Hv1.
  rewrite update_at_child in Hv1. norm_in Hv1. rewrite update_nth_app, Hcn in Hv1. norm_in Hv1.
  get_at Hv1. intros r1 Hr1. destruct (erase_facts _ _ Hr1) as [Hcr1 _].
  apply runs_bind. eapply runs_lift; [rewrite Hcr1, HcR; reflexivity |].
  unfold setContentAt. apply runs_bind.
  get_at Hv1. intros pn1 Hpn1. destruct (erase_facts _ _ Hpn1) as [Hcp1 _]. cbn [Contents] in Hcp1.
  apply runs_bind. eapply runs_lift; [rewrite Hcp1, <- Hl; apply set_index_mid |].
  eapply runs_setContents; [exact Hv1 | apply node_at_plug0 |]. intros t2 Hv2.
  rewrite update_at_plug0 in Hv2. norm_in Hv2.
  unfold deleteContent. apply runs_bind.
  get_at Hv2. intros r3 Hr3. destruct (erase_facts _ _ Hr3) as [Hcr3 _].
  apply runs_bind. eapply runs_lift; [rewrite Hcr3, HcR; apply (remove_index_mid [] fc CR) |].
  eapply runs_setContents; [exact Hv2 | at_child |]. intros t3 Hv3.
  rewrite update_at_child in Hv3. norm_in Hv3. rewrite update_nth_mid2 in Hv3. norm_in Hv3.
  set (Pf := mkNode [] (C1 ++ fc :: C2)
       (K1 ++ mkNode (Hash N) (Contents N ++ [sp]) (Children N ++ LK) :: mkNode (Hash R) CR KR :: K2)).
  get_at Hv3. intros r4 Hr4. destruct (erase_facts _ _ Hr4) as [_ Hkr4].
  cbn [Children] in Hkr4. rewrite HkR in Hkr4.
  apply runs_bind. apply (runs_weaken _ _ (fun _ t' => view t' = (Some (plug c Pf), s, mm))).
  2: { intros u t4 Hv4.
       apply runs_bind. eapply runs_CalculateHash; [exact Hv4 | at_child |]. intros o5 t5 Hv5.
       apply runs_bind. eapply runs_CalculateHash; [exact Hv5 | at_child |]. intros o6 t6 Hv6.
       apply runs_ret. apply HQ, Hv6. }
  destruct HLK as [[-> ->] | HLK].
  - cbn [app] in Hkr4. apply map_eq_nil in Hkr4. unfold isLeaf. rewrite Hkr4.
    apply runs_ret. rewrite Hv3. unfold Pf. destruct R as [hR cR kR], N as [hN cN kN].
    cbn [Hash Contents Children with_contents app] in *. subst kR. rewrite app_nil_r. reflexivity.
  - destruct LK as [| lk [| ? ?]]; cbn [length] in HLK; try discriminate. cbn [app] in Hkr4.
    destruct (map_erase_cons _ _ _ Hkr4) as [y4 [ks4 [Eks4 [Hy4 Hks4]]]].
    assert (Er4 : isLeaf r4 = false) by (unfold isLeaf; rewrite Eks4; reflexivity).
    rewrite Er4. cbv iota.
    apply runs_bind. eapply runs_lift; [rewrite Eks4; reflexivity |].
    get_at Hv3. intros n5 Hn5. destruct (erase_facts _ _ Hn5) as [_ Hkn5]. cbn [Children] in Hkn5.
    apply runs_bind. eapply runs_setChildren; [exact Hv3 | at_child |]. intros t6 Hv6.
    rewrite update_at_child in Hv6. norm_in Hv6. rewrite update_nth_app in Hv6.
    rewrite map_app in Hv6. cbn [map] in Hv6. rewrite Hy4, Hkn5 in Hv6. norm_in Hv6.
    unfold deleteChild. get_at Hv6. intros r8 Hr8. destruct (erase_facts _ _ Hr8) as [_ Hkr8].
    cbn [Children] in Hkr8. rewrite HkR in Hkr8. cbn [app] in Hkr8.
    destruct (map_erase_cons _ _ _ Hkr8) as [y8 [ks8 [Eks8 [_ Hks8]]]].
    rewrite Eks8. replace (len (y8 :: ks8) <=? 0) with false
      by (symmetry; apply Z.leb_gt; unfold len; cbn [length]; lia). cbv iota.
    apply runs_bind. eapply runs_lift; [apply (remove_index_mid [] y8 ks8) |].
    eapply runs_setChildren; [exact Hv6 | at_child |]. intros t9 Hv9.
    rewrite update_at_child in Hv9. norm_in Hv9. rewrite update_nth_mid2 in Hv9. norm_in Hv9.
    cbn [app] in Hv9. rewrite Hks8 in Hv9. exact Hv9.
Qed.

Lemma remove_index_erase ks l1 x l2 :
  map erase ks = l1 ++ x :: l2 ->
  (len ks <=? Z.of_nat (length l1)) = false /\
  exists ks', remove_index ks (Z.of_nat (length l1)) = Some ks' /\ map erase ks' = l1 ++ l2.
Proof.
  intros H. apply map_eq_app in H. destruct H as [ks1 [ks2 [-> [H1 H2]]]].
  apply map_eq_cons in H2. destruct H2 as [y [ks3 [-> [H3 H4]]]]. subst.
  rewrite length_map. split.
  - apply Z.leb_gt. unfold len. rewrite length_app. cbn [length]. lia.
  - exists (ks1 ++ ks3). split; [apply remove_index_mid | apply map_app].
Qed.

Lemma index_erase ks l1 x l2 :
  map erase ks = l1 ++ x :: l2 -> exists y, index ks (Z.of_nat (length l1)) = Some y /\ erase y = x.
Proof.
  intros H. apply map_eq_app in H. destruct H as [ks1 [ks2 [-> [H1 H2]]]].
  apply map_eq_cons in H2. destruct H2 as [y [ks3 [-> [H3 H4]]]]. subst.
  rewrite length_map. exists y. split; [apply index_mid | reflexivity].
Qed.

(** [mergeRight] of the node [N] with its right sibling [R]: the separator
    and [R] come down into [N], and the parent loses both. *)
Lemma runs_mergeRight CH Sum c C1 sp C2 K1 N R K2 t s mm (Q : nat * Item -> Tree -> Prop) :
  view t = (Some (plug c (mkNode [] (C1 ++ sp :: C2) (K1 ++ N :: R :: K2))), s, mm) ->
  length C1 = length K1 ->
  (forall t', view t' = (Some (plug c (mkNode [] (C1 ++ C2)
       (K1 ++ mkNode (Hash N) (Contents N ++ sp :: Contents R) (Children N ++ Children R) :: K2))),
       s, mm) -> Q (length K1, sp) t') ->
  Runs (mergeRight CH Sum (length K1) (ctx_addr c) (Z.of_nat (S (length K1)))) t Q.
Proof.
  intros Hv Hl HQ. unfold mergeRight. cbv zeta. rewrite Nat2Z.id.
  replace (Z.of_nat (S (length K1)) - 1) with (Z.of_nat (length K1)) by lia.
  get_at Hv. intros pn Hpn. destruct (erase_facts _ _ Hpn) as [Hcp _]. cbn [Contents] in Hcp.
  apply runs_bind. eapply runs_lift; [rewrite Hcp, <- Hl; apply index_mid |].
  get_at Hv. intros n Hn. destruct (erase_facts _ _ Hn) as [Hcn Hkn].
  apply runs_bind. eapply runs_setContents; [exact Hv | at_child |]. intros t1 Hv1.
  rewrite update_at_child in Hv1. norm_in Hv1. rewrite update_nth_app, Hcn in Hv1. norm_in Hv1.
  get_at Hv1. intros r2 Hr2. destruct (erase_facts _ _ Hr2) as [Hcr2 Hkr2].
  get_at Hv1. intros n3 Hn3. destruct (erase_facts _ _ Hn3) as [Hcn3 _]. cbn [Contents] in Hcn3.
  apply runs_bind. eapply runs_setContents; [exact Hv1 | at_child |]. intros t4 Hv4.
  rewrite update_at_child in Hv4. norm_in Hv4. rewrite update_nth_app, Hcn3, Hcr2 in Hv4.
  norm_in Hv4.
  get_at Hv4. intros pn5 Hpn5. destruct (erase_facts _ _ Hpn5) as [Hcp5 _]. cbn [Contents] in Hcp5.
  apply runs_bind. eapply runs_lift; [rewrite Hcp5, <- Hl; apply index_mid |].
  unfold deleteContent. apply runs_bind.
  get_at Hv4. intros pn6 Hpn6. destruct (erase_facts _ _ Hpn6) as [Hcp6 _]. cbn [Contents] in Hcp6.
  apply runs_bind. eapply runs_lift; [rewrite Hcp6, <- Hl; apply remove_index_mid |].
  eapply runs_setContents; [exact Hv4 | apply node_at_plug0 |]. intros t7 Hv7.
  rewrite update_at_plug0 in Hv7. norm_in Hv7.
  get_at Hv7. intros pn8 Hpn8. destruct (erase_facts _ _ Hpn8) as [_ Hkp8]. cbn [Children] in Hkp8.
  replace (K1 ++ mkNode (Hash N) ((Contents N ++ [sp]) ++ Contents R) (Children N) :: R :: K2)
    with ((K1 ++ [mkNode (Hash N) ((Contents N ++ [sp]) ++ Contents R) (Children N)]) ++ R :: K2)
    in Hkp8 by (rewrite <- app_assoc; reflexivity).
  destruct (index_erase _ _ _ _ Hkp8) as [fr9 [Efr9 Hfr9]].
  rewrite length_app in Efr9. cbn [length] in Efr9. rewrite Nat.add_1_r in Efr9.
  apply runs_bind. eapply runs_lift; [exact Efr9 |].
  destruct (erase_facts _ _ Hfr9) as [_ Hkfr9]. cbn [Children] in Hkfr9.
  get_at Hv7. intros n10 Hn10. destruct (erase_facts _ _ Hn10) as [_ Hkn10]. cbn [Children] in Hkn10.
  apply runs_bind. eapply runs_setChildren; [exact Hv7 | at_child |]. intros t11 Hv11.
  rewrite update_at_child in Hv11. norm_in Hv11. rewrite update_nth_app, map_app, Hkn10, Hkfr9 in Hv11.
  norm_in Hv11.
  unfold deleteChild. apply runs_bind.
  get_at Hv11. intros pn12 Hpn12. destruct (erase_facts _ _ Hpn12) as [_ Hkp12].
  cbn [Children] in Hkp12.
  set (Nm := mkNode (Hash N) ((Contents N ++ [sp]) ++ Contents R) (Children N ++ Children R)) in *.
  replace (K1 ++ Nm :: R :: K2) with ((K1 ++ [Nm]) ++ R :: K2)
    in Hkp12 by (rewrite <- app_assoc; reflexivity).
  destruct (remove_index_erase _ _ _ _ Hkp12) as [Hle [ks12 [Eks12 Hks12]]].
  rewrite length_app in Hle, Eks12. cbn [length] in Hle, Eks12. rewrite Nat.add_1_r in Hle, Eks12.
  rewrite Hle. cbv iota.
  apply runs_bind. eapply runs_lift; [exact Eks12 |].
  eapply runs_setChildren; [exact Hv11 | apply node_at_plug0 |]. intros t13 Hv13.
  rewrite update_at_plug0 in Hv13. norm_in Hv13. rewrite Hks12, <- app_assoc in Hv13. cbn [app] in Hv13.
  cbv beta.
  unfold reloc. replace (Z.of_nat (length K1) <? Z.of_nat (S (length K1))) with true
    by (symmetry; apply Z.ltb_lt; lia). cbv iota.
  apply runs_bind. eapply runs_lift; [reflexivity |].
  apply runs_bind. eapply runs_CalculateHash; [exact Hv13 | at_child |]. intros o15 t15 Hv15.
  apply runs_ret. apply HQ. rewrite Hv15. unfold Nm. rewrite <- app_assoc. reflexivity.
Qed.

(** [mergeLeft] of the node [N] into its left sibling's place: [L], the
    separator and [N] become one node, and the parent loses the separator
    and [L]. *)
Lemma runs_mergeLeft CH Sum c C1 sp C2 K1 L N K2 t s mm (Q : nat * Item -> Tree -> Prop) :
  view t = (Some (plug c (mkNode [] (C1 ++ sp :: C2) (K1 ++ L :: N :: K2))), s, mm) ->
  length C1 = length K1 ->
  (forall t', view t' = (Some (plug c (mkNode [] (C1 ++ C2)
       (K1 ++ mkNode (Hash N) (Contents L ++ sp :: Contents N) (Children L ++ Children N) :: K2))),
       s, mm) -> Q (length K1, sp) t') ->
  Runs (mergeLeft CH Sum (S (length K1)) (ctx_addr c) (Z.of_nat (length K1))) t Q.
Proof.
  intros Hv Hl HQ. unfold mergeLeft. cbv zeta. rewrite Nat2Z.id.
  get_at Hv. intros l0 Hl0. destruct (erase_facts _ _ Hl0) as [Hcl0 _].
  get_at Hv. intros pn Hpn. destruct (erase_facts _ _ Hpn) as [Hcp _]. cbn [Contents] in Hcp.
  apply runs_bind. eapply runs_lift; [rewrite Hcp, <- Hl; apply index_mid |].
  get_at Hv. intros n Hn. destruct (erase_facts _ _ Hn) as [Hcn Hkn].
  apply runs_bind. eapply runs_setContents; [exact Hv | at_child |]. intros t1 Hv1.
  rewrite update_at_child in Hv1. norm_in Hv1. rewrite update_nth_mid2, Hcn, Hcl0 in Hv1. norm_in Hv1.
  get_at Hv1. intros pn5 Hpn5. destruct (erase_facts _ _ Hpn5) as [Hcp5 _]. cbn [Contents] in Hcp5.
  apply runs_bind. eapply runs_lift; [rewrite Hcp5, <- Hl; apply index_mid |].
  unfold deleteContent. apply runs_bind.
  get_at Hv1. intros pn6 Hpn6. destruct (erase_facts _ _ Hpn6) as [Hcp6 _]. cbn [Contents] in Hcp6.
  apply runs_bind. eapply runs_lift; [rewrite Hcp6, <- Hl; apply remove_index_mid |].
  eapply runs_setContents; [exact Hv1 | apply node_at_plug0 |]. intros t7 Hv7.
  rewrite update_at_plug0 in Hv7. norm_in Hv7.
  get_at Hv7. intros pn8 Hpn8. destruct (erase_facts _ _ Hpn8) as [_ Hkp8]. cbn [Children] in Hkp8.
  destruct (index_erase _ _ _ _ Hkp8) as [fr9 [Efr9 Hfr9]].
  apply runs_bind. eapply runs_lift; [exact Efr9 |].
  destruct (erase_facts _ _ Hfr9) as [_ Hkfr9]. cbn [Children] in Hkfr9.
  get_at Hv7. intros n10 Hn10. destruct (erase_facts _ _ Hn10) as [_ Hkn10]. cbn [Children] in Hkn10.
  apply runs_bind. eapply runs_setChildren; [exact Hv7 | at_child |]. intros t11 Hv11.
  rewrite update_at_child in Hv11. norm_in Hv11.
  rewrite update_nth_mid2, map_app, Hkn10, Hkfr9 in Hv11. norm_in Hv11.
  unfold deleteChild. apply runs_bind.
  get_at Hv11. intros pn12 Hpn12. destruct (erase_facts _ _ Hpn12) as [_ Hkp12].
  cbn [Children] in Hkp12.
  destruct (remove_index_erase _ _ _ _ Hkp12) as [Hle [ks12 [Eks12 Hks12]]].
  rewrite Hle. cbv iota.
  apply runs_bind. eapply runs_lift; [exact Eks12 |].
  eapply runs_setChildren; [exact Hv11 | apply node_at_plug0 |]. intros t13 Hv13.
  rewrite update_at_plug0 in Hv13. norm_in Hv13. rewrite Hks12 in Hv13.
  cbv beta.
  unfold reloc. replace (Z.of_nat (S (length K1)) <? Z.of_nat (length K1)) with false
    by (symmetry; apply Z.ltb_ge; lia).
  replace (Z.of_nat (S (length K1)) =? Z.of_nat (length K1)) with false
    by (symmetry; apply Z.eqb_neq; lia). cbv iota.
  apply runs_bind. eapply runs_lift; [reflexivity |]. cbn [Nat.pred].
  apply runs_bind. eapply runs_CalculateHash; [exact Hv13 | at_child |]. intros o15 t15 Hv15.
  apply runs_ret. apply HQ. rewrite Hv15. reflexivity.
Qed.

(** ** Deletion: merged and rotated nodes *)

Lemma list_snoc_cases {A} (l : list A) : l = [] \/ exists l' x, l = l' ++ [x].
Proof.
  destruct l as [| a l]; [left; reflexivity | right].
  destruct (exists_last (l := a :: l) ltac:(discriminate)) as [l' [x E]]. exists l', x. exact E.
Qed.

(** Two nodes of one height joined around an item. *)
Lemma inorder_merge h0 A sp B :
  (Children A = [] /\ Children B = []) \/
  (length (Children A) = S (length (Contents A)) /\ length (Children B) = S (length (Contents B))) ->
  inorder (mkNode h0 (Contents A ++ sp :: Contents B) (Children A ++ Children B)) =
  inorder A ++ sp :: inorder B.
Proof.
  destruct A as [hA cA kA], B as [hB cB kB]. cbn [Contents Children].
  intros [[-> ->] | [HA HB]]; [reflexivity |].
  rewrite (inorder_split h0 (cA ++ sp :: cB) (kA ++ kB) (length cA) sp).
  - rewrite firstn_len_app, skipn_S_len_app, <- HA, firstn_len_app, skipn_len_app. reflexivity.
  - apply nth_error_mid.
  - right. rewrite !length_app. cbn [length]. lia.
Qed.

Lemma wf_merge minc maxc h lo hi h0 A sp B loA hiA loB hiB :
  wf minc maxc h loA hiA A = true -> wf minc maxc h loB hiB B = true ->
  lo <= len (Contents A) + 1 + len (Contents B) <= hi ->
  wf minc maxc h lo hi (mkNode h0 (Contents A ++ sp :: Contents B) (Children A ++ Children B)) = true.
Proof.
  intros HA HB Hb. assert (Hl : len (Contents A ++ sp :: Contents B) = len (Contents A) + 1 + len (Contents B))
    by (unfold len; rewrite length_app; cbn [length]; lia).
  destruct h as [| h].
  - apply wf_leaf in HA, HB. apply wf_leaf. cbn [Contents Children]. rewrite Hl.
    destruct HA as [_ ->], HB as [_ ->]. split; [lia | reflexivity].
  - apply wf_node in HA, HB. apply wf_node. cbn [Contents Children]. rewrite Hl.
    destruct HA as [_ [HA1 HA2]], HB as [_ [HB1 HB2]].
    split; [lia |]. split; [rewrite !length_app; cbn [length]; lia | apply Forall_app; auto].
Qed.

Lemma fill_snoc FL L sp FR N :
  fill (mkFrame (FL ++ [(L, sp)]) FR) N =
  mkNode [] (map snd FL ++ sp :: map fst FR) (map fst FL ++ L :: N :: map snd FR).
Proof. unfold fill. cbn [fl fr]. rewrite !map_app, <- !app_assoc. reflexivity. Qed.

Lemma left_items_snoc FL L sp FR :
  left_items (mkFrame (FL ++ [(L, sp)]) FR) = left_items (mkFrame FL FR) ++ inorder L ++ [sp].
Proof. unfold left_items. cbn [fl]. rewrite map_app, concat_app. cbn. rewrite app_nil_r. reflexivity. Qed.

Lemma right_items_cons FL sp R FR :
  right_items (mkFrame FL ((sp, R) :: FR)) = sp :: inorder R ++ right_items (mkFrame FL FR).
Proof. reflexivity. Qed.

Lemma fsiblings_snoc FL L sp FR :
  fsiblings (mkFrame (FL ++ [(L, sp)]) FR) = map fst FL ++ L :: map snd FR.
Proof. unfold fsiblings. cbn [fl fr]. rewrite map_app, <- app_assoc. reflexivity. Qed.

Lemma fsiblings_cons FL sp R FR :
  fsiblings (mkFrame FL ((sp, R) :: FR)) = map fst FL ++ R :: map snd FR.
Proof. reflexivity. Qed.

Lemma fcontents_snoc FL L sp FR :
  length (fcontents (mkFrame (FL ++ [(L, sp)]) FR)) = S (length (fcontents (mkFrame FL FR))).
Proof. rewrite !len_fcontents. cbn [fl fr]. rewrite length_app. cbn. lia. Qed.

Lemma fcontents_cons FL sp R FR :
  length (fcontents (mkFrame FL ((sp, R) :: FR))) = S (length (fcontents (mkFrame FL FR))).
Proof. rewrite !len_fcontents. cbn [fl fr length]. lia. Qed.

(** The separators of the frame around a subtree holding [x] are on the
    two sides of [x]. *)
Lemma loc_of_in g c P x :
  StronglySorted ltk (inorder (plug c (fill g P))) -> In x (inorder P) -> loc x g.
Proof.
  intros Hs Hx. apply SS_plug_fill in Hs. rewrite inorder_fill in Hs. split.
  - apply Forall_forall. intros y Hy. eapply SS_lt; [exact Hs | apply in_left_items, Hy |].
    apply in_or_app. left. exact Hx.
  - apply Forall_forall. intros y Hy. apply Z.lt_le_incl.
    rewrite app_assoc in Hs. eapply SS_lt; [exact Hs | | apply in_right_items, Hy].
    apply in_or_app. right. exact Hx.
Qed.

Lemma wf_forall_app minc maxc h l1 x l2 :
  forallb (wf minc maxc h minc maxc) (l1 ++ x :: l2) = true <->
  forallb (wf minc maxc h minc maxc) (l1 ++ l2) = true /\ wf minc maxc h minc maxc x = true.
Proof. rewrite !forallb_app. cbn [forallb]. rewrite !andb_true_iff. tauto. Qed.

(** The end of [rebalanceNode] after a merge: an emptied root gives way to
    the merged node, otherwise the separator goes up. *)
Lemma runs_merge_tail CH Sum mm s (Hmm : 3 <= mm) h c f' Nm P sp i t :
  view t = (Some (plug c (fill f' Nm)), s, mm) ->
  i = length (fl f') ->
  ctx_ok (minContents mm) (maxContents mm) (S h) c = true ->
  wf (minContents mm) (maxContents mm) h (minContents mm) (maxContents mm) Nm = true ->
  forallb (wf (minContents mm) (maxContents mm) h (minContents mm) (maxContents mm)) (fsiblings f') = true ->
  lo_of (minContents mm) c - 1 <= len (fcontents f') <= maxContents mm ->
  inorder (fill f' Nm) = inorder P ->
  StronglySorted ltk (inorder (plug c P)) -> In sp (inorder P) ->
  Runs (t <- get_tree;;
        match ctx_addr c with
        | [] => root <- lift "nil pointer dereference"%string (Root t);;
                if len (Contents root) =? 0 then
                  (node <- getNode [i];;
                   put_tree (with_root (Some node) t);;
                   CalculateHash CH Sum [];;
                   ret None)
                else ret (Some sp)
        | _ => ret (Some sp)
        end) t (rb_post (minContents mm) (maxContents mm) s mm h c P).
Proof.
  intros Hv -> Hc HN Hsib Hb Hin Hs Hsp. destruct (caps_facts mm Hmm) as [Hmin [_ [H2 Hmax]]].
  assert (Hio : inorder (plug c (fill f' Nm)) = inorder (plug c P))
    by (rewrite !inorder_plug, Hin; reflexivity).
  apply runs_get. destruct c as [| g c']; cbn [ctx_addr map].
  - destruct (view_root _ _ _ _ Hv) as [r [Er [Hr [Hsz Hm]]]]. cbn [plug] in Hr.
    apply runs_bind. eapply runs_lift; [exact Er |].
    destruct (erase_facts _ _ Hr) as [Hcr _]. rewrite Hcr, fill_Contents.
    destruct (len (fcontents f') =? 0) eqn:E0.
    + apply Z.eqb_eq in E0. unfold len in E0. rewrite len_fcontents in E0.
      apply runs_bind. eapply runs_getNode; [exact Hv | cbn [plug]; apply node_at_fill |].
      intros nm Hnm. apply runs_bind. apply runs_put.
      assert (Hv1 : view (with_root (Some nm) t) = (Some Nm, s, mm))
        by (unfold view, eroot, with_root; cbn; rewrite Hnm, Hsz, Hm; reflexivity).
      apply runs_bind. eapply runs_CalculateHash; [exact Hv1 | reflexivity |]. intros o t2 Hv2.
      apply runs_ret. exists Nm. split; [exact Hv2 |]. split.
      * rewrite (wf_height _ _ _ _ _ _ HN). eapply wf_lo; [exact HN |].
        pose proof (wf_bounds _ _ _ _ _ _ HN). lia.
      * rewrite <- Hio. cbn [plug]. rewrite inorder_fill. destruct f' as [[| ? ?] [| ? ?]];
          cbn [fl fr length] in E0; try lia.
        unfold left_items, right_items. cbn. rewrite app_nil_r. reflexivity.
    + apply runs_ret. exists (fill f' Nm). split; [exact Hv |]. split; [| split; [| split]].
      * apply wf_fill. split; [cbn [lo_of] in *; lia |]. split; assumption.
      * intros _. rewrite fill_Contents. apply Z.eqb_neq in E0. unfold len in *. lia.
      * exact Hio.
      * exact I.
  - apply runs_ret. exists (fill f' Nm). split; [exact Hv |]. split; [| split; [| split]].
    + apply wf_fill. split; [cbn [lo_of] in *; lia |]. split; assumption.
    + discriminate.
    + exact Hio.
    + apply (loc_of_in g c' P sp Hs Hsp).
Qed.

Lemma wf_kids minc maxc h lo hi X :
  wf minc maxc h lo hi X = true ->
  (h = O /\ Children X = []) \/ (h <> O /\ length (Children X) = S (length (Contents X))).
Proof.
  destruct h as [| h]; intros Hw.
  - left. apply wf_leaf in Hw. split; [reflexivity | apply Hw].
  - right. apply wf_node in Hw. split; [discriminate | apply Hw].
Qed.

(** A node without its last item and last child. *)
Lemma wf_last minc maxc h lo hi L :
  wf minc maxc h lo hi L = true -> 1 <= len (Contents L) ->
  exists CL lc KL LK, Contents L = CL ++ [lc] /\ Children L = KL ++ LK /\
    ((h = O /\ LK = [] /\ KL = []) \/ (h <> O /\ length LK = 1%nat /\ length KL = S (length CL))) /\
    (forall h0, wf minc maxc h (lo - 1) (hi - 1) (mkNode h0 CL KL) = true) /\
    wf minc maxc h 0 0 (mkNode [] [] LK) = true.
Proof.
  intros Hw Hl. destruct (exists_last (l := Contents L) ltac:(intros E; rewrite E in Hl; unfold len in Hl; cbn in Hl; lia))
    as [CL [lc HcL]].
  assert (HlCL : len (Contents L) = len CL + 1) by (rewrite HcL; unfold len; rewrite length_app; cbn; lia).
  destruct h as [| h].
  - apply wf_leaf in Hw. destruct Hw as [Hb Hk]. exists CL, lc, [], []. split; [exact HcL |].
    split; [exact Hk |]. split; [left; auto |]. split.
    + intros h0. apply wf_leaf. cbn [Contents Children]. split; [lia | reflexivity].
    + apply wf_leaf. cbn [Contents Children]. unfold len. cbn. split; [lia | reflexivity].
  - apply wf_node in Hw. destruct Hw as [Hb [Hk Hf]].
    destruct (exists_last (l := Children L) ltac:(intros E; rewrite E in Hk; discriminate))
      as [KL [lk HkL]].
    rewrite HkL in Hk, Hf. rewrite HcL in Hk. rewrite !length_app in Hk. cbn [length] in Hk.
    apply Forall_app in Hf. destruct Hf as [Hf1 Hf2].
    exists CL, lc, KL, [lk]. split; [exact HcL |]. split; [exact HkL |].
    split; [right; split; [discriminate | split; [reflexivity | lia]] |]. split.
    + intros h0. apply wf_node. cbn [Contents Children]. split; [lia |]. split; [lia | exact Hf1].
    + apply wf_node. cbn [Contents Children]. unfold len. cbn [length]. split; [lia |].
      split; [reflexivity | exact Hf2].
Qed.

(** A node without its first item and first child. *)
Lemma wf_first minc maxc h lo hi R :
  wf minc maxc h lo hi R = true -> 1 <= len (Contents R) ->
  exists fc CR LK KR, Contents R = fc :: CR /\ Children R = LK ++ KR /\
    ((h = O /\ LK = [] /\ KR = []) \/ (h <> O /\ length LK = 1%nat /\ length KR = S (length CR))) /\
    (forall h0, wf minc maxc h (lo - 1) (hi - 1) (mkNode h0 CR KR) = true) /\
    wf minc maxc h 0 0 (mkNode [] [] LK) = true.
Proof.
  intros Hw Hl. destruct (Contents R) as [| fc CR] eqn:HcR; [unfold len in Hl; cbn in Hl; lia |].
  assert (HlCR : len (fc :: CR) = len CR + 1) by (unfold len; cbn [length]; lia).
  destruct h as [| h].
  - apply wf_leaf in Hw. rewrite HcR in Hw. destruct Hw as [Hb Hk]. exists fc, CR, [], [].
    split; [reflexivity |]. split; [exact Hk |]. split; [left; auto |]. split.
    + intros h0. apply wf_leaf. cbn [Contents Children]. split; [lia | reflexivity].
    + apply wf_leaf. cbn [Contents Children]. unfold len. cbn. split; [lia | reflexivity].
  - apply wf_node in Hw. rewrite HcR in Hw. destruct Hw as [Hb [Hk Hf]].
    destruct (Children R) as [| k0 KR] eqn:HkR; [discriminate |]. cbn [length] in Hk.
    inversion Hf as [| ? ? Hf1 Hf2]; subst.
    exists fc, CR, [k0], KR. split; [reflexivity |]. split; [reflexivity |].
    split; [right; split; [discriminate | split; [reflexivity | lia]] |]. split.
    + intros h0. apply wf_node. cbn [Contents Children]. split; [lia |]. split; [lia | exact Hf2].
    + apply wf_node. cbn [Contents Children]. unfold len. cbn [length]. split; [lia |].
      split; [reflexivity | constructor; [exact Hf1 | constructor]].
Qed.

Lemma lo_of_eq minc c : lo_of minc c = match c with [] => 1 | _ => minc end.
Proof. destruct c; reflexivity. Qed.

Ltac app_norm := repeat rewrite <- app_assoc; cbn [app]; repeat rewrite <- app_assoc.

(** After [rotateRight] the tree is a B-tree again, with the same items. *)
Lemma post_rotateRight mm s (Hmm : 3 <= mm) h c FL' L sp FR N CL lc KL LK t' :
  ctx_ok (minContents mm) (maxContents mm) h (mkFrame (FL' ++ [(L, sp)]) FR :: c) = true ->
  wf (minContents mm) (maxContents mm) h (minContents mm - 1) (minContents mm - 1) N = true ->
  minContents mm < len (Contents L) ->
  Contents L = CL ++ [lc] -> Children L = KL ++ LK ->
  ((h = O /\ LK = [] /\ KL = []) \/ (h <> O /\ length LK = 1%nat /\ length KL = S (length CL))) ->
  (forall h0, wf (minContents mm) (maxContents mm) h (minContents mm - 1) (maxContents mm - 1)
                 (mkNode h0 CL KL) = true) ->
  wf (minContents mm) (maxContents mm) h 0 0 (mkNode [] [] LK) = true ->
  view t' = (Some (plug c (mkNode [] (map snd FL' ++ lc :: map fst FR)
       (map fst FL' ++ mkNode (Hash L) CL KL :: mkNode (Hash N) (sp :: Contents N) (LK ++ Children N)
        :: map snd FR))), s, mm) ->
  rb_post (minContents mm) (maxContents mm) s mm h c (fill (mkFrame (FL' ++ [(L, sp)]) FR) N) None t'.
Proof.
  intros Hc HN HL HcL HkL Hcase HL' HB Hv.
  destruct (caps_facts mm Hmm) as [Hmin [_ [H2 Hmax]]].
  apply ctx_ok_cons in Hc. destruct Hc as [Hbf [Hsib Hc]].
  rewrite fsiblings_snoc in Hsib. apply wf_forall_app in Hsib. destruct Hsib as [Hsib _].
  pose proof (wf_bounds _ _ _ _ _ _ HN) as HbN. pose proof (wf_kids _ _ _ _ _ _ HN) as HkN.
  assert (HlL : len (Contents L) = len CL + 1) by (rewrite HcL; unfold len; rewrite length_app; cbn; lia).
  assert (HwL' : wf (minContents mm) (maxContents mm) h (minContents mm) (maxContents mm)
                    (mkNode (Hash L) CL KL) = true).
  { eapply wf_lo; [eapply wf_hi; [apply HL' |] |]; cbn [Contents]; pose proof (HL' (Hash L)) as H;
      apply wf_bounds in H; cbn [Contents] in H; lia. }
  assert (HwN' : wf (minContents mm) (maxContents mm) h (minContents mm) (maxContents mm)
                    (mkNode (Hash N) (sp :: Contents N) (LK ++ Children N)) = true).
  { apply (wf_merge _ _ h _ _ (Hash N) (mkNode [] [] LK) sp N 0 0 _ _ HB HN).
    cbn [Contents]. unfold len in *. cbn [length]. lia. }
  unfold rb_post. rewrite <- fill_snoc in Hv. eexists. split; [exact Hv |]. split.
  - eapply (wf_root_plug _ _ (S h) c); [exact Hc |]. apply wf_fill. split; [| split; [exact HwN' |]].
    + rewrite lo_of_eq. unfold len in *. rewrite fcontents_snoc in *. lia.
    + rewrite fsiblings_snoc. apply wf_forall_app. split; [exact Hsib | exact HwL'].
  - rewrite !inorder_plug, !inorder_fill, !left_items_snoc.
    change (right_items (mkFrame (FL' ++ [(mkNode (Hash L) CL KL, lc)]) FR))
      with (right_items (mkFrame (FL' ++ [(L, sp)]) FR)).
    destruct L as [hL cL kL]. cbn [Contents Children Hash] in *. subst cL kL.
    assert (E1 : inorder (mkNode hL (CL ++ [lc]) (KL ++ LK)) =
                 inorder (mkNode hL CL KL) ++ lc :: inorder (mkNode [] [] LK)).
    { apply (inorder_merge hL (mkNode hL CL KL) lc (mkNode [] [] LK)).
      cbn [Children Contents length]. destruct Hcase as [[_ [-> ->]] | [_ [-> ->]]]; auto. }
    assert (E2 : inorder (mkNode (Hash N) (sp :: Contents N) (LK ++ Children N)) =
                 inorder (mkNode [] [] LK) ++ sp :: inorder N).
    { apply (inorder_merge (Hash N) (mkNode [] [] LK) sp N).
      cbn [Children Contents length].
      destruct Hcase as [[-> [-> _]] | [Hh [-> _]]], HkN as [[Hh' HkN] | [Hh' HkN]];
        try contradiction; try (exfalso; apply Hh'; reflexivity); auto. }
    rewrite E1, E2.
    app_norm. reflexivity.
Qed.

(** After [rotateLeft] the tree is a B-tree again, with the same items. *)
Lemma post_rotateLeft mm s (Hmm : 3 <= mm) h c FL sp R FR' N fc CR LK KR t' :
  ctx_ok (minContents mm) (maxContents mm) h (mkFrame FL ((sp, R) :: FR') :: c) = true ->
  wf (minContents mm) (maxContents mm) h (minContents mm - 1) (minContents mm - 1) N = true ->
  minContents mm < len (Contents R) ->
  Contents R = fc :: CR -> Children R = LK ++ KR ->
  ((h = O /\ LK = [] /\ KR = []) \/ (h <> O /\ length LK = 1%nat /\ length KR = S (length CR))) ->
  (forall h0, wf (minContents mm) (maxContents mm) h (minContents mm - 1) (maxContents mm - 1)
                 (mkNode h0 CR KR) = true) ->
  wf (minContents mm) (maxContents mm) h 0 0 (mkNode [] [] LK) = true ->
  view t' = (Some (plug c (mkNode [] (map snd FL ++ fc :: map fst FR')
       (map fst FL ++ mkNode (Hash N) (Contents N ++ [sp]) (Children N ++ LK) :: mkNode (Hash R) CR KR
        :: map snd FR'))), s, mm) ->
  rb_post (minContents mm) (maxContents mm) s mm h c (fill (mkFrame FL ((sp, R) :: FR')) N) None t'.
Proof.
  intros Hc HN HR HcR HkR Hcase HR' HB Hv.
  destruct (caps_facts mm Hmm) as [Hmin [_ [H2 Hmax]]].
  apply ctx_ok_cons in Hc. destruct Hc as [Hbf [Hsib Hc]].
  rewrite fsiblings_cons in Hsib. apply wf_forall_app in Hsib. destruct Hsib as [Hsib _].
  pose proof (wf_bounds _ _ _ _ _ _ HN) as HbN. pose proof (wf_kids _ _ _ _ _ _ HN) as HkN.
  assert (HlR : len (Contents R) = len CR + 1) by (rewrite HcR; unfold len; cbn [length]; lia).
  assert (HwR' : wf (minContents mm) (maxContents mm) h (minContents mm) (maxContents mm)
                    (mkNode (Hash R) CR KR) = true).
  { eapply wf_lo; [eapply wf_hi; [apply HR' |] |]; cbn [Contents]; pose proof (HR' (Hash R)) as H;
      apply wf_bounds in H; cbn [Contents] in H; lia. }
  assert (HwN' : wf (minContents mm) (maxContents mm) h (minContents mm) (maxContents mm)
                    (mkNode (Hash N) (Contents N ++ [sp]) (Children N ++ LK)) = true).
  { apply (wf_merge _ _ h _ _ (Hash N) N sp (mkNode [] [] LK) _ _ 0 0 HN HB).
    cbn [Contents]. unfold len in *. cbn [length]. lia. }
  unfold rb_post. change (mkNode [] (map snd FL ++ fc :: map fst FR')
       (map fst FL ++ mkNode (Hash N) (Contents N ++ [sp]) (Children N ++ LK) :: mkNode (Hash R) CR KR
        :: map snd FR'))
    with (fill (mkFrame FL ((fc, mkNode (Hash R) CR KR) :: FR'))
               (mkNode (Hash N) (Contents N ++ [sp]) (Children N ++ LK))) in Hv.
  eexists. split; [exact Hv |]. split.
  - eapply (wf_root_plug _ _ (S h) c); [exact Hc |]. apply wf_fill. split; [| split; [exact HwN' |]].
    + rewrite lo_of_eq. unfold len in *. rewrite fcontents_cons in *. lia.
    + rewrite fsiblings_cons. apply wf_forall_app. split; [exact Hsib | exact HwR'].
  - rewrite !inorder_plug, !inorder_fill, !right_items_cons.
    change (left_items (mkFrame FL ((fc, mkNode (Hash R) CR KR) :: FR')))
      with (left_items (mkFrame FL ((sp, R) :: FR'))).
    destruct R as [hR cR kR]. cbn [Contents Children Hash] in *. subst cR kR.
    assert (E1 : inorder (mkNode (Hash N) (Contents N ++ [sp]) (Children N ++ LK)) =
                 inorder N ++ sp :: inorder (mkNode [] [] LK)).
    { apply (inorder_merge (Hash N) N sp (mkNode [] [] LK)).
      cbn [Children Contents length].
      destruct Hcase as [[-> [-> _]] | [Hh [-> _]]], HkN as [[Hh' HkN] | [Hh' HkN]];
        try contradiction; try (exfalso; apply Hh'; reflexivity); auto. }
    assert (E2 : inorder (mkNode hR (fc :: CR) (LK ++ KR)) =
                 inorder (mkNode [] [] LK) ++ fc :: inorder (mkNode hR CR KR)).
    { apply (inorder_merge hR (mkNode [] [] LK) fc (mkNode hR CR KR)).
      cbn [Children Contents length]. destruct Hcase as [[_ [-> ->]] | [_ [-> ->]]]; auto. }
    rewrite E1, E2.
    repeat first [rewrite <- app_assoc | rewrite <- app_comm_cons]. reflexivity.
Qed.

(** The item a node was deleted by locates the node among its siblings. *)
Lemma search_loc f N d pn :
  StronglySorted ltk (inorder (fill f N)) -> loc d f -> erase pn = fill f N ->
  fst (search pn d) = Z.of_nat (length (fl f)).
Proof.
  intros Hs [H1 H2] Hpn.
  assert (Hcs : Contents pn = map snd (fl f) ++ map fst (fr f))
    by (rewrite <- erase_Contents, Hpn; reflexivity).
  rewrite (search_app pn d (map snd (fl f)) (map fst (fr f))).
  - cbn. unfold len. rewrite length_map. reflexivity.
  - rewrite Hcs. apply (contents_sorted (fill f N)); [| exact Hs]. right.
    rewrite fill_Children, fill_Contents, len_fcontents, length_app. cbn [length].
    rewrite !length_map. lia.
  - exact Hcs.
  - exact H1.
  - exact H2.
Qed.

Lemma len_children_fill f N pn :
  erase pn = fill f N -> len (Children pn) = Z.of_nat (S (length (fl f) + length (fr f))).
Proof.
  intros Hpn. unfold len. rewrite <- (length_map erase), <- erase_Children, Hpn, fill_Children, length_app.
  cbn [length]. rewrite !length_map. lia.
Qed.

Lemma node_at_left c FL L sp FR N :
  node_at (plug c (fill (mkFrame (FL ++ [(L, sp)]) FR) N)) (length FL :: ctx_addr c) = Some L.
Proof.
  rewrite node_at_child, fill_Children. cbn [fl fr]. rewrite map_app, <- app_assoc. cbn [app].
  rewrite <- (length_map fst FL). apply nth_error_mid.
Qed.

Lemma node_at_right c FL sp R FR N :
  node_at (plug c (fill (mkFrame FL ((sp, R) :: FR)) N)) (S (length FL) :: ctx_addr c) = Some R.
Proof.
  rewrite node_at_child, fill_Children. cbn [fl fr map].
  rewrite <- (length_map fst FL). apply nth_error_mid2.
Qed.

Lemma kids_pair minc maxc h loA hiA loB hiB A B :
  wf minc maxc h loA hiA A = true -> wf minc maxc h loB hiB B = true ->
  (Children A = [] /\ Children B = []) \/
  (length (Children A) = S (length (Contents A)) /\ length (Children B) = S (length (Contents B))).
Proof.
  intros HA HB.
  destruct (wf_kids _ _ _ _ _ _ HA) as [[H1 K1] | [H1 K1]], (wf_kids _ _ _ _ _ _ HB) as [[H2 K2] | [H2 K2]];
    [left; auto | congruence | congruence | right; auto].
Qed.

(** [rebalanceNode] on an underflowing node [N] below the frame [f]:
    a rotation, or a merge that leaves the parent one item short. *)
Lemma runs_rebalanceNode CH Sum mm s (Hmm : 3 <= mm) h f c N d t :
  view t = (Some (plug c (fill f N)), s, mm) ->
  ctx_ok (minContents mm) (maxContents mm) h (f :: c) = true ->
  wf (minContents mm) (maxContents mm) h (minContents mm - 1) (minContents mm - 1) N = true ->
  StronglySorted ltk (inorder (plug c (fill f N))) ->
  loc d f ->
  Runs (rebalanceNode CH Sum (length (fl f)) (ctx_addr c) d) t
       (rb_post (minContents mm) (maxContents mm) s mm h c (fill f N)).
Proof.
  intros Hv Hc HN Hs Hloc. destruct (caps_facts mm Hmm) as [Hmin [_ [H2 Hmax]]].
  pose proof Hc as Hc0. apply ctx_ok_cons in Hc. destruct Hc as [Hbf [Hsib Hc]].
  pose proof (SS_plug_fill _ _ _ Hs) as Hsf.
  destruct (view_root _ _ _ _ Hv) as [r [Er [Hr [Hsz Hm]]]].
  unfold rebalanceNode. cbv zeta. apply runs_get. rewrite Hm.
  get_at Hv. intros pn Hpn. rewrite (search_loc _ _ _ _ Hsf Hloc Hpn), (len_children_fill _ _ _ Hpn).
  destruct f as [FL FR]. cbn [fl fr] in *.
  set (hl := (0 <=? Z.of_nat (length FL) - 1) && (Z.of_nat (length FL) - 1 <? Z.of_nat (S (length FL + length FR)))).
  assert (Hhl : hl = true <-> FL <> []).
  { unfold hl. rewrite andb_true_iff, Z.leb_le, Z.ltb_lt. destruct FL; cbn [length]; split; try lia; try congruence. }
  clearbody hl.
  apply runs_bind.
  apply (runs_weaken _ _ (fun v t1 => t1 = t /\ (hl = true -> exists FL' L sp, FL = FL' ++ [(L, sp)] /\ v = len (Contents L)))).
  { destruct hl.
    - destruct (list_snoc_cases FL) as [-> | [FL' [[L sp] ->]]]; [exfalso; apply Hhl; reflexivity; fail |].
      replace (Z.to_nat (Z.of_nat (length (FL' ++ [(L, sp)])) - 1)) with (length FL')
        by (rewrite length_app; cbn [length]; lia).
      apply runs_bind. eapply runs_getNode; [exact Hv | apply node_at_left |]. intros lsn Hlsn.
      apply runs_ret. split; [reflexivity |]. intros _. exists FL', L, sp. split; [reflexivity |].
      rewrite <- Hlsn, erase_Contents. reflexivity.
    - apply runs_ret. split; [reflexivity | discriminate]. }
  intros v t1 [-> Hlc].
  destruct (hl && (minContents mm <? v)) eqn:Erot.
  - (* the left sibling lends an item *)
    apply andb_true_iff in Erot. destruct Erot as [Ehl Ev]. apply Z.ltb_lt in Ev.
    destruct (Hlc Ehl) as [FL' [L [sp [-> ->]]]].
    rewrite fsiblings_snoc in Hsib. apply wf_forall_app in Hsib. destruct Hsib as [Hsib' HL].
    destruct (wf_last _ _ _ _ _ L HL ltac:(lia)) as [CL [lc [KL [LK [HcL [HkL [Hcase [HL' HB]]]]]]]].
    replace (length (FL' ++ [(L, sp)])) with (S (length FL')) by (rewrite length_app; cbn [length]; lia).
    replace (Z.of_nat (S (length FL')) - 1) with (Z.of_nat (length FL')) by lia.
    rewrite <- (length_map fst FL').
    apply runs_bind. rewrite fill_snoc in Hv.
    apply (runs_rotateRight CH Sum c (map snd FL') sp (map fst FR) (map fst FL') L N (map snd FR)
             CL lc KL LK t s mm _ Hv).
    + rewrite !length_map. reflexivity.
    + exact HcL.
    + exact HkL.
    + destruct Hcase as [[_ [-> ->]] | [_ [-> _]]]; [left; auto | right; reflexivity].
    + intros t' Hv'. apply runs_ret.
      apply (post_rotateRight mm s Hmm h c FL' L sp FR N CL lc KL LK t' Hc0 HN); assumption.
  - assert (Hleft : hl = true ->
              exists FL' L sp, FL = FL' ++ [(L, sp)] /\ len (Contents L) <= minContents mm).
    { intros Ehl. destruct (Hlc Ehl) as [FL' [L [sp [E ->]]]]. exists FL', L, sp. split; [exact E |].
      rewrite Ehl in Erot. cbn [andb] in Erot. apply Z.ltb_ge in Erot. exact Erot. }
    clear Hlc Erot v.
    get_at Hv. intros pn2 Hpn2.
    rewrite (search_loc _ _ _ _ Hsf Hloc Hpn2), (len_children_fill _ _ _ Hpn2). cbn [fl fr].
    set (hr := Z.of_nat (length FL) + 1 <? Z.of_nat (S (length FL + length FR))).
    assert (Hhr : hr = true <-> FR <> []).
    { unfold hr. rewrite Z.ltb_lt. destruct FR; cbn [length]; split; try lia; try congruence. }
    clearbody hr.
    apply runs_bind.
    apply (runs_weaken _ _ (fun v t1 => t1 = t /\
             (hr = true -> exists sp R FR', FR = (sp, R) :: FR' /\ v = len (Contents R)))).
    { destruct hr.
      - destruct FR as [| [sp R] FR']; [exfalso; apply Hhr; reflexivity; fail |].
        replace (Z.to_nat (Z.of_nat (length FL) + 1)) with (S (length FL)) by lia.
        apply runs_bind. eapply runs_getNode; [exact Hv | apply node_at_right |]. intros rsn Hrsn.
        apply runs_ret. split; [reflexivity |]. intros _. exists sp, R, FR'. split; [reflexivity |].
        rewrite <- Hrsn, erase_Contents. reflexivity.
      - apply runs_ret. split; [reflexivity | discriminate]. }
    intros v t1 [-> Hrc].
    destruct (hr && (minContents mm <? v)) eqn:Erot.
    + (* the right sibling lends an item *)
      apply andb_true_iff in Erot. destruct Erot as [Ehr Ev]. apply Z.ltb_lt in Ev.
      destruct (Hrc Ehr) as [sp [R [FR' [-> ->]]]].
      rewrite fsiblings_cons in Hsib. apply wf_forall_app in Hsib. destruct Hsib as [Hsib' HR].
      destruct (wf_first _ _ _ _ _ R HR ltac:(lia)) as [fc [CR [LK [KR [HcR [HkR [Hcase [HR' HB]]]]]]]].
      replace (Z.of_nat (length FL) + 1) with (Z.of_nat (S (length FL))) by lia.
      rewrite <- (length_map fst FL).
      apply runs_bind.
      apply (runs_rotateLeft CH Sum c (map snd FL) sp (map fst FR') (map fst FL) N R (map snd FR')
               fc CR LK KR t s mm _ Hv).
      * rewrite !length_map. reflexivity.
      * exact HcR.
      * exact HkR.
      * destruct Hcase as [[_ [-> ->]] | [_ [-> _]]]; [left; auto | right; reflexivity].
      * intros t' Hv'. apply runs_ret.
        apply (post_rotateLeft mm s Hmm h c FL sp R FR' N fc CR LK KR t' Hc0 HN); assumption.
    + destruct FR as [| [sp R] FR'].
      * (* no right sibling: merge into the left one *)
        assert (Ehr : hr = false)
          by (destruct hr; [exfalso; apply (proj1 Hhr eq_refl); reflexivity | reflexivity]).
        assert (Ehl : hl = true).
        { apply Hhl. intros ->. unfold fcontents, len in Hbf. cbn in Hbf. destruct c; lia. }
        rewrite Ehr, Ehl. cbv iota.
        destruct (Hleft Ehl) as [FL' [L [sp [-> HLle]]]].
        pose proof Hsib as Hsib0.
        rewrite fsiblings_snoc in Hsib. apply wf_forall_app in Hsib. destruct Hsib as [Hsib' HL].
        replace (length (FL' ++ [(L, sp)])) with (S (length FL')) by (rewrite length_app; cbn [length]; lia).
        replace (Z.of_nat (S (length FL')) - 1) with (Z.of_nat (length FL')) by lia.
        rewrite <- (length_map fst FL').
        apply runs_bind. rewrite fill_snoc in Hv.
        apply (runs_mergeLeft CH Sum c (map snd FL') sp (map fst []) (map fst FL') L N (map snd [])
                 t s mm _ Hv).
        { rewrite !length_map. reflexivity. }
        intros t' Hv'. cbv beta iota. rewrite length_map.
        apply (runs_merge_tail CH Sum mm s Hmm h c (mkFrame FL' [])
                 (mkNode (Hash N) (Contents L ++ sp :: Contents N) (Children L ++ Children N))
                 _ sp (length FL') t' Hv' eq_refl Hc).
        -- pose proof (wf_bounds _ _ _ _ _ _ HL). pose proof (wf_bounds _ _ _ _ _ _ HN).
           apply (wf_merge _ _ h _ _ (Hash N) L sp N _ _ _ _ HL HN). lia.
        -- exact Hsib'.
        -- rewrite lo_of_eq. unfold len in *. rewrite fcontents_snoc in Hbf. destruct c; lia.
        -- rewrite !inorder_fill, left_items_snoc.
           rewrite (inorder_merge (Hash N) L sp N (kids_pair _ _ _ _ _ _ _ _ _ HL HN)).
           change (right_items (mkFrame FL' [])) with (right_items (mkFrame (FL' ++ [(L, sp)]) [])).
           app_norm. reflexivity.
        -- exact Hs.
        -- rewrite inorder_fill. apply in_or_app. left. apply in_left_items. cbn [fl].
           rewrite map_app. apply in_or_app. right. left. reflexivity.
      * (* merge with the right sibling *)
        assert (Ehr : hr = true) by (apply Hhr; discriminate).
        rewrite Ehr in Erot |- *. cbn [andb] in Erot. apply Z.ltb_ge in Erot.
        destruct (Hrc Ehr) as [sp' [R' [FR'' [E ->]]]]. injection E as <- <- <-.
        cbv iota.
        rewrite fsiblings_cons in Hsib. apply wf_forall_app in Hsib. destruct Hsib as [Hsib' HR].
        replace (Z.of_nat (length FL) + 1) with (Z.of_nat (S (length FL))) by lia.
        rewrite <- (length_map fst FL).
        apply runs_bind.
        apply (runs_mergeRight CH Sum c (map snd FL) sp (map fst FR') (map fst FL) N R (map snd FR')
                 t s mm _ Hv).
        { rewrite !length_map. reflexivity. }
        intros t' Hv'. cbv beta iota. rewrite length_map.
        apply (runs_merge_tail CH Sum mm s Hmm h c (mkFrame FL FR')
                 (mkNode (Hash N) (Contents N ++ sp :: Contents R) (Children N ++ Children R))
                 _ sp (length FL) t' Hv' eq_refl Hc).
        -- pose proof (wf_bounds _ _ _ _ _ _ HR). pose proof (wf_bounds _ _ _ _ _ _ HN).
           apply (wf_merge _ _ h _ _ (Hash N) N sp R _ _ _ _ HN HR). lia.
        -- exact Hsib'.
        -- rewrite lo_of_eq. unfold len in *. rewrite fcontents_cons in Hbf. destruct c; lia.
        -- rewrite !inorder_fill, right_items_cons.
           rewrite (inorder_merge (Hash N) N sp R (kids_pair _ _ _ _ _ _ _ _ _ HN HR)).
           change (left_items (mkFrame FL FR')) with (left_items (mkFrame FL ((sp, R) :: FR'))).
           app_norm. reflexivity.
        -- exact Hs.
        -- rewrite inorder_fill. apply in_or_app. right. apply in_or_app. right.
           rewrite right_items_cons. left. reflexivity.
Qed.

Lemma rebalance_cons CH Sum i p d :
  rebalance CH Sum (i :: p) d =
  (t <- get_tree;;
   node <- getNode (i :: p);;
   if minContents (m t) <=? len (Contents node) then (ReCalculateMerkleRoot CH Sum (i :: p);; ret tt)
   else (next <- rebalanceNode CH Sum i p d;;
         match next with None => ret tt | Some item => rebalance CH Sum p item end)).
Proof. reflexivity. Qed.

(** [rebalance] from a node one item short (or not short at all) up to the
    root: the result is a B-tree with the same items, or an empty leaf root
    when the root itself was a leaf holding nothing. *)
Lemma runs_rebalance CH Sum mm s (Hmm : 3 <= mm) ctx : forall h N d t,
  view t = (Some (plug ctx N), s, mm) ->
  ctx_ok (minContents mm) (maxContents mm) h ctx = true ->
  wf (minContents mm) (maxContents mm) h (lo_of (minContents mm) ctx - 1) (maxContents mm) N = true ->
  (ctx = [] -> h <> O -> 1 <= len (Contents N)) ->
  StronglySorted ltk (inorder (plug ctx N)) ->
  match ctx with [] => True | f :: _ => loc d f end ->
  Runs (rebalance CH Sum (ctx_addr ctx) d) t
    (fun _ t' => exists R', view t' = (Some R', s, mm) /\ inorder R' = inorder (plug ctx N) /\
       (wf (minContents mm) (maxContents mm) (height R') 1 (maxContents mm) R' = true \/
        (ctx = [] /\ Contents N = [] /\ Contents R' = [] /\ Children R' = []))).
Proof.
  destruct (caps_facts mm Hmm) as [Hmin [_ [H2 Hmax]]].
  induction ctx as [| f c IH]; intros h N d t Hv Hc HN Hne Hs Hloc;
    destruct (view_root _ _ _ _ Hv) as [r [Er [Hr [Hsz Hm]]]].
  - cbn [ctx_addr map rebalance]. apply runs_get. rewrite Hm.
    apply runs_bind. eapply runs_getNode; [exact Hv | reflexivity |]. intros n Hn.
    rewrite <- erase_Contents, Hn. cbn [lo_of plug] in *.
    pose proof (wf_bounds _ _ _ _ _ _ HN) as Hb.
    destruct (minContents mm <=? len (Contents N)) eqn:E.
    + apply Z.leb_le in E. apply runs_bind. eapply runs_ReCalc; [exact Hv | reflexivity |].
      intros o t' Hv'. apply runs_ret. exists N. split; [exact Hv' |]. split; [reflexivity |]. left.
      rewrite (wf_height _ _ _ _ _ _ HN). eapply wf_lo; [exact HN | lia].
    + apply runs_ret. exists N. split; [exact Hv |]. split; [reflexivity |].
      destruct (Z.eq_dec (len (Contents N)) 0) as [E0 | E0].
      * destruct h as [| h]; [| specialize (Hne eq_refl ltac:(discriminate)); lia].
        right. apply wf_leaf in HN. split; [reflexivity |].
        destruct (Contents N); [| unfold len in E0; cbn in E0; lia].
        split; [reflexivity |]. split; [reflexivity | apply HN].
      * left. rewrite (wf_height _ _ _ _ _ _ HN). eapply wf_lo; [exact HN | lia].
  - change (ctx_addr (f :: c)) with (length (fl f) :: ctx_addr c). rewrite rebalance_cons.
    apply runs_get. rewrite Hm.
    apply runs_bind. eapply runs_getNode; [exact Hv | apply (node_at_plug0 (f :: c)) |]. intros n Hn.
    rewrite <- erase_Contents, Hn.
    pose proof Hc as Hc'. apply ctx_ok_cons in Hc'. destruct Hc' as [Hbf [Hsib Hcc]].
    cbn [lo_of] in HN. pose proof (wf_bounds _ _ _ _ _ _ HN) as Hb.
    destruct (minContents mm <=? len (Contents N)) eqn:E.
    + apply Z.leb_le in E. apply runs_bind.
      eapply runs_ReCalc; [exact Hv | apply (node_at_plug0 (f :: c)) |].
      intros o t' Hv'. apply runs_ret. exists (plug (f :: c) N). split; [exact Hv' |].
      split; [reflexivity |]. left.
      apply (wf_root_plug _ _ h); [exact Hc |]. cbn [lo_of]. eapply wf_lo; [exact HN | lia].
    + apply Z.leb_gt in E.
      assert (HN' : wf (minContents mm) (maxContents mm) h (minContents mm - 1) (minContents mm - 1) N = true)
        by (eapply wf_hi; [exact HN | lia]).
      apply runs_bind.
      eapply runs_weaken; [apply (runs_rebalanceNode CH Sum mm s Hmm h f c N d t Hv Hc HN' Hs Hloc) |].
      intros o t' Hpost. destruct o as [d' |].
      * destruct Hpost as [P' [Hv' [HP' [Hne' [Hio Hloc']]]]].
        eapply runs_weaken; [apply (IH (S h) P' d' t' Hv' Hcc HP' (fun E _ => Hne' E)) |].
        -- rewrite Hio. exact Hs.
        -- destruct c; [exact I | exact Hloc'].
        -- intros u t2 [R' [Hv2 [Hi2 Hw2]]]. exists R'. split; [exact Hv2 |].
           split; [rewrite Hi2, Hio; reflexivity |].
           destruct Hw2 as [Hw2 | [E1 [Hc0 _]]]; [left; exact Hw2 |]. exfalso.
           specialize (Hne' E1). rewrite Hc0 in Hne'. unfold len in Hne'. cbn in Hne'. lia.
      * destruct Hpost as [R' [Hv' [HR' Hio]]]. apply runs_ret. exists R'.
        split; [exact Hv' |]. split; [exact Hio |]. left. exact HR'.
Qed.

(** [searchFrom] finds a stored key: it returns the address of the node
    holding it and its index there, and does not touch the tree. *)
Lemma searchFrom_found minc maxc item (n : Node) : forall ctx h,
  ctx_ok minc maxc h ctx = true ->
  wf minc maxc h (lo_of minc ctx) maxc (erase n) = true ->
  StronglySorted ltk (inorder (plug ctx (erase n))) ->
  Forall (fun a => Key a < Key item) (ctx_left ctx) ->
  Forall (fun a => Key item < Key a) (ctx_right ctx) ->
  In (Key item) (map Key (inorder (erase n))) ->
  exists ctx' N' l1 c0 l2 h',
    (forall t, searchFrom n (ctx_addr ctx) item t = Ok (Some (ctx_addr ctx', len l1)) t) /\
    plug ctx' N' = plug ctx (erase n) /\ Contents N' = l1 ++ c0 :: l2 /\ Key c0 = Key item /\
    ctx_ok minc maxc h' ctx' = true /\ wf minc maxc h' (lo_of minc ctx') maxc N' = true.
Proof.
  induction n as [hn cs ks IH] using Node_ind'. intros ctx h Hc Hw Hs HL HR Hin.
  cbn [erase] in *.
  pose proof (wf_children _ _ _ _ _ _ Hw) as HkN. cbn [Contents Children] in HkN.
  rewrite length_map in HkN.
  assert (Hcs : StronglySorted ltk cs).
  { apply (contents_sorted (mkNode [] cs (map erase ks)));
      [cbn [Contents Children]; rewrite length_map; destruct HkN as [-> | ->]; [left | right]; reflexivity |].
    exact (SS_hole ctx _ Hs). }
  destruct (sorted_split (Key item) cs Hcs) as [l1 [l2 [Ecs [H1 H2]]]].
  cbn [searchFrom]. rewrite (search_app (mkNode hn cs ks) item l1 l2 Hcs Ecs H1 H2).
  destruct (match l2 with c :: _ => Key c =? Key item | [] => false end) eqn:Ef.
  - destruct l2 as [| c0 l2]; [discriminate |]. apply Z.eqb_eq in Ef.
    exists ctx, (mkNode [] cs (map erase ks)), l1, c0, l2, h.
    split; [intros t; reflexivity |]. split; [reflexivity |]. split; [exact Ecs |].
    split; [exact Ef |]. split; [exact Hc | exact Hw].
  - assert (H2s : Forall (fun a => Key item < Key a) l2).
    { apply strict_above; [exact H2 | | exact Ef]. rewrite Ecs in Hcs. apply SS_app in Hcs. tauto. }
    destruct ks as [| k0 ks'].
    + exfalso. cbn [map inorder] in Hin. apply in_map_iff in Hin. destruct Hin as [y [Hy Hin]].
      rewrite Ecs in Hin. apply in_app_or in Hin. rewrite Forall_forall in H1, H2s.
      destruct Hin as [Hin | Hin]; [specialize (H1 y Hin) | specialize (H2s y Hin)]; lia.
    + destruct h as [| h];
        [apply wf_leaf in Hw; cbn [Children map] in Hw; destruct Hw as [_ Hw]; discriminate |].
      assert (Hlen : length (map erase (k0 :: ks')) = S (length cs)).
      { apply wf_node in Hw. cbn [Contents Children] in Hw. apply Hw. }
      assert (Hj : (length l1 < length (k0 :: ks'))%nat)
        by (rewrite length_map in Hlen; rewrite Hlen, Ecs, length_app; lia).
      cbv beta match zeta.
      replace (Z.to_nat (len l1)) with (length l1) by (unfold len; lia).
      set (x := nth (length l1) (k0 :: ks') (mkNode [] [] [])).
      assert (Hx : nth_error (map erase (k0 :: ks')) (length l1) = Some (erase x))
        by (rewrite nth_error_map, (nth_error_nth' (k0 :: ks') (mkNode [] [] []) Hj); reflexivity).
      destruct (desc_step _ _ h ctx cs _ _ _ Hc Hw Hx) as [Hc' [Hw' [Hp Ha]]].
      assert (Hj' : (length l1 < length (map erase (k0 :: ks')))%nat) by (rewrite length_map; exact Hj).
      destruct (frame_at_fl cs _ _ Hlen Hj') as [_ [Efl [Efr _]]].
      pose proof (fill_frame_at cs _ _ _ Hlen Hx) as Hfill.
      set (f := frame_at cs (map erase (k0 :: ks')) (length l1)) in *.
      rewrite Ecs, firstn_len_app in Efl. rewrite Ecs, skipn_len_app in Efr.
      rewrite <- Hp in Hs.
      pose proof Hs as Hs'. rewrite inorder_plug in Hs'. cbn [ctx_left ctx_right] in Hs'.
      apply SS_app in Hs'. destruct Hs' as [Hsl [Hsr _]]. apply SS_app in Hsl, Hsr.
      assert (HLf : Forall (fun z => Key z < Key item) (left_items f)).
      { apply (left_items_below (fun z => z < Key item));
          [intros a b Hab Hb; lia | apply Hsl | rewrite Efl; exact H1]. }
      assert (HRf : Forall (fun z => Key item < Key z) (right_items f)).
      { destruct Hsr as [_ [Hsr _]]. apply SS_app in Hsr.
        apply (right_items_above (fun z => Key item < z));
          [intros a b Hab Hb; lia | apply Hsr | rewrite Efr; exact H2s]. }
      assert (Hin' : In (Key item) (map Key (inorder (erase x)))).
      { rewrite <- Hfill, inorder_fill, !map_app in Hin. apply in_app_or in Hin.
        rewrite Forall_forall in HLf, HRf.
        destruct Hin as [Hin | Hin]; [| apply in_app_or in Hin; destruct Hin as [Hin | Hin]; [exact Hin |]];
          exfalso; apply in_map_iff in Hin; destruct Hin as [y [Hy Hin]];
          [specialize (HLf y Hin) | specialize (HRf y Hin)]; lia. }
      rewrite Forall_forall in IH.
      destruct (IH x (nth_In _ _ Hj) (f :: ctx) h Hc' Hw' Hs) as [ctx' [N' [m1 [c0 [m2 [h' [Hrun Hrest]]]]]]].
      * cbn [ctx_left]. apply Forall_app. split; [exact HL | exact HLf].
      * cbn [ctx_right]. apply Forall_app. split; [exact HRf | exact HR].
      * exact Hin'.
      * exists ctx', N', m1, c0, m2, h'. split.
        -- intros t. rewrite (child_fix_nth (fun k => searchFrom k (length l1 :: ctx_addr ctx) item) _ _ Hj).
           rewrite <- Ha. apply Hrun.
        -- destruct Hrest as [Hpl Hrest]. split; [rewrite Hpl; exact Hp | exact Hrest].
Qed.

Lemma last_fix_eq {A} (g : nat -> Node -> M A) ks k : forall i,
  (fix last (ks : list Node) (i : nat) : M A :=
     match ks with
     | [] => panic out_of_range
     | [k] => g i k
     | _ :: ks' => last ks' (S i)
     end) (ks ++ [k]) i = g (i + length ks)%nat k.
Proof.
  induction ks as [| k0 ks IH]; intros i.
  - cbn. rewrite Nat.add_0_r. reflexivity.
  - specialize (IH (S i)). cbn [app length].
    destruct ks as [| k1 ks]; cbn [app length] in *.
    + rewrite IH. f_equal. lia.
    + rewrite IH. f_equal. lia.
Qed.

(** [tree.right] descends along last children to the rightmost leaf. *)
Lemma rightFrom_spec minc maxc (n : Node) : forall h,
  wf minc maxc h minc maxc (erase n) = true ->
  exists D L, (forall a t, rightFrom n a t = Ok (ctx_addr D ++ a) t) /\
    plug D L = erase n /\ Forall (fun f => fr f = []) D /\
    (forall c, c <> [] -> ctx_ok minc maxc h c = true -> ctx_ok minc maxc O (D ++ c) = true) /\
    wf minc maxc O minc maxc L = true.
Proof.
  induction n as [hn cs ks IH] using Node_ind'. intros h Hw. cbn [erase] in *.
  destruct (list_snoc_cases ks) as [-> | [ks0 [k ->]]].
  - destruct h as [| h]; [| apply wf_node in Hw; cbn [Children Contents length map] in Hw; lia].
    exists [], (mkNode [] cs []). split; [intros a t; reflexivity |]. split; [reflexivity |].
    split; [constructor |]. split; [intros c _ Hc; exact Hc | exact Hw].
  - destruct h as [| h]; [apply wf_leaf in Hw; destruct Hw as [_ Hw]; cbn [Children] in Hw;
                           rewrite map_app in Hw; destruct (map erase ks0); discriminate |].
    assert (Hr : forall a, rightFrom (mkNode hn cs (ks0 ++ [k])) a = rightFrom k (length ks0 :: a)).
    { intros a. destruct ks0 as [| k1 ks1]; [reflexivity |].
      exact (last_fix_eq (fun i k => rightFrom k (i :: a)) (k1 :: ks1) k O). }
    assert (Hlen : length (map erase (ks0 ++ [k])) = S (length cs))
      by (apply wf_node in Hw; apply Hw).
    assert (Hx : nth_error (map erase (ks0 ++ [k])) (length ks0) = Some (erase k)).
    { rewrite map_app. cbn [map]. rewrite <- (length_map erase ks0). apply nth_error_mid. }
    assert (Hj : (length ks0 < length (map erase (ks0 ++ [k])))%nat)
      by (rewrite length_map, length_app; cbn [length]; lia).
    destruct (frame_at_fl cs _ _ Hlen Hj) as [_ [_ [_ [E4 E5]]]].
    set (g := frame_at cs (map erase (ks0 ++ [k])) (length ks0)) in *.
    assert (Hwk : wf minc maxc h minc maxc (erase k) = true).
    { apply wf_node in Hw. destruct Hw as [_ [_ Hw]]. rewrite Forall_forall in Hw. apply Hw.
      apply in_map. apply in_or_app. right. left. reflexivity. }
    rewrite Forall_forall in IH.
    destruct (IH k ltac:(apply in_or_app; right; left; reflexivity) h Hwk)
      as [D' [L [Hrun [Hpl [Hfr [Hc Hl]]]]]].
    exists (D' ++ [g]), L. split; [| split; [| split; [| split]]].
    + intros a t. rewrite Hr, Hrun, ctx_addr_app. cbn [ctx_addr map]. rewrite E5, <- app_assoc.
      reflexivity.
    + rewrite plug_app, Hpl. cbn [plug]. apply fill_frame_at; assumption.
    + apply Forall_app. split; [exact Hfr |]. constructor; [| constructor].
      apply (map_eq_nil snd). rewrite E4. apply skipn_all2.
      rewrite length_map, length_app. cbn [length]. lia.
    + intros c Hne Hcc. rewrite <- app_assoc. cbn [app]. apply Hc; [discriminate |].
      assert (Hwn : wf minc maxc (S h) (lo_of minc c) maxc (mkNode [] cs (map erase (ks0 ++ [k]))) = true)
        by (destruct c; [contradiction | exact Hw]).
      apply (desc_step _ _ h c cs _ _ _ Hcc Hwn Hx).
    + exact Hl.
Qed.

Lemma runs_deleteContent c X l1 x l2 t s mm (Q : unit -> Tree -> Prop) :
  view t = (Some (plug c X), s, mm) -> Contents X = l1 ++ x :: l2 ->
  (forall t', view t' = (Some (plug c (with_contents (l1 ++ l2) X)), s, mm) -> Q tt t') ->
  Runs (deleteContent (ctx_addr c) (Z.of_nat (length l1))) t Q.
Proof.
  intros Hv Hx HQ. unfold deleteContent. apply runs_bind.
  eapply runs_getNode; [exact Hv | apply node_at_plug0 |]. intros n Hn.
  apply runs_bind. eapply runs_lift; [rewrite <- Hn, erase_Contents in Hx; rewrite Hx; apply remove_index_mid |].
  eapply runs_setContents; [exact Hv | apply node_at_plug0 |]. intros t' Hv'.
  apply HQ. rewrite update_at_plug0 in Hv'. exact Hv'.
Qed.

Lemma ctx_left_app D c : ctx_left (D ++ c) = ctx_left c ++ ctx_left D.
Proof.
  induction D as [| f D IH]; cbn [app ctx_left]; [rewrite app_nil_r; reflexivity |].
  rewrite IH, app_assoc. reflexivity.
Qed.

Lemma ctx_right_app D c : Forall (fun f => fr f = []) D -> ctx_right (D ++ c) = ctx_right c.
Proof.
  induction 1 as [| f D Hf _ IH]; [reflexivity |]. cbn [app ctx_right]. rewrite IH.
  unfold right_items. rewrite Hf. reflexivity.
Qed.

Lemma SS_remove A x B : StronglySorted ltk (A ++ x :: B) -> StronglySorted ltk (A ++ B).
Proof.
  intros H. apply SS_app in H. destruct H as [H1 [H2 H12]]. apply StronglySorted_inv in H2.
  apply SS_app. split; [exact H1 |]. split; [apply H2 |]. intros a b Ha Hb. apply H12; [exact Ha | right; exact Hb].
Qed.

(** The frame around child [j] of a node whose item [j] is [c0], and the
    same frame once that item is replaced. *)
Lemma frame_at_mid cs ks l1 c0 l2 :
  cs = l1 ++ c0 :: l2 -> length ks = S (length cs) ->
  exists FL R0 FR0, frame_at cs ks (length l1) = mkFrame FL ((c0, R0) :: FR0) /\
    forall y, frame_at (l1 ++ y :: l2) ks (length l1) = mkFrame FL ((y, R0) :: FR0).
Proof.
  intros -> Hl. unfold frame_at. rewrite firstn_len_app, skipn_len_app.
  assert (Hs : length (skipn (S (length l1)) ks) = S (length l2))
    by (rewrite length_skipn, Hl, length_app; cbn [length]; lia).
  destruct (skipn (S (length l1)) ks) as [| R0 ks2]; [discriminate |].
  exists (combine (firstn (length l1) ks) l1), R0, (combine l2 ks2). split; [reflexivity |].
  intros y. rewrite firstn_len_app, skipn_len_app. reflexivity.
Qed.

Lemma inorder_leaf n : Children n = [] -> inorder n = Contents n.
Proof. destruct n as [h cs ks]; cbn. intros ->. reflexivity. Qed.

(** [tree.delete(node, i)]: the item at slot [i] of the node at [ctx]
    leaves the in-order sequence, and the tree stays well formed or becomes
    empty. *)
Lemma runs_delete CH Sum mm s (Hmm : 3 <= mm) ctx N l1 c0 l2 h t :
  view t = (Some (plug ctx N), s, mm) -> s <> 0 ->
  ctx_ok (minContents mm) (maxContents mm) h ctx = true ->
  wf (minContents mm) (maxContents mm) h (lo_of (minContents mm) ctx) (maxContents mm) N = true ->
  Contents N = l1 ++ c0 :: l2 ->
  StronglySorted ltk (inorder (plug ctx N)) ->
  Runs (delete CH Sum (ctx_addr ctx) (len l1)) t
    (fun _ t' => exists A B, inorder (plug ctx N) = A ++ c0 :: B /\
       ((view t' = (None, s, mm) /\ A ++ B = []) \/
        (exists R', view t' = (Some R', s, mm) /\
           wf (minContents mm) (maxContents mm) (height R') 1 (maxContents mm) R' = true /\
           inorder R' = A ++ B))).
Proof.
  intros Hv Hs0 Hc Hw Hcs Hs. destruct (caps_facts mm Hmm) as [Hmin [_ [H2 Hmax]]].
  pose proof (wf_bounds _ _ _ _ _ _ Hw) as Hb.
  unfold delete. apply runs_bind. eapply runs_getNode; [exact Hv | apply node_at_plug0 |].
  intros n Hn. destruct (erase_facts _ _ Hn) as [Hcn Hkn].
  destruct h as [| h].
  - (* a leaf *)
    apply wf_leaf in Hw as Hw'. destruct Hw' as [_ HkN].
    rewrite HkN in Hkn. apply map_eq_nil in Hkn.
    replace (isLeaf n) with true by (unfold isLeaf; rewrite Hkn; reflexivity). cbv iota.
    apply runs_bind. eapply runs_lift; [rewrite Hcn, Hcs; apply index_mid |].
    change (len l1) with (Z.of_nat (length l1)).
    apply runs_bind. apply (runs_deleteContent ctx N l1 c0 l2 t s mm _ Hv Hcs). intros t1 Hv1.
    assert (HiN : inorder N = l1 ++ c0 :: l2) by (rewrite inorder_leaf by exact HkN; exact Hcs).
    assert (HiN1 : inorder (with_contents (l1 ++ l2) N) = l1 ++ l2)
      by (rewrite inorder_leaf by exact HkN; reflexivity).
    set (A := ctx_left ctx ++ l1). set (B := l2 ++ ctx_right ctx).
    assert (Horig : inorder (plug ctx N) = A ++ c0 :: B)
      by (rewrite inorder_plug, HiN; unfold A, B; rewrite <- !app_assoc; reflexivity).
    assert (Hnew : inorder (plug ctx (with_contents (l1 ++ l2) N)) = A ++ B)
      by (rewrite inorder_plug, HiN1; unfold A, B; rewrite <- !app_assoc; reflexivity).
    apply runs_bind.
    eapply runs_weaken; [apply (runs_rebalance CH Sum mm s Hmm ctx O _ c0 t1 Hv1 Hc) |].
    + apply wf_leaf. unfold with_contents; cbn [Contents Children]. split; [| exact HkN].
      unfold len in *. rewrite Hcs, !length_app in Hb. rewrite length_app. cbn [length] in Hb. lia.
    + intros _ H0. exfalso. apply H0. reflexivity.
    + rewrite Hnew. apply (SS_remove A c0 B). rewrite <- Horig. exact Hs.
    + destruct ctx as [| f c]; [exact I |]. apply (loc_of_in f c N c0 Hs).
      rewrite HiN. apply in_or_app. right. left. reflexivity.
    + intros u t2 [R' [Hv2 [Hi2 Hw2]]]. apply runs_get.
      destruct (view_root _ _ _ _ Hv2) as [r [Er [Hr [Hsz Hm]]]].
      apply runs_bind. eapply runs_lift; [exact Er |].
      rewrite <- erase_Contents, Hr.
      destruct Hw2 as [Hw2 | [E0 [HcN1 [HcR HkR]]]].
      * assert (Hl : 1 <= len (Contents R')) by (apply wf_bounds in Hw2; lia).
        replace (len (Contents R') =? 0) with false by (symmetry; apply Z.eqb_neq; lia).
        apply runs_ret. exists A, B. split; [exact Horig |]. right. exists R'.
        split; [exact Hv2 |]. split; [exact Hw2 | rewrite Hi2; exact Hnew].
      * rewrite HcR. change (len (@nil Item) =? 0) with true. cbv iota.
        apply runs_put. exists A, B. split; [exact Horig |]. left. split.
        -- unfold view, eroot, with_root. cbn [Root size m option_map]. rewrite Hsz, Hm. reflexivity.
        -- rewrite <- Hnew, <- Hi2. rewrite inorder_leaf by exact HkR. exact HcR.
  - (* an internal node: its in-order predecessor takes its place *)
    pose proof Hv as Hv0.
    apply wf_node in Hw as Hw'. destruct Hw' as [_ [HlN _]].
    assert (Hj : (length l1 < length (Children N))%nat)
      by (rewrite HlN, Hcs, length_app; cbn [length]; lia).
    destruct (nth_error_len (Children N) (length l1) Hj) as [K HK0].
    destruct (frame_at_mid (Contents N) (Children N) l1 c0 l2 Hcs HlN) as [FL [R0 [FR0 [Ef Ef']]]].
    assert (HhN : Hash N = []) by (rewrite <- Hn; apply erase_Hash).
    assert (HN : N = mkNode [] (Contents N) (Children N)) by (rewrite <- Hn; destruct n; reflexivity).
    assert (HwN : wf (minContents mm) (maxContents mm) (S h) (lo_of (minContents mm) ctx) (maxContents mm)
                    (mkNode [] (Contents N) (Children N)) = true) by (rewrite <- HN; exact Hw).
    destruct (desc_step _ _ h ctx _ _ _ K Hc HwN HK0) as [_ [HwK _]].
    pose proof (frame_at_fl _ _ (length l1) HlN Hj) as [_ [_ [_ [_ HFL]]]].
    rewrite Ef in HFL. cbn [fl] in HFL.
    assert (Hfill : fill (mkFrame FL ((c0, R0) :: FR0)) K = N)
      by (rewrite <- Ef, (fill_frame_at _ _ _ _ HlN HK0), <- HN; reflexivity).
    assert (HK := HK0). rewrite <- Hkn, nth_error_map in HK.
    destruct (nth_error (Children n) (length l1)) as [k |] eqn:Ek; [| discriminate].
    assert (Hl0 : Children n <> []) by (intros E; rewrite E in Ek; destruct (length l1); discriminate).
    replace (isLeaf n) with false by (unfold isLeaf; destruct (Children n); [contradiction | reflexivity]).
    cbv iota.
    apply runs_bind. eapply runs_lift.
    { rewrite index_ok by (unfold len; lia). unfold len. rewrite Nat2Z.id. exact Ek. }
    replace (Z.to_nat (len l1)) with (length l1) by (unfold len; lia).
    apply runs_bind. unfold right. apply runs_get.
    destruct (view_root _ _ _ _ Hv) as [r0 [Er0 [_ [Hsz Hm]]]].
    replace (size t =? 0) with false by (symmetry; apply Z.eqb_neq; lia). cbv iota.
    apply runs_bind. eapply runs_getNode; [exact Hv | rewrite node_at_child; exact HK0 |].
    intros k' Hk'.
    destruct (rightFrom_spec (minContents mm) (maxContents mm) k' h) as [D [L [Hrun [HplD [HfrD [HcD HwL]]]]]];
      [rewrite Hk'; exact HwK |].
    apply runs_bind. exists (ctx_addr D ++ length l1 :: ctx_addr ctx), t. split; [apply Hrun |].
    cbv beta. apply runs_ret. apply runs_bind. eapply runs_lift; [reflexivity |]. cbv beta.
    assert (Hpl : plug (D ++ mkFrame FL ((c0, R0) :: FR0) :: ctx) L = plug ctx N)
      by (rewrite plug_app; cbn [plug]; rewrite HplD, Hk', Hfill; reflexivity).
    assert (Ha : ctx_addr (D ++ mkFrame FL ((c0, R0) :: FR0) :: ctx) = ctx_addr D ++ length l1 :: ctx_addr ctx).
    { rewrite ctx_addr_app. change (ctx_addr (mkFrame FL ((c0, R0) :: FR0) :: ctx))
        with (length FL :: ctx_addr ctx). rewrite HFL. reflexivity. }
    rewrite <- Ha. rewrite <- Hpl in Hv.
    apply runs_bind. eapply runs_getNode; [exact Hv | apply node_at_plug0 |]. intros lln Hlln.
    apply wf_leaf in HwL as HwL'. destruct HwL' as [HbL HkL].
    destruct (list_snoc_cases (Contents L)) as [HL0 | [CL [x HLx]]].
    { rewrite HL0 in HbL. unfold len in HbL. cbn in HbL. lia. }
    assert (HcL : Contents lln = CL ++ [x]) by (rewrite <- erase_Contents, Hlln; exact HLx).
    cbv zeta. rewrite HcL.
    apply runs_bind. eapply runs_lift; [apply index_last |]. cbv beta.
    apply runs_bind. unfold setContentAt. apply runs_bind.
    eapply runs_getNode; [exact Hv0 | apply node_at_plug0 |]. intros n2 Hn2.
    apply runs_bind. eapply runs_lift.
    { rewrite <- erase_Contents, Hn2, Hcs. unfold len. apply set_index_mid. }
    eapply runs_setContents; [exact Hv0 | apply node_at_plug0 |]. intros t1 Hv1.
    rewrite update_at_plug0 in Hv1.
    assert (HlN' : length (Children N) = S (length (l1 ++ x :: l2)))
      by (rewrite HlN, Hcs, !length_app; reflexivity).
    assert (Hpl' : plug (D ++ mkFrame FL ((x, R0) :: FR0) :: ctx) L = plug ctx (with_contents (l1 ++ x :: l2) N)).
    { rewrite plug_app; cbn [plug]. rewrite HplD, Hk', <- (Ef' x), (fill_frame_at _ _ _ _ HlN' HK0).
      unfold with_contents. rewrite HhN. reflexivity. }
    rewrite <- Hpl' in Hv1.
    replace (ctx_addr (D ++ mkFrame FL ((c0, R0) :: FR0) :: ctx))
      with (ctx_addr (D ++ mkFrame FL ((x, R0) :: FR0) :: ctx)) by (rewrite !ctx_addr_app; reflexivity).
    replace (len (CL ++ [x]) - 1) with (Z.of_nat (length CL))
      by (unfold len; rewrite length_app; cbn [length]; lia).
    apply runs_bind. apply (runs_deleteContent _ L CL x [] t1 s mm _ Hv1 HLx). intros t2 Hv2.
    assert (Hcf' : ctx_ok (minContents mm) (maxContents mm) h (mkFrame FL ((x, R0) :: FR0) :: ctx) = true).
    { assert (Hw' : wf (minContents mm) (maxContents mm) (S h) (lo_of (minContents mm) ctx) (maxContents mm)
                      (mkNode [] (l1 ++ x :: l2) (Children N)) = true).
      { change (mkNode [] (l1 ++ x :: l2) (Children N))
          with (with_contents (l1 ++ x :: l2) (mkNode [] (Contents N) (Children N))).
        rewrite wf_with_contents by (cbn [Contents]; rewrite Hcs, !length_app; reflexivity).
        exact HwN. }
      destruct (desc_step _ _ h ctx _ _ _ K Hc Hw' HK0) as [Hd' _]. rewrite Ef' in Hd'. exact Hd'. }
    assert (HcD' : ctx_ok (minContents mm) (maxContents mm) O (D ++ mkFrame FL ((x, R0) :: FR0) :: ctx) = true)
      by (apply HcD; [destruct D; discriminate | exact Hcf']).
    assert (HiL : inorder L = CL ++ [x]) by (rewrite inorder_leaf by exact HkL; exact HLx).
    set (A := ctx_left ctx ++ left_items (mkFrame FL ((c0, R0) :: FR0)) ++ ctx_left D ++ CL ++ [x]).
    set (B := inorder R0 ++ right_items (mkFrame FL FR0) ++ ctx_right ctx).
    assert (Horig : inorder (plug ctx N) = A ++ c0 :: B).
    { rewrite <- Hpl, inorder_plug, ctx_left_app, ctx_right_app by exact HfrD.
      cbn [ctx_left ctx_right]. rewrite right_items_cons, HiL. unfold A, B.
      repeat first [rewrite <- app_assoc | rewrite <- app_comm_cons]. reflexivity. }
    assert (Hnew : inorder (plug (D ++ mkFrame FL ((x, R0) :: FR0) :: ctx) (with_contents (CL ++ []) L)) = A ++ B).
    { rewrite inorder_plug, ctx_left_app, ctx_right_app by exact HfrD.
      cbn [ctx_left ctx_right]. rewrite right_items_cons, inorder_leaf by exact HkL.
      change (left_items (mkFrame FL ((x, R0) :: FR0))) with (left_items (mkFrame FL ((c0, R0) :: FR0))).
      cbn [Contents with_contents]. rewrite app_nil_r. unfold A, B.
      repeat first [rewrite <- app_assoc | rewrite <- app_comm_cons]. reflexivity. }
    assert (HlocF : loc x (mkFrame FL ((c0, R0) :: FR0))).
    { apply (loc_of_in _ ctx K x); [rewrite Hfill; exact Hs |].
      rewrite <- Hk', <- HplD, inorder_plug, HiL.
      apply in_or_app; right; apply in_or_app; left; apply in_or_app; right; left; reflexivity. }
    eapply runs_weaken; [apply (runs_rebalance CH Sum mm s Hmm _ O _ x t2 Hv2 HcD') |].
    + replace (lo_of (minContents mm) (D ++ mkFrame FL ((x, R0) :: FR0) :: ctx)) with (minContents mm)
        by (destruct D; reflexivity).
      apply wf_leaf. unfold with_contents; cbn [Contents Children]. split; [| exact HkL].
      unfold len in *. rewrite HLx, length_app in HbL. rewrite !length_app. cbn [length] in HbL |- *. lia.
    + intros E. destruct D; discriminate.
    + rewrite Hnew. apply (SS_remove A c0 B). rewrite <- Horig. exact Hs.
    + destruct D as [| g D'].
      * destruct HlocF as [H1 H3]. split; [exact H1 |]. cbn [fr map fst] in H3 |- *.
        inversion H3 as [| ? ? Hx Hr]; subst. constructor; [lia | exact Hr].
      * cbn [app]. apply (loc_of_in g (D' ++ mkFrame FL ((c0, R0) :: FR0) :: ctx) L x).
        -- change (plug (D' ++ mkFrame FL ((c0, R0) :: FR0) :: ctx) (fill g L))
             with (plug ((g :: D') ++ mkFrame FL ((c0, R0) :: FR0) :: ctx) L).
           rewrite Hpl. exact Hs.
        -- rewrite HiL. apply in_or_app; right; left; reflexivity.
    + intros u t3 [R' [Hv3 [Hi3 Hw3]]]. exists A, B. split; [exact Horig |]. right. exists R'.
      split; [exact Hv3 |]. split.
      * destruct Hw3 as [Hw3 | [E _]]; [exact Hw3 | destruct D; discriminate].
      * rewrite Hi3. exact Hnew.
Qed.

Lemma weave_in xs cs x y :
  length xs = length cs -> In x xs -> In y x -> In y (weave xs cs).
Proof.
  revert cs. induction xs as [| x' xs IH]; intros [| c cs] H Hx Hy; cbn in *; try discriminate;
    [contradiction |].
  destruct Hx as [<- | Hx]; right; apply in_or_app; [left; exact Hy | right; apply (IH cs); auto].
Qed.

Lemma wf_kids_ok minc maxc h : forall lo hi n, wf minc maxc h lo hi n = true -> kids_ok n = true.
Proof.
  induction h as [| h IH]; intros lo hi n Hw; rewrite kids_ok_eq.
  - apply wf_leaf in Hw. destruct Hw as [_ Hk]. rewrite Hk. reflexivity.
  - apply wf_node in Hw. destruct Hw as [_ [Hl Hf]].
    destruct (Children n) as [| k ks] eqn:Ek; [discriminate |].
    rewrite Hl, Nat.eqb_refl. cbn [andb]. apply forallb_forall. intros k' Hk'.
    rewrite Forall_forall in Hf. apply (IH minc maxc), Hf, Hk'.
Qed.

Lemma all_items_inorder minc maxc h : forall lo hi n y,
  wf minc maxc h lo hi n = true -> In y (all_items n) -> In y (inorder n).
Proof.
  induction h as [| h IH]; intros lo hi n y Hw Hy; rewrite all_items_eq in Hy.
  - apply wf_leaf in Hw. destruct Hw as [_ Hk]. rewrite inorder_leaf by exact Hk.
    rewrite Hk in Hy. cbn in Hy. rewrite app_nil_r in Hy. exact Hy.
  - apply wf_node in Hw. destruct Hw as [_ [Hl Hf]]. rewrite Forall_forall in Hf.
    destruct n as [hn cs [| k0 ks]]; cbn [Children Contents length] in *; [discriminate |].
    injection Hl as Hl. cbn [inorder].
    apply in_app_or in Hy. destruct Hy as [Hy | Hy].
    + apply in_or_app. right. apply (weave_incl (map inorder ks) cs); [rewrite length_map; exact Hl | exact Hy].
    + cbn [map concat] in Hy. apply in_app_or in Hy. destruct Hy as [Hy | Hy].
      * apply in_or_app. left. apply (IH minc maxc k0); [apply Hf; left; reflexivity | exact Hy].
      * apply in_concat in Hy. destruct Hy as [l [Hl' Hy]]. apply in_map_iff in Hl'.
        destruct Hl' as [k [<- Hk]]. apply in_or_app. right.
        apply (weave_in (map inorder ks) cs (inorder k)); [rewrite length_map; exact Hl | apply in_map, Hk |].
        apply (IH minc maxc k); [apply Hf; right; exact Hk | exact Hy].
Qed.

Lemma del_keep k l : Forall (fun a => Key a <> k) l -> del k l = l.
Proof.
  induction l as [| a l IH]; intros H; [reflexivity |]. inversion H; subst.
  unfold del. cbn [filter]. replace (Key a =? k) with false by (symmetry; apply Z.eqb_neq; assumption).
  cbn [negb]. f_equal. apply IH. assumption.
Qed.

Lemma del_mid A x B : StronglySorted ltk (A ++ x :: B) -> del (Key x) (A ++ x :: B) = A ++ B.
Proof.
  intros Hs. pose proof (SS_before _ _ _ Hs) as HA. pose proof (SS_after _ _ _ Hs) as HB.
  unfold del. rewrite filter_app. cbn [filter]. rewrite Z.eqb_refl. cbn [negb].
  change (filter (fun y => negb (Key y =? Key x)) A) with (del (Key x) A).
  change (filter (fun y => negb (Key y =? Key x)) B) with (del (Key x) B).
  rewrite !del_keep; [reflexivity | |].
  - eapply Forall_impl; [| exact HB]. cbn. intros a Ha. lia.
  - eapply Forall_impl; [| exact HA]. cbn. intros a Ha. lia.
Qed.

(** [Remove] keeps the invariant and removes the item of the given key. *)
Lemma Remove_ok CH Sum item t :
  btree_ok t = true ->
  Runs (Remove CH Sum item) t (fun _ t' => btree_ok t' = true /\ items t' = del (Key item) (items t)).
Proof.
  intros Hok. unfold Remove. apply runs_bind. unfold searchRecursively. apply runs_get.
  unfold items. destruct (Root t) as [root |] eqn:Er.
  - destruct (btree_ok_root t root Hok Er) as [Hmm [Hw [Hs Hsz]]].
    assert (Hne : inorder root <> []).
    { pose proof (wf_bounds _ _ _ _ _ _ Hw) as Hb. intros E.
      destruct (Contents root) as [| c cs] eqn:Ec; [unfold len in Hb; cbn in Hb; lia |].
      assert (Hc : In c (inorder root)).
      { apply (all_items_inorder _ _ _ _ _ _ _ Hw). rewrite all_items_eq, Ec. left. reflexivity. }
      rewrite E in Hc. exact Hc. }
    assert (Hs0 : size t <> 0) by (rewrite Hsz; unfold len; destruct (inorder root); [congruence | cbn; lia]).
    replace (size t =? 0) with false by (symmetry; apply Z.eqb_neq; exact Hs0). cbv iota.
    destruct (in_dec Z.eq_dec (Key item) (map Key (inorder root))) as [Hin | Hnin].
    + destruct (searchFrom_found (minContents (m t)) (maxContents (m t)) item root [] (height root))
        as [ctx' [N' [l1 [c0 [l2 [h' [Hsearch [Hplug [HcN' [Hkey [Hc' Hw']]]]]]]]]]].
      * reflexivity.
      * cbn [lo_of]. rewrite wf_erase. exact Hw.
      * cbn [plug]. rewrite inorder_erase. exact Hs.
      * constructor.
      * constructor.
      * rewrite inorder_erase. exact Hin.
      * exists (Some (ctx_addr ctx', len l1)), t. split; [apply Hsearch |]. cbv beta iota.
        apply runs_bind.
        assert (Hv : view t = (Some (plug ctx' N'), size t, m t))
          by (unfold view, eroot; rewrite Er, Hplug; reflexivity).
        assert (Hs' : StronglySorted ltk (inorder (plug ctx' N')))
          by (rewrite Hplug; cbn [plug]; rewrite inorder_erase; exact Hs).
        eapply runs_weaken; [apply (runs_delete CH Sum (m t) (size t) Hmm ctx' N' l1 c0 l2 h' t Hv Hs0 Hc' Hw' HcN' Hs') |].
        intros _ t' [A [B [Horig Hpost]]]. apply runs_get, runs_put.
        rewrite Hplug in Horig. cbn [plug] in Horig. rewrite inorder_erase in Horig.
        assert (Hdel : del (Key item) (inorder root) = A ++ B)
          by (rewrite <- Hkey, Horig; apply del_mid; rewrite <- Horig; exact Hs).
        assert (Hlen : size t - 1 = len (A ++ B))
          by (rewrite Hsz, Horig; unfold len; rewrite !length_app; cbn [length]; lia).
        rewrite Hdel. destruct Hpost as [[Hv' HAB] | [R' [Hv' [Hw2 Hi2]]]].
        -- unfold view, eroot in Hv'. injection Hv' as HR Hst Hmt.
           destruct (Root t') eqn:Er'; [discriminate |].
           unfold with_size, btree_ok. cbn [Root size m]. rewrite Er', HAB, Hmt, Hst.
           rewrite Hlen, HAB. split; [| reflexivity].
           apply andb_true_iff. split; [apply Z.leb_le; exact Hmm | reflexivity].
        -- destruct (view_root _ _ _ _ Hv') as [r' [Er' [Ee' [Est _]]]].
           cbn [with_size Root]. rewrite Er'. split.
           ++ eapply btree_ok_of_view; [exact (view_with_size _ _ _ _ (size t' - 1) Hv') | exact Hmm | exact Hw2 | |].
              ** rewrite Hi2. apply (SS_remove A c0 B). rewrite <- Horig. exact Hs.
              ** rewrite Est, Hi2. exact Hlen.
           ++ rewrite <- Hi2, <- Ee', inorder_erase. reflexivity.
    + assert (Habs : existsb (fun c => Key c =? Key item) (all_items root) = false).
      { destruct (existsb _ _) eqn:E; [exfalso | reflexivity].
        apply existsb_exists in E. destruct E as [c [Hc Hk]]. apply Z.eqb_eq in Hk.
        apply Hnin. rewrite <- Hk. apply in_map. apply (all_items_inorder _ _ _ _ _ _ _ Hw Hc). }
      exists None, t. split; [apply searchFrom_absent; [apply (wf_kids_ok _ _ _ _ _ _ Hw) | exact Habs] |].
      cbv iota. apply runs_ret. split; [exact Hok |]. rewrite Er. symmetry. apply del_keep.
      apply Forall_forall. intros a Ha E. apply Hnin. rewrite <- E. apply in_map, Ha.
  - pose proof Hok as Hok0. unfold btree_ok in Hok. rewrite Er in Hok.
    apply andb_true_iff in Hok. destruct Hok as [_ Hz].
    rewrite Hz. cbv iota. apply runs_ret. cbv iota. apply runs_ret.
    split; [exact Hok0 | rewrite Er; reflexivity].
Qed.

Lemma wf_root_inorder_ne minc maxc h hi r : wf minc maxc h 1 hi r = true -> inorder r <> [].
Proof.
  intros Hw E. pose proof (wf_bounds _ _ _ _ _ _ Hw) as Hb.
  destruct (Contents r) as [| c cs] eqn:Ec; [unfold len in Hb; cbn in Hb; lia |].
  assert (Hc : In c (inorder r)).
  { apply (all_items_inorder _ _ _ _ _ _ _ Hw). rewrite all_items_eq, Ec. left. reflexivity. }
  rewrite E in Hc. exact Hc.
Qed.

(** [Put] into an empty tree of an item whose digest fails. *)
Lemma Put_digest_error CH Sum item t :
  Root t = None -> CH item = None ->
  Put CH Sum item t = Panic "digest error"%string (mkTree (Some (mkNode [] [item] [])) (size t + 1) (m t)).
Proof.
  intros Er Hf. unfold Put, ReCalculateMerkleRoot, CalculateHash, node_hash, bind, get_tree, put_tree,
    getNode, ret, panic. cbn. rewrite Er. cbn. rewrite Hf. reflexivity.
Qed.

(** Each call keeps the invariant, whether it returns or reports an error. *)
Lemma step_ok CH Sum o t : btree_ok t = true -> btree_ok (state_of (apply_op CH Sum o t)) = true.
Proof.
  intros Hok. destruct o as [item | item]; cbn [apply_op].
  - destruct (Root t) as [r |] eqn:Er; [| destruct (CH item) as [hb |] eqn:Ech].
    + destruct (Put_ok CH Sum item t Hok) as [v [t' [E [Hok' _]]]];
        [intros E; congruence | rewrite E; exact Hok'].
    + destruct (Put_ok CH Sum item t Hok) as [v [t' [E [Hok' _]]]];
        [intros _; congruence | rewrite E; exact Hok'].
    + rewrite (Put_digest_error CH Sum item t Er Ech). cbn [state_of].
      unfold btree_ok in *. rewrite Er in Hok. apply andb_true_iff in Hok. destruct Hok as [Hm Hz].
      apply Z.eqb_eq in Hz. apply Z.leb_le in Hm. destruct (caps_facts _ Hm) as [_ [_ [_ Hmax]]].
      cbn [Root size m height wf Contents Children inorder sorted_keys].
      rewrite Hz. unfold len. cbn [length]. rewrite Hmax.
      replace (3 <=? m t) with true by (symmetry; apply Z.leb_le; lia).
      replace (Z.of_nat 1 <=? m t - 1) with true by (symmetry; apply Z.leb_le; lia).
      reflexivity.
  - destruct (Remove_ok CH Sum item t Hok) as [v [t' [E [Hok' _]]]]. rewrite E. exact Hok'.
Qed.

Lemma run_through_ok CH Sum os : forall t, btree_ok t = true -> btree_ok (run_through CH Sum os t) = true.
Proof. induction os as [| o os IH]; intros t Hok; [exact Hok | apply IH, step_ok, Hok]. Qed.

Lemma run_through_m CH Sum os : forall t, m (run_through CH Sum os t) = m t.
Proof.
  induction os as [| o os IH]; intros t; [reflexivity |]. cbn [run_through]. rewrite IH.
  destruct o as [item | item]; cbn [apply_op];
    [apply (km_Put CH Sum item (m t) t) | apply (km_Remove CH Sum item (m t) t)]; reflexivity.
Qed.

Lemma NewWith_ok order t0 : NewWith order = Some t0 -> t0 = mkTree None 0 order /\ btree_ok t0 = true.
Proof.
  unfold NewWith. destruct (order <? 3) eqn:E; [discriminate |]. intros H. injection H as <-.
  split; [reflexivity |]. apply Z.ltb_ge in E. unfold btree_ok. cbn [Root size m].
  apply andb_true_iff. split; [apply Z.leb_le; lia | reflexivity].
Qed.

Lemma run_app_runs CH Sum os1 os2 : forall t Q,
  Runs (run CH Sum os1) t (fun _ t1 => Runs (run CH Sum os2) t1 Q) -> Runs (run CH Sum (os1 ++ os2)) t Q.
Proof.
  induction os1 as [| o os1 IH]; intros t Q [v [t2 [E HP]]].
  - cbn in E. injection E as <- <-. exact HP.
  - cbn [run app] in *. unfold bind in E. destruct (apply_op CH Sum o t) as [a t1 |] eqn:Eo; [| discriminate].
    apply runs_bind. exists a, t1. split; [exact Eo |]. apply IH. exists v, t2. split; [exact E | exact HP].
Qed.

Lemma runs_puts CH Sum xs : forall t,
  btree_ok t = true -> Forall (fun x => CH x <> None) xs ->
  Runs (run CH Sum (map OpPut xs)) t
    (fun _ t' => btree_ok t' = true /\ items t' = fold_left (fun l x => ins x l) xs (items t)).
Proof.
  induction xs as [| x xs IH]; intros t Hok Hf; cbn [map run].
  - apply runs_ret. split; [exact Hok | reflexivity].
  - inversion Hf as [| ? ? Hx Hf']; subst. apply runs_bind. cbn [apply_op].
    eapply runs_weaken; [apply (Put_ok CH Sum x t Hok); intros _; exact Hx |].
    intros _ t1 [Hok1 Hi1]. cbn [fold_left]. rewrite <- Hi1. apply IH; assumption.
Qed.

Lemma runs_removes CH Sum ys : forall t,
  btree_ok t = true ->
  Runs (run CH Sum (map OpRemove ys)) t
    (fun _ t' => btree_ok t' = true /\ items t' = fold_left (fun l y => del (Key y) l) ys (items t)).
Proof.
  induction ys as [| y ys IH]; intros t Hok; cbn [map run].
  - apply runs_ret. split; [exact Hok | reflexivity].
  - apply runs_bind. cbn [apply_op].
    eapply runs_weaken; [apply (Remove_ok CH Sum y t Hok) |].
    intros _ t1 [Hok1 Hi1]. cbn [fold_left]. rewrite <- Hi1. apply IH; assumption.
Qed.

Lemma in_ins_inv z x l : In z (ins x l) -> z = x \/ In z l.
Proof.
  induction l as [| y l IH]; cbn [ins]; intros H.
  - destruct H as [H | []]. left. symmetry. exact H.
  - destruct (Key x <? Key y); [destruct H as [H | H]; [left; symmetry; exact H | right; exact H] |].
    destruct (Key x =? Key y).
    + destruct H as [H | H]; [left; symmetry; exact H | right; right; exact H].
    + destruct H as [H | H]; [right; left; exact H |]. destruct (IH H) as [E | E]; [left; exact E | right; right; exact E].
Qed.

Lemma fold_ins_keys xs : forall l z,
  In z (fold_left (fun l x => ins x l) xs l) -> In z l \/ In (Key z) (map Key xs).
Proof.
  induction xs as [| x xs IH]; intros l z H; [left; exact H |]. cbn [fold_left] in H.
  destruct (IH _ _ H) as [H1 | H1]; [| right; right; exact H1].
  destruct (in_ins_inv _ _ _ H1) as [-> | H2]; [right; left; reflexivity | left; exact H2].
Qed.

Lemma fold_del_keys ys : forall l z,
  In z (fold_left (fun l y => del (Key y) l) ys l) -> In z l /\ ~ In (Key z) (map Key ys).
Proof.
  induction ys as [| y ys IH]; intros l z H; [split; [exact H | intros []] |]. cbn [fold_left] in H.
  destruct (IH _ _ H) as [H1 H2]. unfold del in H1. apply filter_In in H1. destruct H1 as [H1 H3].
  split; [exact H1 |]. intros [E | E]; [| contradiction].
  rewrite E, Z.eqb_refl in H3. discriminate.
Qed.

Lemma round_trip_nil xs ys :
  Permutation (map Key xs) (map Key ys) ->
  fold_left (fun l y => del (Key y) l) ys (fold_left (fun l x => ins x l) xs []) = [].
Proof.
  intros Hp. destruct (fold_left (fun l y => del (Key y) l) ys _) as [| z l] eqn:E; [reflexivity | exfalso].
  assert (Hz : In z (fold_left (fun l y => del (Key y) l) ys (fold_left (fun l x => ins x l) xs [])))
    by (rewrite E; left; reflexivity).
  destruct (fold_del_keys _ _ _ Hz) as [H1 H2]. destruct (fold_ins_keys _ _ _ H1) as [[] | H3].
  apply H2. apply (Permutation_in _ Hp H3).
Qed.

Lemma btree_ok_items_nil t : btree_ok t = true -> items t = [] -> Root t = None /\ size t = 0.
Proof.
  intros Hok Hi. unfold items in Hi. destruct (Root t) as [r |] eqn:Er.
  - destruct (btree_ok_root t r Hok Er) as [_ [Hw _]]. exfalso. exact (wf_root_inorder_ne _ _ _ _ _ Hw Hi).
  - split; [reflexivity |]. unfold btree_ok in Hok. rewrite Er in Hok.
    apply andb_true_iff in Hok. apply Z.eqb_eq, Hok.
Qed.

(** C2: every tree a client reaches from a new tree of order [order] by
    any sequence of [Put]/[Remove] calls (going on after a [Put] that
    reports a digest error) has a root [r] with [wf ... (height r) 1 maxc r]:
    all its leaves lie [height r] levels down, every node below the root
    holds [minContents order] to [maxContents order] items (the root 1 to
    [maxContents order]), and every node has [|contents| + 1] children or
    none. *)
Theorem C2_reachable_balanced CH Sum order t0 os r :
  NewWith order = Some t0 ->
  Root (run_through CH Sum os t0) = Some r ->
  wf (minContents order) (maxContents order) (height r) 1 (maxContents order) r = true.
Proof.
  intros H Er. destruct (NewWith_ok _ _ H) as [-> Hok].
  pose proof (run_through_ok CH Sum os _ Hok) as Hok'.
  destruct (btree_ok_root _ _ Hok' Er) as [_ [Hw _]].
  rewrite run_through_m in Hw. exact Hw.
Qed.

Lemma C2_witness :
  NewWith 3 = Some (mkTree None 0 3) /\
  exists r, Root (run_through item_hash id_sum
                    (map (fun k => OpPut (it k)) [1; 2; 3; 4; 5; 6; 7; 8; 9; 10] ++
                     map (fun k => OpRemove (it k)) [5; 1; 9; 2; 4])
                    (mkTree None 0 3)) = Some r /\
    wf (minContents 3) (maxContents 3) (height r) 1 (maxContents 3) r = true.
Proof.
  split; [reflexivity |].
  destruct (Root (run_through item_hash id_sum
                    (map (fun k => OpPut (it k)) [1; 2; 3; 4; 5; 6; 7; 8; 9; 10] ++
                     map (fun k => OpRemove (it k)) [5; 1; 9; 2; 4])
                    (mkTree None 0 3))) as [r |] eqn:E.
  - exists r. split; [reflexivity |].
    exact (C2_reachable_balanced item_hash id_sum 3 (mkTree None 0 3) _ r eq_refl E).
  - vm_compute in E. discriminate E.
Defined.

(** C4: putting items and then removing every one of their keys, in any
    order, from a new tree, every call returns normally and leaves the
    empty tree: size 0, [Empty] true and root digest [""].  The items'
    digests are assumed to compute; the keys need not even be distinct. *)
Theorem C4_round_trip CH Sum order t0 xs ys :
  NewWith order = Some t0 ->
  Forall (fun x => CH x <> None) xs ->
  Permutation (map Key xs) (map Key ys) ->
  exists u t', run CH Sum (map OpPut xs ++ map OpRemove ys) t0 = Ok u t' /\
    size t' = 0 /\ Empty t' = true /\ MerkleBTreeRoot t' = EmptyString.
Proof.
  intros H Hf Hp. destruct (NewWith_ok _ _ H) as [-> Hok].
  assert (HR : Runs (run CH Sum (map OpPut xs ++ map OpRemove ys)) (mkTree None 0 order)
                 (fun _ t' => btree_ok t' = true /\ items t' = [])).
  { apply run_app_runs. eapply runs_weaken; [apply (runs_puts CH Sum xs _ Hok Hf) |].
    intros _ t1 [Hok1 Hi1]. eapply runs_weaken; [apply (runs_removes CH Sum ys t1 Hok1) |].
    intros _ t2 [Hok2 Hi2]. split; [exact Hok2 |]. rewrite Hi2, Hi1. apply round_trip_nil, Hp. }
  destruct HR as [u [t' [Erun [Hok' Hi']]]]. destruct (btree_ok_items_nil _ Hok' Hi') as [Er Hs].
  exists u, t'. split; [exact Erun |]. unfold Empty, MerkleBTreeRoot. rewrite Er, Hs.
  split; [reflexivity | split; reflexivity].
Qed.

Lemma C4_witness :
  NewWith 3 = Some (mkTree None 0 3) /\
  Forall (fun x => item_hash x <> None) (map it [1; 2; 3; 4; 5; 6; 7]) /\
  Permutation (map Key (map it [1; 2; 3; 4; 5; 6; 7])) (map Key (rev (map it [1; 2; 3; 4; 5; 6; 7]))) /\
  exists u t', run item_hash id_sum (map OpPut (map it [1; 2; 3; 4; 5; 6; 7]) ++
                                     map OpRemove (rev (map it [1; 2; 3; 4; 5; 6; 7]))) (mkTree None 0 3) = Ok u t' /\
    size t' = 0 /\ Empty t' = true /\ MerkleBTreeRoot t' = EmptyString.
Proof.
  assert (H1 : NewWith 3 = Some (mkTree None 0 3)) by reflexivity.
  assert (H2 : Forall (fun x => item_hash x <> None) (map it [1; 2; 3; 4; 5; 6; 7]))
    by (apply Forall_forall; intros x _; unfold item_hash; discriminate).
  assert (H3 : Permutation (map Key (map it [1; 2; 3; 4; 5; 6; 7])) (map Key (rev (map it [1; 2; 3; 4; 5; 6; 7]))))
    by (rewrite map_rev; apply Permutation_rev).
  split; [exact H1 |]. split; [exact H2 |]. split; [exact H3 |].
  exact (C4_round_trip item_hash id_sum 3 _ _ _ H1 H2 H3).
Defined.

(** ** Lookup, sizes and their composition with [Put] and [Remove] *)

Lemma find_ins_same x y l :
  Key y = Key x -> find (fun c => Key c =? Key y) (ins x l) = Some x.
Proof.
  intros E. induction l as [| z l IH]; cbn [ins].
  - cbn [find]. rewrite E, Z.eqb_refl. reflexivity.
  - destruct (Key x <? Key z); [cbn [find]; rewrite E, Z.eqb_refl; reflexivity |].
    destruct (Key x =? Key z) eqn:E2; [cbn [find]; rewrite E, Z.eqb_refl; reflexivity |].
    cbn [find]. apply Z.eqb_neq in E2.
    replace (Key z =? Key y) with false by (symmetry; apply Z.eqb_neq; lia). exact IH.
Qed.

Lemma find_ins_other x y l :
  Key y <> Key x -> find (fun c => Key c =? Key y) (ins x l) = find (fun c => Key c =? Key y) l.
Proof.
  intros E. induction l as [| z l IH]; cbn [ins].
  - cbn [find]. replace (Key x =? Key y) with false by (symmetry; apply Z.eqb_neq; congruence).
    reflexivity.
  - destruct (Key x <? Key z).
    + cbn [find]. replace (Key x =? Key y) with false by (symmetry; apply Z.eqb_neq; congruence).
      reflexivity.
    + destruct (Key x =? Key z) eqn:E2.
      * apply Z.eqb_eq in E2. cbn [find].
        replace (Key x =? Key y) with false by (symmetry; apply Z.eqb_neq; congruence).
        replace (Key z =? Key y) with false by (symmetry; apply Z.eqb_neq; congruence).
        reflexivity.
      * cbn [find]. destruct (Key z =? Key y); [reflexivity | exact IH].
Qed.

Lemma find_del_same y l : find (fun c => Key c =? Key y) (del (Key y) l) = None.
Proof.
  induction l as [| z l IH]; [reflexivity |]. unfold del in *. cbn [filter].
  destruct (Key z =? Key y) eqn:E; cbn [negb find]; [exact IH | rewrite E; exact IH].
Qed.

Lemma find_del_other k y l :
  k <> Key y -> find (fun c => Key c =? Key y) (del k l) = find (fun c => Key c =? Key y) l.
Proof.
  intros Hk. induction l as [| z l IH]; [reflexivity |]. unfold del in *. cbn [filter].
  destruct (Key z =? k) eqn:E; cbn [negb find].
  - apply Z.eqb_eq in E. replace (Key z =? Key y) with false by (symmetry; apply Z.eqb_neq; congruence).
    exact IH.
  - destruct (Key z =? Key y); [reflexivity | exact IH].
Qed.

Lemma find_key_ins x y l :
  find_key y (ins x l) = if Key y =? Key x then (x, true) else find_key y l.
Proof.
  unfold find_key. destruct (Key y =? Key x) eqn:E.
  - apply Z.eqb_eq in E. rewrite (find_ins_same x y l E). reflexivity.
  - apply Z.eqb_neq in E. rewrite (find_ins_other x y l E). reflexivity.
Qed.

Lemma find_key_del x y l :
  find_key y (del (Key x) l) = if Key y =? Key x then (y, false) else find_key y l.
Proof.
  unfold find_key. destruct (Key y =? Key x) eqn:E.
  - apply Z.eqb_eq in E. rewrite <- E, find_del_same. reflexivity.
  - apply Z.eqb_neq in E. rewrite (find_del_other (Key x) y l); [reflexivity | congruence].
Qed.

Lemma find_key_in y c l :
  StronglySorted ltk l -> In c l -> Key c = Key y -> find_key y l = (c, true).
Proof.
  intros Hs Hc Hk. unfold find_key. induction l as [| z l IH]; [contradiction |].
  apply StronglySorted_inv in Hs. destruct Hs as [Hs Hz]. cbn [find].
  destruct (Key z =? Key y) eqn:E.
  - apply Z.eqb_eq in E. destruct Hc as [-> | Hc]; [reflexivity | exfalso].
    rewrite Forall_forall in Hz. specialize (Hz c Hc). unfold ltk in Hz. lia.
  - destruct Hc as [-> | Hc]; [apply Z.eqb_neq in E; contradiction | exact (IH Hs Hc)].
Qed.

Lemma find_key_none y l : ~ In (Key y) (map Key l) -> find_key y l = (y, false).
Proof.
  intros Hn. unfold find_key. destruct (find _ l) as [c |] eqn:E; [exfalso | reflexivity].
  apply find_some in E. destruct E as [Hc Hk]. apply Z.eqb_eq in Hk.
  apply Hn. rewrite <- Hk. apply in_map, Hc.
Qed.

Lemma find_key_found y l : snd (find_key y l) = true <-> In (Key y) (map Key l).
Proof.
  unfold find_key. destruct (find _ l) as [c |] eqn:E; cbn [snd].
  - apply find_some in E. destruct E as [Hc Hk]. apply Z.eqb_eq in Hk.
    split; [intros _; rewrite <- Hk; apply in_map, Hc | reflexivity].
  - split; [discriminate | intros H; exfalso]. apply in_map_iff in H. destruct H as [c [Hk Hc]].
    pose proof (find_none _ _ E c Hc) as Hf. cbn beta in Hf. rewrite Hk, Z.eqb_refl in Hf.
    discriminate.
Qed.

Lemma ins_length_absent x l : ~ In (Key x) (map Key l) -> length (ins x l) = S (length l).
Proof.
  induction l as [| z l IH]; intros Hn; [reflexivity |]. cbn [ins].
  destruct (Key x <? Key z); [reflexivity |].
  destruct (Key x =? Key z) eqn:E; [apply Z.eqb_eq in E; exfalso; apply Hn; left; congruence |].
  cbn [length]. rewrite IH; [reflexivity |]. intros H. apply Hn. right. exact H.
Qed.

Lemma del_length_present x l :
  StronglySorted ltk l -> In (Key x) (map Key l) -> length (del (Key x) l) = pred (length l).
Proof.
  intros Hs Hin. apply in_map_iff in Hin. destruct Hin as [c [Hk Hc]].
  apply in_split in Hc. destruct Hc as [A [B ->]]. rewrite <- Hk, (del_mid A c B Hs).
  rewrite !length_app. cbn [length]. lia.
Qed.

Lemma del_length_absent x l : ~ In (Key x) (map Key l) -> del (Key x) l = l.
Proof.
  intros Hn. apply del_keep. apply Forall_forall. intros a Ha E. apply Hn. rewrite <- E. apply in_map, Ha.
Qed.

Lemma size_items t : btree_ok t = true -> size t = len (items t).
Proof.
  intros Hok. unfold items. destruct (Root t) as [r |] eqn:Er.
  - destruct (btree_ok_root t r Hok Er) as [_ [_ [_ Hsz]]]. exact Hsz.
  - unfold btree_ok in Hok. rewrite Er in Hok. apply andb_true_iff in Hok.
    destruct Hok as [_ Hz]. apply Z.eqb_eq in Hz. exact Hz.
Qed.

Lemma items_sorted t : btree_ok t = true -> StronglySorted ltk (items t).
Proof.
  intros Hok. unfold items. destruct (Root t) as [r |] eqn:Er; [| constructor].
  destruct (btree_ok_root t r Hok Er) as [_ [_ [Hs _]]]. exact Hs.
Qed.

(** X1: on a tree keeping the invariant, [Get item] changes nothing and
    returns the stored item of key [Key item] with [true], or [item] itself
    with [false] when no stored item has that key. *)
Theorem Get_ok item t :
  btree_ok t = true -> Get item t = Ok (find_key item (items t)) t.
Proof.
  intros Hok.
  assert (H : Runs (Get item) t (fun v t' => v = find_key item (items t) /\ t' = t)).
  { unfold Get. apply runs_bind. unfold searchRecursively. apply runs_get.
    pose proof (items_sorted t Hok) as Hsorted. unfold items in *.
    destruct (Root t) as [root |] eqn:Er.
    - destruct (btree_ok_root t root Hok Er) as [Hmm [Hw [Hs Hsz]]].
      pose proof (wf_root_inorder_ne _ _ _ _ _ Hw) as Hne.
      assert (Hs0 : size t <> 0) by (rewrite Hsz; unfold len; destruct (inorder root); [congruence | cbn; lia]).
      replace (size t =? 0) with false by (symmetry; apply Z.eqb_neq; exact Hs0). cbv iota.
      destruct (in_dec Z.eq_dec (Key item) (map Key (inorder root))) as [Hin | Hnin].
      + destruct (searchFrom_found (minContents (m t)) (maxContents (m t)) item root [] (height root))
          as [ctx' [N' [l1 [c0 [l2 [h' [Hsearch [Hplug [HcN' [Hkey [Hc' Hw']]]]]]]]]]].
        * reflexivity.
        * cbn [lo_of]. rewrite wf_erase. exact Hw.
        * cbn [plug]. rewrite inorder_erase. exact Hs.
        * constructor.
        * constructor.
        * rewrite inorder_erase. exact Hin.
        * exists (Some (ctx_addr ctx', len l1)), t. split; [apply Hsearch |]. cbv beta iota.
          assert (Hv : view t = (Some (plug ctx' N'), size t, m t))
            by (unfold view, eroot; rewrite Er, Hplug; reflexivity).
          assert (Hc0 : In c0 (inorder root)).
          { rewrite <- inorder_erase. change (erase root) with (plug [] (erase root)).
            rewrite <- Hplug, inorder_plug. apply in_or_app. right. apply in_or_app. left.
            apply (all_items_inorder _ _ _ _ _ _ _ Hw'). rewrite all_items_eq, HcN'.
            apply in_or_app. left. apply in_or_app. right. left. reflexivity. }
          apply runs_bind. eapply runs_getNode; [exact Hv | apply node_at_plug0 |]. intros n Hn.
          apply runs_bind. eapply runs_lift.
          -- rewrite <- erase_Contents, Hn, HcN'. unfold len. apply index_mid.
          -- apply runs_ret. split; [| reflexivity]. symmetry. exact (find_key_in item c0 _ Hs Hc0 Hkey).
      + assert (Habs : existsb (fun c => Key c =? Key item) (all_items root) = false).
        { destruct (existsb _ _) eqn:E; [exfalso | reflexivity].
          apply existsb_exists in E. destruct E as [c [Hc Hk]]. apply Z.eqb_eq in Hk.
          apply Hnin. rewrite <- Hk. apply in_map. apply (all_items_inorder _ _ _ _ _ _ _ Hw Hc). }
        exists None, t. split; [apply searchFrom_absent; [apply (wf_kids_ok _ _ _ _ _ _ Hw) | exact Habs] |].
        cbv iota. apply runs_ret. split; [| reflexivity]. symmetry. apply find_key_none, Hnin.
    - unfold btree_ok in Hok. rewrite Er in Hok. apply andb_true_iff in Hok. destruct Hok as [_ Hz].
      rewrite Hz. cbv iota. apply runs_ret. cbv iota. apply runs_ret. split; reflexivity. }
  destruct H as [v [t' [E [-> ->]]]]. exact E.
Qed.

Lemma Get_ok_witness :
  btree_ok treeA = true /\ Get (it 5) treeA = Ok (find_key (it 5) (items treeA)) treeA.
Proof.
  assert (H : btree_ok treeA = true) by (vm_compute; reflexivity).
  split; [exact H | exact (Get_ok (it 5) treeA H)].
Defined.

(** X2: [Put item] on a tree keeping the invariant (whose item digest
    computes if the tree is empty) returns normally; afterwards [Get] finds
    [item] under its key and answers every other key as before. *)
Theorem Put_then_Get CH Sum item y t :
  btree_ok t = true -> (Root t = None -> CH item <> None) ->
  exists v t', Get y t = Ok v t /\ Put CH Sum item t = Ok tt t' /\
    Get y t' = Ok (if Key y =? Key item then (item, true) else v) t'.
Proof.
  intros Hok Hn. destruct (Put_ok CH Sum item t Hok Hn) as [u [t' [E [Hok' Hi']]]]. destruct u.
  exists (find_key y (items t)), t'. split; [exact (Get_ok y t Hok) |]. split; [exact E |].
  rewrite (Get_ok y t' Hok'), Hi', find_key_ins. reflexivity.
Qed.

Lemma Put_then_Get_witness :
  btree_ok treeA = true /\ (Root treeA = None -> item_hash (mkItem 3 30) <> None) /\
  exists v t', Get (it 3) treeA = Ok v treeA /\ Put item_hash id_sum (mkItem 3 30) treeA = Ok tt t' /\
    Get (it 3) t' = Ok (if Key (it 3) =? Key (mkItem 3 30) then (mkItem 3 30, true) else v) t'.
Proof.
  assert (H1 : btree_ok treeA = true) by (vm_compute; reflexivity).
  assert (H2 : Root treeA = None -> item_hash (mkItem 3 30) <> None) by (intros _; discriminate).
  split; [exact H1 |]. split; [exact H2 |]. exact (Put_then_Get item_hash id_sum (mkItem 3 30) (it 3) treeA H1 H2).
Defined.

(** X3: [Remove item] on a tree keeping the invariant returns normally;
    afterwards [Get] reports the key of [item] absent and answers every
    other key as before. *)
Theorem Remove_then_Get CH Sum item y t :
  btree_ok t = true ->
  exists v t', Get y t = Ok v t /\ Remove CH Sum item t = Ok tt t' /\
    Get y t' = Ok (if Key y =? Key item then (y, false) else v) t'.
Proof.
  intros Hok. destruct (Remove_ok CH Sum item t Hok) as [u [t' [E [Hok' Hi']]]]. destruct u.
  exists (find_key y (items t)), t'. split; [exact (Get_ok y t Hok) |]. split; [exact E |].
  rewrite (Get_ok y t' Hok'), Hi', find_key_del. reflexivity.
Qed.

Lemma Remove_then_Get_witness :
  btree_ok treeA = true /\
  exists v t', Get (it 4) treeA = Ok v treeA /\ Remove item_hash id_sum (it 4) treeA = Ok tt t' /\
    Get (it 4) t' = Ok (if Key (it 4) =? Key (it 4) then (it 4, false) else v) t'.
Proof.
  assert (H1 : btree_ok treeA = true) by (vm_compute; reflexivity).
  split; [exact H1 | exact (Remove_then_Get item_hash id_sum (it 4) (it 4) treeA H1)].
Defined.

(** X4: [Put item] on a tree keeping the invariant (whose item digest
    computes if the tree is empty) adds one to [Size] when [Get item]
    reported the key absent and leaves it unchanged when present. *)
Theorem Put_Size CH Sum item t :
  btree_ok t = true -> (Root t = None -> CH item <> None) ->
  exists v t', Get item t = Ok v t /\ Put CH Sum item t = Ok tt t' /\
    Size t' = if snd v then Size t else Size t + 1.
Proof.
  intros Hok Hn. destruct (Put_ok CH Sum item t Hok Hn) as [u [t' [E [Hok' Hi']]]]. destruct u.
  exists (find_key item (items t)), t'. split; [exact (Get_ok item t Hok) |]. split; [exact E |].
  unfold Size. rewrite (size_items t' Hok'), (size_items t Hok), Hi'. unfold len.
  destruct (snd (find_key item (items t))) eqn:Ef.
  - apply find_key_found in Ef. rewrite (ins_length_present item _ (items_sorted t Hok) Ef). reflexivity.
  - assert (Hn' : ~ In (Key item) (map Key (items t))) by (rewrite <- find_key_found, Ef; discriminate).
    rewrite (ins_length_absent item _ Hn'). lia.
Qed.

Lemma Put_Size_witness :
  btree_ok treeA = true /\ (Root treeA = None -> item_hash (it 8) <> None) /\
  exists v t', Get (it 8) treeA = Ok v treeA /\ Put item_hash id_sum (it 8) treeA = Ok tt t' /\
    Size t' = if snd v then Size treeA else Size treeA + 1.
Proof.
  assert (H1 : btree_ok treeA = true) by (vm_compute; reflexivity).
  assert (H2 : Root treeA = None -> item_hash (it 8) <> None) by (intros _; discriminate).
  split; [exact H1 |]. split; [exact H2 |]. exact (Put_Size item_hash id_sum (it 8) treeA H1 H2).
Defined.

(** X5: [Remove item] on a tree keeping the invariant subtracts one from
    [Size] when [Get item] reported the key present and leaves it unchanged
    when absent. *)
Theorem Remove_Size CH Sum item t :
  btree_ok t = true ->
  exists v t', Get item t = Ok v t /\ Remove CH Sum item t = Ok tt t' /\
    Size t' = if snd v then Size t - 1 else Size t.
Proof.
  intros Hok. destruct (Remove_ok CH Sum item t Hok) as [u [t' [E [Hok' Hi']]]]. destruct u.
  exists (find_key item (items t)), t'. split; [exact (Get_ok item t Hok) |]. split; [exact E |].
  unfold Size. rewrite (size_items t' Hok'), (size_items t Hok), Hi'. unfold len.
  destruct (snd (find_key item (items t))) eqn:Ef.
  - apply find_key_found in Ef. rewrite (del_length_present item _ (items_sorted t Hok) Ef).
    assert (Hl : length (items t) <> O) by (destruct (items t); [contradiction | discriminate]).
    lia.
  - assert (Hn' : ~ In (Key item) (map Key (items t))) by (rewrite <- find_key_found, Ef; discriminate).
    rewrite (del_length_absent item _ Hn'). reflexivity.
Qed.

Lemma Remove_Size_witness :
  btree_ok treeA = true /\
  exists v t', Get (it 2) treeA = Ok v treeA /\ Remove item_hash id_sum (it 2) treeA = Ok tt t' /\
    Size t' = if snd v then Size treeA - 1 else Size treeA.
Proof.
  assert (H1 : btree_ok treeA = true) by (vm_compute; reflexivity).
  split; [exact H1 | exact (Remove_Size item_hash id_sum (it 2) treeA H1)].
Defined.

(** ** The extreme items *)

Lemma leftFrom_leaf minc maxc (n : Node) : 1 <= minc -> forall h lo hi,
  1 <= lo -> wf minc maxc h lo hi n = true ->
  exists b L suf, (forall a t, leftFrom n a t = Ok (b ++ a) t) /\ node_at n b = Some L /\
    Contents L <> [] /\ inorder n = Contents L ++ suf.
Proof.
  intros Hmin. induction n as [hn cs ks IH] using Node_ind'. intros h lo hi Hlo Hw.
  destruct ks as [| k ks].
  - exists [], (mkNode hn cs []), []. split; [intros a t; reflexivity |]. split; [reflexivity |].
    split; [| cbn [inorder Contents]; rewrite app_nil_r; reflexivity].
    pose proof (wf_bounds _ _ _ _ _ _ Hw) as Hb. cbn [Contents] in Hb |- *. intros E. rewrite E in Hb.
    unfold len in Hb. cbn in Hb. lia.
  - destruct h as [| h]; [apply wf_leaf in Hw; destruct Hw as [_ Hw]; discriminate |].
    apply wf_node in Hw. destruct Hw as [_ [_ Hf]]. cbn [Children] in Hf.
    inversion Hf as [| ? ? Hk _]; subst. inversion IH as [| ? ? IHk _]; subst.
    destruct (IHk h minc maxc Hmin Hk) as [b [L [suf [Hrun [Hat [Hne Hin]]]]]].
    exists (b ++ [O]), L, (suf ++ weave (map inorder ks) cs). split; [| split; [| split]].
    + intros a t. cbn [leftFrom]. rewrite Hrun, <- app_assoc. reflexivity.
    + rewrite node_at_app. cbn [node_at Children nth_error]. exact Hat.
    + exact Hne.
    + cbn [inorder]. rewrite Hin, <- app_assoc. reflexivity.
Qed.

Lemma weave_snoc xs x : forall cs, length (xs ++ [x]) = length cs ->
  exists pre, weave (xs ++ [x]) cs = pre ++ x.
Proof.
  induction xs as [| y xs IH]; intros [| c cs] H; cbn in H; try discriminate.
  - destruct cs; [| discriminate]. exists [c]. cbn. rewrite app_nil_r. reflexivity.
  - injection H as H. destruct (IH cs H) as [pre E]. exists (c :: y ++ pre). cbn [app weave].
    rewrite E, app_assoc. reflexivity.
Qed.

Lemma inorder_last_child hn cs ks0 k :
  length (ks0 ++ [k]) = S (length cs) -> exists pre, inorder (mkNode hn cs (ks0 ++ [k])) = pre ++ inorder k.
Proof.
  intros H. destruct ks0 as [| k0 ks1].
  - cbn in H. destruct cs; [| discriminate]. exists []. cbn. rewrite app_nil_r. reflexivity.
  - cbn [app length] in H. injection H as H.
    destruct (weave_snoc (map inorder ks1) (inorder k) cs) as [pre E];
      [rewrite length_app, length_map; rewrite length_app in H; exact H |].
    exists (inorder k0 ++ pre). cbn [app inorder]. rewrite map_app. cbn [map]. rewrite E, app_assoc.
    reflexivity.
Qed.

Lemma rightFrom_leaf minc maxc (n : Node) : 1 <= minc -> forall h lo hi,
  1 <= lo -> wf minc maxc h lo hi n = true ->
  exists b L pre, (forall a t, rightFrom n a t = Ok (b ++ a) t) /\ node_at n b = Some L /\
    Contents L <> [] /\ inorder n = pre ++ Contents L.
Proof.
  intros Hmin. induction n as [hn cs ks IH] using Node_ind'. intros h lo hi Hlo Hw.
  destruct (list_snoc_cases ks) as [-> | [ks0 [k ->]]].
  - exists [], (mkNode hn cs []), []. split; [intros a t; reflexivity |]. split; [reflexivity |].
    split; [| reflexivity].
    pose proof (wf_bounds _ _ _ _ _ _ Hw) as Hb. cbn [Contents] in Hb |- *. intros E. rewrite E in Hb.
    unfold len in Hb. cbn in Hb. lia.
  - destruct h as [| h]; [apply wf_leaf in Hw; destruct Hw as [_ Hw]; cbn [Children] in Hw;
                           destruct ks0; discriminate |].
    assert (Hr : forall a, rightFrom (mkNode hn cs (ks0 ++ [k])) a = rightFrom k (length ks0 :: a)).
    { intros a. destruct ks0 as [| k1 ks1]; [reflexivity |].
      exact (last_fix_eq (fun i k => rightFrom k (i :: a)) (k1 :: ks1) k O). }
    apply wf_node in Hw. destruct Hw as [_ [Hlen Hf]]. cbn [Children Contents] in Hlen, Hf.
    rewrite Forall_forall in Hf, IH.
    assert (Hkin : In k (ks0 ++ [k])) by (apply in_or_app; right; left; reflexivity).
    destruct (IH k Hkin h minc maxc Hmin (Hf k Hkin)) as [b [L [pre [Hrun [Hat [Hne Hin]]]]]].
    destruct (inorder_last_child hn cs ks0 k Hlen) as [pre' Hpre].
    exists (b ++ [length ks0]), L, (pre' ++ pre). split; [| split; [| split]].
    + intros a t. rewrite Hr, Hrun, <- app_assoc. reflexivity.
    + rewrite node_at_app. cbn [node_at Children]. rewrite (nth_error_mid ks0 k []). exact Hat.
    + exact Hne.
    + rewrite Hpre, Hin, app_assoc. reflexivity.
Qed.

(** X6: on a tree keeping the invariant, [LeftItem] returns the item of
    least key and [RightItem] the item of greatest key ([None] on an empty
    tree); neither changes the tree. *)
Theorem LeftItem_RightItem t :
  btree_ok t = true ->
  LeftItem t = Ok (hd_error (items t)) t /\ RightItem t = Ok (hd_error (rev (items t))) t.
Proof.
  intros Hok. unfold items. destruct (Root t) as [r |] eqn:Er.
  - destruct (btree_ok_root t r Hok Er) as [Hmm [Hw [_ Hsz]]].
    destruct (caps_facts _ Hmm) as [Hmin _].
    pose proof (wf_root_inorder_ne _ _ _ _ _ Hw) as Hne.
    assert (Hs0 : (size t =? 0) = false)
      by (apply Z.eqb_neq; rewrite Hsz; unfold len; destruct (inorder r); [congruence | cbn; lia]).
    split.
    + destruct (leftFrom_leaf _ _ r Hmin _ 1 _ ltac:(lia) Hw) as [b [L [suf [Hrun [Hat [HL Hin]]]]]].
      destruct (Contents L) as [| c cs] eqn:EL; [contradiction |].
      assert (Hget : forall a n, node_at r a = Some n -> getNode a t = Ok n t)
        by (intros a n Ha; unfold getNode; rewrite Er, Ha; reflexivity).
      unfold LeftItem, left, bind, get_tree. rewrite Hs0, (Hget [] r eq_refl), Hrun, app_nil_r.
      unfold ret. rewrite (Hget b L Hat), EL. cbn. rewrite Hin. reflexivity.
    + destruct (rightFrom_leaf _ _ r Hmin _ 1 _ ltac:(lia) Hw) as [b [L [pre [Hrun [Hat [HL Hin]]]]]].
      destruct (exists_last HL) as [l' [x EL]].
      assert (Hget : forall a n, node_at r a = Some n -> getNode a t = Ok n t)
        by (intros a n Ha; unfold getNode; rewrite Er, Ha; reflexivity).
      unfold RightItem, right, bind, get_tree. rewrite Hs0, (Hget [] r eq_refl), Hrun, app_nil_r.
      unfold ret. rewrite (Hget b L Hat), EL, index_last. cbn [lift].
      rewrite Hin, EL, app_assoc, rev_unit. reflexivity.
  - unfold btree_ok in Hok. rewrite Er in Hok. apply andb_true_iff in Hok. destruct Hok as [_ Hz].
    unfold LeftItem, RightItem, left, right, bind, get_tree. rewrite Hz. split; reflexivity.
Qed.

Lemma LeftItem_RightItem_witness :
  btree_ok treeA = true /\
  LeftItem treeA = Ok (hd_error (items treeA)) treeA /\ RightItem treeA = Ok (hd_error (rev (items treeA))) treeA.
Proof.
  assert (H : btree_ok treeA = true) by (vm_compute; reflexivity).
  split; [exact H | exact (LeftItem_RightItem treeA H)].
Defined.

(** ** Sequences of calls against the ordered-map model *)

Lemma step_items CH Sum o t :
  btree_ok t = true -> items (state_of (apply_op CH Sum o t)) = map_model [o] (items t).
Proof.
  intros Hok. destruct o as [item | item]; cbn [apply_op map_model].
  - destruct (Root t) as [r |] eqn:Er; [| destruct (CH item) as [hb |] eqn:Ech].
    + destruct (Put_ok CH Sum item t Hok) as [v [t' [E [_ Hi]]]];
        [intros E; congruence | rewrite E; exact Hi].
    + destruct (Put_ok CH Sum item t Hok) as [v [t' [E [_ Hi]]]];
        [intros _; congruence | rewrite E; exact Hi].
    + rewrite (Put_digest_error CH Sum item t Er Ech). unfold items. rewrite Er. reflexivity.
  - destruct (Remove_ok CH Sum item t Hok) as [v [t' [E [_ Hi]]]]. rewrite E. exact Hi.
Qed.

Lemma run_through_items CH Sum os : forall t,
  btree_ok t = true -> items (run_through CH Sum os t) = map_model os (items t).
Proof.
  induction os as [| o os IH]; intros t Hok; [reflexivity |]. cbn [run_through].
  rewrite (IH _ (step_ok CH Sum o t Hok)), (step_items CH Sum o t Hok).
  destruct o; reflexivity.
Qed.

(** X7: after any sequence of [Put]/[Remove] calls from a new tree (going on
    after a [Put] that reports a digest error), the stored items in key
    order and [Size] are those of an ordered map keyed by [Key] that [Put]
    updates (insert or replace) and [Remove] deletes from. *)
Theorem reachable_map_model CH Sum order t0 os :
  NewWith order = Some t0 ->
  items (run_through CH Sum os t0) = map_model os [] /\
  Size (run_through CH Sum os t0) = len (map_model os []).
Proof.
  intros H. destruct (NewWith_ok _ _ H) as [-> Hok].
  pose proof (run_through_items CH Sum os _ Hok) as Hi. cbn [items Root] in Hi.
  split; [exact Hi |]. unfold Size. rewrite (size_items _ (run_through_ok CH Sum os _ Hok)), Hi.
  reflexivity.
Qed.

Lemma reachable_map_model_witness :
  NewWith 3 = Some (mkTree None 0 3) /\
  items (run_through item_hash id_sum (keys [5; 3; 8] ++ [OpRemove (it 3); OpPut (mkItem 8 0)]) (mkTree None 0 3)) =
    map_model (keys [5; 3; 8] ++ [OpRemove (it 3); OpPut (mkItem 8 0)]) [] /\
  Size (run_through item_hash id_sum (keys [5; 3; 8] ++ [OpRemove (it 3); OpPut (mkItem 8 0)]) (mkTree None 0 3)) =
    len (map_model (keys [5; 3; 8] ++ [OpRemove (it 3); OpPut (mkItem 8 0)]) []).
Proof.
  assert (H : NewWith 3 = Some (mkTree None 0 3)) by reflexivity.
  split; [exact H | exact (reachable_map_model item_hash id_sum 3 _ _ H)].
Defined.

Lemma del_ins x l : del (Key x) (ins x l) = del (Key x) l.
Proof.
  induction l as [| z l IH]; unfold del in *; cbn [ins].
  - cbn. rewrite Z.eqb_refl. reflexivity.
  - destruct (Key x <? Key z).
    + cbn [filter]. rewrite Z.eqb_refl. reflexivity.
    + destruct (Key x =? Key z) eqn:E.
      * apply Z.eqb_eq in E. cbn [filter]. rewrite Z.eqb_refl, <- E, Z.eqb_refl. reflexivity.
      * cbn [filter]. rewrite IH. reflexivity.
Qed.

(** X8: on a tree keeping the invariant where [Get x] reports the key of
    [x] absent, [Put x] followed by [Remove x] returns normally and leaves
    the same items and the same [Size] (the digest of [x] computing if the
    tree is empty). *)
Theorem Put_Remove_fresh CH Sum x t :
  btree_ok t = true -> (Root t = None -> CH x <> None) -> Get x t = Ok (x, false) t ->
  exists t', run CH Sum [OpPut x; OpRemove x] t = Ok tt t' /\
    items t' = items t /\ Size t' = Size t.
Proof.
  intros Hok Hn Hg. rewrite (Get_ok x t Hok) in Hg. injection Hg as Hf.
  assert (Habs : ~ In (Key x) (map Key (items t))) by (rewrite <- find_key_found, Hf; discriminate).
  destruct (Put_ok CH Sum x t Hok Hn) as [u1 [t1 [E1 [Hok1 Hi1]]]].
  destruct (Remove_ok CH Sum x t1 Hok1) as [u2 [t2 [E2 [Hok2 Hi2]]]].
  assert (Hi : items t2 = items t) by (rewrite Hi2, Hi1, del_ins; apply del_length_absent, Habs).
  exists t2. split; [| split; [exact Hi |]].
  - cbn [run apply_op]. unfold bind. rewrite E1, E2. reflexivity.
  - unfold Size. rewrite (size_items t2 Hok2), (size_items t Hok), Hi. reflexivity.
Qed.

Lemma Put_Remove_fresh_witness :
  btree_ok treeA = true /\ (Root treeA = None -> item_hash (it 9) <> None) /\
  Get (it 9) treeA = Ok (it 9, false) treeA /\
  exists t', run item_hash id_sum [OpPut (it 9); OpRemove (it 9)] treeA = Ok tt t' /\
    items t' = items treeA /\ Size t' = Size treeA.
Proof.
  assert (H1 : btree_ok treeA = true) by (vm_compute; reflexivity).
  assert (H2 : Root treeA = None -> item_hash (it 9) <> None) by (intros _; discriminate).
  assert (H3 : Get (it 9) treeA = Ok (it 9, false) treeA) by (vm_compute; reflexivity).
  split; [exact H1 |]. split; [exact H2 |]. split; [exact H3 |].
  exact (Put_Remove_fresh item_hash id_sum (it 9) treeA H1 H2 H3).
Defined.

(** ** Height *)

Lemma nodeHeight_height n : nodeHeight n = Z.of_nat (S (height n)).
Proof.
  induction n as [hn cs ks IH] using Node_ind'. destruct ks as [| k ks]; [reflexivity |].
  inversion IH as [| ? ? Hk _]; subst. cbn [nodeHeight height]. rewrite Hk. lia.
Qed.

Lemma weave_len ks : forall cs, length ks = length cs ->
  len (weave (map inorder ks) cs) = fold_right (fun k acc => len (inorder k) + 1 + acc) 0 ks.
Proof.
  induction ks as [| k ks IH]; intros [| c cs] H; cbn in H; try discriminate; [reflexivity |].
  injection H as H. cbn [map weave fold_right]. rewrite <- (IH cs H). unfold len.
  cbn [length]. rewrite length_app. lia.
Qed.

Lemma sum_bounds (f : Node -> Z) A B ks :
  (forall k, In k ks -> A <= f k <= B) ->
  Z.of_nat (length ks) * A <= fold_right (fun k acc => f k + acc) 0 ks <= Z.of_nat (length ks) * B.
Proof.
  induction ks as [| k ks IH]; intros H; cbn [length fold_right]; [lia |].
  assert (Hk : A <= f k <= B) by (apply H; left; reflexivity).
  assert (Hr := IH (fun k' Hk' => H k' (or_intror Hk'))). rewrite Nat2Z.inj_succ. lia.
Qed.

Lemma wf_len_bounds minc maxc h : 0 <= minc <= maxc -> forall lo hi n,
  0 <= lo -> wf minc maxc h lo hi n = true ->
  (lo + 1) * (minc + 1) ^ Z.of_nat h <= len (inorder n) + 1 <= (hi + 1) * (maxc + 1) ^ Z.of_nat h.
Proof.
  intros Hc. induction h as [| h IH]; intros lo hi n Hlo Hw.
  - apply wf_leaf in Hw. destruct Hw as [Hb Hk]. rewrite inorder_leaf by exact Hk.
    cbn [Z.of_nat]. rewrite !Z.pow_0_r. lia.
  - pose proof (wf_bounds _ _ _ _ _ _ Hw) as Hb.
    apply wf_node in Hw. destruct Hw as [_ [Hlen Hf]]. rewrite Forall_forall in Hf.
    destruct n as [hn cs [| k0 ks]]; cbn [Children Contents length] in *; [discriminate |].
    injection Hlen as Hlen. cbn [inorder].
    assert (E : len (inorder k0 ++ weave (map inorder ks) cs) =
                len (inorder k0) + len (weave (map inorder ks) cs))
      by (unfold len; rewrite length_app; lia).
    rewrite E, (weave_len ks cs Hlen).
    pose proof (sum_bounds (fun k => len (inorder k) + 1)
                  ((minc + 1) * (minc + 1) ^ Z.of_nat h) ((maxc + 1) * (maxc + 1) ^ Z.of_nat h)
                  (k0 :: ks)) as Hs.
    cbn beta in Hs. cbn [fold_right length] in Hs.
    assert (Hp1 : 0 <= (minc + 1) ^ Z.of_nat h) by (apply Z.pow_nonneg; lia).
    assert (Hp2 : 0 <= (maxc + 1) ^ Z.of_nat h) by (apply Z.pow_nonneg; lia).
    rewrite Nat2Z.inj_succ, (Z.pow_succ_r (minc + 1)), (Z.pow_succ_r (maxc + 1)) by lia.
    assert (Hcnt : Z.of_nat (S (length ks)) = len cs + 1) by (unfold len; rewrite Hlen; lia).
    rewrite Hcnt in Hs. destruct Hs as [Hs1 Hs2].
    { intros k Hk. apply (IH minc maxc k); [lia | apply Hf, Hk]. }
    assert (M1 : (lo + 1) * ((minc + 1) * (minc + 1) ^ Z.of_nat h) <=
                 (len cs + 1) * ((minc + 1) * (minc + 1) ^ Z.of_nat h))
      by (apply Z.mul_le_mono_nonneg_r; [apply Z.mul_nonneg_nonneg; lia | lia]).
    assert (M2 : (len cs + 1) * ((maxc + 1) * (maxc + 1) ^ Z.of_nat h) <=
                 (hi + 1) * ((maxc + 1) * (maxc + 1) ^ Z.of_nat h))
      by (apply Z.mul_le_mono_nonneg_r; [apply Z.mul_nonneg_nonneg; lia | lia]).
    split; lia.
Qed.

(** X9: the [Height] of a tree keeping the invariant of order [m] bounds
    its [Size] both ways: 2 * minChildren(m)^(Height-1) <= Size + 1 <= m^Height
    (an empty tree has height 0). *)
Theorem Height_bounds t :
  btree_ok t = true ->
  2 * minChildren (m t) ^ (Height t - 1) <= Size t + 1 <= m t ^ Height t.
Proof.
  intros Hok. unfold Height, Size. destruct (Root t) as [r |] eqn:Er.
  - destruct (btree_ok_root t r Hok Er) as [Hmm [Hw [_ Hsz]]].
    destruct (caps_facts _ Hmm) as [Hmin [_ [H2 Hmax]]].
    pose proof (wf_len_bounds (minContents (m t)) (maxContents (m t)) (height r) ltac:(lia) 1 (maxContents (m t)) r ltac:(lia) Hw) as [Hl Hu].
    rewrite nodeHeight_height, Hsz. rewrite Nat2Z.inj_succ.
    replace (Z.succ (Z.of_nat (height r)) - 1) with (Z.of_nat (height r)) by lia.
    replace (minChildren (m t)) with (minContents (m t) + 1) by (unfold minContents; lia).
    rewrite Z.pow_succ_r by lia. rewrite Hmax in Hu. replace (m t - 1 + 1) with (m t) in Hu by lia.
    split; lia.
  - unfold btree_ok in Hok. rewrite Er in Hok. apply andb_true_iff in Hok. destruct Hok as [_ Hz].
    apply Z.eqb_eq in Hz. rewrite Hz. rewrite Z.pow_neg_r by lia. rewrite Z.pow_0_r. lia.
Qed.

Lemma Height_bounds_witness :
  btree_ok treeA = true /\ 2 * minChildren (m treeA) ^ (Height treeA - 1) <= Size treeA + 1 <= m treeA ^ Height treeA.
Proof.
  assert (H : btree_ok treeA = true) by (vm_compute; reflexivity).
  split; [exact H | exact (Height_bounds treeA H)].
Defined.

(** ** Level-order rehashing *)

Lemma Hash_update_at_gen r p : forall g,
  (forall x, Hash (g x) = Hash x) -> Hash (update_at r p g) = Hash r.
Proof.
  induction p as [| i p IH]; intros g Hg; cbn [update_at]; [apply Hg |].
  apply IH. intros x. reflexivity.
Qed.

(** A write below the root leaves the root's cached digest alone. *)
Lemma Hash_update_at r a f : a <> [] -> Hash (update_at r a f) = Hash r.
Proof.
  destruct a as [| i p]; [contradiction |]. intros _. cbn [update_at].
  apply Hash_update_at_gen. intros x. reflexivity.
Qed.

Lemma runs_modifyNode_hash a h t R s mm (Q : unit -> Tree -> Prop) :
  view t = (Some R, s, mm) -> node_at R a <> None -> a <> [] ->
  (forall t', view t' = (Some R, s, mm) -> option_map Hash (Root t') = option_map Hash (Root t) -> Q tt t') ->
  Runs (modifyNode a (with_hash h)) t Q.
Proof.
  intros Hv HN Ha HQ. destruct (view_root _ _ _ _ Hv) as [r [Er [<- [Hs Hm]]]].
  rewrite node_at_erase in HN. destruct (node_at r a) as [n |] eqn:En; [| contradiction].
  exists tt, (with_root (Some (update_at r a (with_hash h))) t). unfold modifyNode. rewrite Er, En.
  split; [reflexivity |]. apply HQ.
  - unfold view, eroot, with_root. cbn [Root size m option_map].
    rewrite (erase_update_at r a (with_hash h) (fun x => x)), update_at_id, Hs, Hm;
      [reflexivity | apply erase_with_hash].
  - cbn [with_root Root option_map]. rewrite Er, Hash_update_at by exact Ha. reflexivity.
Qed.

Lemma runs_rehash_level CH Sum l : forall t R s mm hr,
  (forall a n, In (a, n) l -> a <> [] /\ node_at R a <> None) ->
  view t = (Some R, s, mm) -> option_map Hash (Root t) = Some hr ->
  Runs (rehash_level CH Sum l) t
    (fun _ t' => view t' = (Some R, s, mm) /\ option_map Hash (Root t') = Some hr).
Proof.
  induction l as [| [a n] l IH]; intros t R s mm hr Hl Hv Hh; cbn [rehash_level].
  - apply runs_ret. split; assumption.
  - destruct (Hl a n (or_introl eq_refl)) as [Ha HN].
    assert (Hl' : forall a' n', In (a', n') l -> a' <> [] /\ node_at R a' <> None)
      by (intros a' n' H; apply (Hl a' n'); right; exact H).
    apply runs_bind. apply (runs_modifyNode_hash a [] t R s mm); [exact Hv | exact HN | exact Ha |].
    intros t1 Hv1 Hh1. rewrite Hh in Hh1.
    destruct (node_at R a) as [N |] eqn:EN; [| contradiction].
    apply runs_bind. unfold CalculateHash. apply runs_bind.
    eapply runs_getNode; [exact Hv1 | exact EN |]. intros x _.
    destruct (node_hash CH Sum x) as [hx |].
    + apply runs_bind. apply (runs_modifyNode_hash a hx t1 R s mm); [exact Hv1 | rewrite EN; discriminate | exact Ha |].
      intros t2 Hv2 Hh2. rewrite Hh1 in Hh2. apply runs_ret. apply IH; assumption.
    + apply runs_ret. apply IH; assumption.
Qed.

Lemma runs_rehash_levels CH Sum ls : forall t R s mm hr,
  (forall l a n, In l ls -> In (a, n) l -> a <> [] /\ node_at R a <> None) ->
  view t = (Some R, s, mm) -> option_map Hash (Root t) = Some hr ->
  Runs (rehash_levels CH Sum ls) t
    (fun _ t' => view t' = (Some R, s, mm) /\ option_map Hash (Root t') = Some hr).
Proof.
  induction ls as [| l ls IH]; intros t R s mm hr Hls Hv Hh; cbn [rehash_levels].
  - apply runs_ret. split; assumption.
  - apply runs_bind. eapply runs_weaken.
    + apply (runs_rehash_level CH Sum l t R s mm hr); [| exact Hv | exact Hh].
      intros a n H. apply (Hls l a n); [left; reflexivity | exact H].
    + intros _ t1 [Hv1 Hh1]. apply IH; [| exact Hv1 | exact Hh1].
      intros l' a n H1 H2. apply (Hls l' a n); [right; exact H1 | exact H2].
Qed.

Lemma enum_kids_in a ks : forall i b k,
  In (b, k) (enum_kids a i ks) -> exists j, b = (i + j)%nat :: a /\ nth_error ks j = Some k.
Proof.
  induction ks as [| k0 ks IH]; intros i b k H; cbn [enum_kids In] in H; [contradiction |].
  destruct H as [H | H].
  - injection H as <- <-. exists O. rewrite Nat.add_0_r. split; reflexivity.
  - destruct (IH (S i) b k H) as [j [-> Hj]]. exists (S j). split; [f_equal; lia | exact Hj].
Qed.

(** Every node [deepSearch] lists below the root sits at its address, which
    is not the root's. *)
Lemma deep_levels_at r fuel : forall start,
  (forall a n, In (a, n) start -> node_at r a = Some n) ->
  forall l a n, In l (deep_levels fuel start) -> In (a, n) l -> a <> [] /\ node_at r a = Some n.
Proof.
  induction fuel as [| fuel IH]; intros start Hs l a n Hl Han; cbn [deep_levels] in Hl; [contradiction |].
  set (next := concat (map (fun p => enum_kids (fst p) O (Children (snd p))) start)) in *.
  assert (Hnext : forall a n, In (a, n) next -> a <> [] /\ node_at r a = Some n).
  { intros a' n' H. apply in_concat in H. destruct H as [l' [Hl' H]]. apply in_map_iff in Hl'.
    destruct Hl' as [[b m0] [<- Hb]]. cbn [fst snd] in H.
    destruct (enum_kids_in b (Children m0) O a' n' H) as [j [-> Hj]].
    split; [discriminate |]. cbn [node_at]. rewrite (Hs b m0 Hb). exact Hj. }
  destruct Hl as [<- | Hl]; [exact (Hnext a n Han) |].
  destruct next as [| [a0 n0] rest] eqn:En; [contradiction |].
  destruct (isLeaf n0); [contradiction |].
  rewrite <- En in Hl, Hnext. exact (IH next (fun a' n' H => proj2 (Hnext a' n' H)) l a n Hl Han).
Qed.

(** X10: [calculateMerkleRoot] never panics, leaves the items, the shape and
    the size as they were, and returns the hex encoding of the root's cached
    digest, which it never recomputes: the result is [MerkleBTreeRoot] of the
    tree it was called on, and stays the tree's [MerkleBTreeRoot]. *)
Theorem calculateMerkleRoot_cached_root CH Sum t :
  exists t', calculateMerkleRoot CH Sum t = Ok (MerkleBTreeRoot t) t' /\
    view t' = view t /\ MerkleBTreeRoot t' = MerkleBTreeRoot t.
Proof.
  assert (H : Runs (calculateMerkleRoot CH Sum) t
                (fun v t' => v = MerkleBTreeRoot t /\ view t' = view t /\ MerkleBTreeRoot t' = MerkleBTreeRoot t)).
  { unfold calculateMerkleRoot. apply runs_get. unfold MerkleBTreeRoot at 1.
    destruct (Root t) as [r |] eqn:Er.
    - assert (Hv : view t = (Some (erase r), size t, m t)) by (unfold view, eroot; rewrite Er; reflexivity).
      assert (Hd : deepSearch t = [([], r)] :: deep_levels (depth r) [([], r)]) by (unfold deepSearch; rewrite Er; reflexivity).
      cbv zeta. rewrite Hd. cbn [tl]. apply runs_bind. eapply runs_weaken.
      + apply (runs_rehash_levels CH Sum _ t (erase r) (size t) (m t) (Hash r)); [| exact Hv | rewrite Er; reflexivity].
        intros l a n Hl Han. apply in_rev in Hl.
        destruct (deep_levels_at r (depth r) [([], r)]) with (l := l) (a := a) (n := n) as [Ha Hat];
          [intros a' n' [E | []]; injection E as <- <-; reflexivity | exact Hl | exact Han |].
        split; [exact Ha |]. rewrite node_at_erase, Hat. discriminate.
      + intros _ t' [Hv' Hh']. destruct (view_root _ _ _ _ Hv') as [r' [Er' _]].
        rewrite Er' in Hh'. injection Hh' as Hh'.
        apply runs_bind. exists r', t'. split; [unfold getNode; rewrite Er'; reflexivity |].
        apply runs_ret. rewrite Hh'. split; [reflexivity |]. split; [rewrite Hv'; symmetry; exact Hv |].
        unfold MerkleBTreeRoot. rewrite Er', Er, Hh'. reflexivity.
    - apply runs_ret. split; [reflexivity |]. split; [reflexivity |]. reflexivity. }
  destruct H as [v [t' [E [-> Hrest]]]]. exists t'. split; [exact E | exact Hrest].
Qed.

(** ** Order of insertions *)

Lemma ins_comm x y l : Key x <> Key y -> ins x (ins y l) = ins y (ins x l).
Proof.
  intros Hxy. induction l as [| z l IH]; cbn [ins];
    repeat (match goal with
            | |- context [Key ?a <? Key ?b] =>
              let E := fresh "E" in
              destruct (Key a <? Key b) eqn:E; [apply Z.ltb_lt in E | apply Z.ltb_ge in E]
            | |- context [Key ?a =? Key ?b] =>
              let E := fresh "E" in
              destruct (Key a =? Key b) eqn:E; [apply Z.eqb_eq in E | apply Z.eqb_neq in E]
            end; cbn [ins]);
    first [exfalso; lia | reflexivity | rewrite IH; reflexivity].
Qed.

(** X11: on a tree keeping the invariant, putting two items of different
    keys (whose digests compute) in either order returns normally and ends
    with the same items and the same [Size]. *)
Theorem Put_Put_comm CH Sum x y t :
  btree_ok t = true -> Key x <> Key y -> CH x <> None -> CH y <> None ->
  exists t1 t2, run CH Sum [OpPut x; OpPut y] t = Ok tt t1 /\
    run CH Sum [OpPut y; OpPut x] t = Ok tt t2 /\ items t1 = items t2 /\ Size t1 = Size t2.
Proof.
  intros Hok Hxy Hx Hy.
  destruct (runs_puts CH Sum [x; y] t Hok ltac:(repeat constructor; assumption)) as [u1 [t1 [E1 [Hok1 Hi1]]]].
  destruct (runs_puts CH Sum [y; x] t Hok ltac:(repeat constructor; assumption)) as [u2 [t2 [E2 [Hok2 Hi2]]]].
  destruct u1, u2. cbn [map fold_left] in E1, E2, Hi1, Hi2.
  assert (Hi : items t1 = items t2) by (rewrite Hi1, Hi2; apply ins_comm; congruence).
  exists t1, t2. split; [exact E1 |]. split; [exact E2 |]. split; [exact Hi |].
  unfold Size. rewrite (size_items t1 Hok1), (size_items t2 Hok2), Hi. reflexivity.
Qed.

Lemma Put_Put_comm_witness :
  btree_ok treeA = true /\ Key (it 9) <> Key (it 0) /\ item_hash (it 9) <> None /\ item_hash (it 0) <> None /\
  exists t1 t2, run item_hash id_sum [OpPut (it 9); OpPut (it 0)] treeA = Ok tt t1 /\
    run item_hash id_sum [OpPut (it 0); OpPut (it 9)] treeA = Ok tt t2 /\ items t1 = items t2 /\ Size t1 = Size t2.
Proof.
  assert (H1 : btree_ok treeA = true) by (vm_compute; reflexivity).
  assert (H2 : Key (it 9) <> Key (it 0)) by (cbn; lia).
  assert (H3 : item_hash (it 9) <> None) by discriminate.
  assert (H4 : item_hash (it 0) <> None) by discriminate.
  split; [exact H1 |]. split; [exact H2 |]. split; [exact H3 |]. split; [exact H4 |].
  exact (Put_Put_comm item_hash id_sum (it 9) (it 0) treeA H1 H2 H3 H4).
Defined.

End MerkleBTree.
